(** * Pax Manager: the booking workflow core, embedded and verified

  The front-end of the repository is JavaScript.  This development embeds
  the parts of it that carry the booking workflow:

  - [JS]: the fragment of the JavaScript value semantics that the helpers
    rely on (truthiness, [||], property access, [+], [-], and the
    conversions behind them);
  - [Helpers]: [calculateTotalPaid] and [calculateBalance]
    (utils/helpers);
  - [ROLES], [BOOKING_STATUS], [SECTOR_TYPES], [PAYMENT_TYPES]: the string
    enumerations of utils/constants;
  - [Pages]: the role and status guards of the booking detail page, the
    route table of [App] and the navigation table of [DashboardLayout];
  - [Policy]: the role policy these guards add up to, next to the
    permission table of the specification;
  - [CreateBookingPage]: the payload built by its [handleSubmit];
  - [Workflow]: the server-side transition service, which is not part of
    the examined sources and is modelled from the specification.

  Numbers.  A JavaScript number is an IEEE-754 binary64 value, and so is
  a number here: the primitive [float] of the kernel, whose operations
  are specified by the Standard Library's [SpecFloat].  There is one
  [NaN], there are two zeros and two infinities, and [+] and [-] round to
  nearest, ties to even.

  Strings.  A string is the sequence of bytes of its UTF-8 form. *)

From stdpp Require Import gmap strings list pretty sorting.
From Stdlib Require Import ZArith Lia Ascii String Floats.

#[local] Open Scope string_scope.
#[local] Open Scope list_scope.
#[local] Open Scope Z_scope.

(** ** A fragment of JavaScript *)

Module JS.

Definition number := float.

Definition NaN : number := nan.

Definition Infinity : number := infinity.

(** The binary64 value nearest to an integer, and the number it is. *)
Definition ZtoSF (z : Z) : spec_float := binary_normalize prec emax z 0 false.

Definition Num (z : Z) : number := SF2Prim (ZtoSF z).

(** The signed significand of a finite binary64 value once its exponent
    is lowered to [ez]. *)
Definition aligned (s : bool) (m : positive) (e ez : Z) : Z :=
  cond_Zopp s (Zpos (fst (shl_align m e ez))).

(** Values as [JSON.parse] produces them, plus [undefined] and the
    numbers that arithmetic adds ([NaN]).  An object is the list of its
    own properties in insertion order; keys are unique in a JavaScript
    object, and [lookup_prop] reads the first binding.  No value is a
    function: a property that holds one is never an own property of such
    an object. *)
#[local] Unset Elimination Schemes.
Inductive value :=
| VUndefined
| VNull
| VBool (b : bool)
| VNumber (n : number)
| VString (s : string)
| VArray (elems : list value)
| VObject (props : list (string * value)).
#[local] Set Elimination Schemes.

Inductive exn :=
| TypeError.

(** The outcome of evaluating an expression: a value, or a thrown
    exception. *)
Inductive completion (A : Type) :=
| Normal (a : A)
| Throw (e : exn).
Arguments Normal {A} a.
Arguments Throw {A} e.

Definition bind {A B} (c : completion A) (k : A -> completion B)
  : completion B :=
  match c with
  | Normal a => k a
  | Throw e => Throw e
  end.

#[export] Instance completion_bind : MBind completion :=
  fun A B k c => bind c k.
#[export] Instance completion_ret : MRet completion := @Normal.

Definition zero : value := VNumber PrimFloat.zero.

(** ToBoolean *)
Definition truthy (v : value) : bool :=
  match v with
  | VUndefined | VNull => false
  | VBool b => b
  | VNumber n => negb (is_nan n || is_zero n)
  | VString s => negb (String.eqb s "")
  | VArray _ | VObject _ => true
  end.

(** [a || b] *)
Definition or_else (a b : value) : value :=
  if truthy a then a else b.

(** [Array.isArray(v)] *)
Definition isArray (v : value) : bool :=
  match v with
  | VArray _ => true
  | _ => false
  end.

Fixpoint lookup_prop (k : string) (props : list (string * value))
  : value :=
  match props with
  | [] => VUndefined
  | (k', v) :: rest => if String.eqb k' k then v else lookup_prop k rest
  end.

(** Whether [k] is an own property. *)
Definition has_prop (k : string) (props : list (string * value)) : bool :=
  existsb (fun kv => String.eqb (fst kv) k) props.

(** [v.k] for a data key [k].  Reading a property of [undefined] or
    [null] throws; a primitive or an array has no own property of such a
    name (indices, [length] and inherited methods are not data keys and
    are not modelled), so the read yields [undefined]. *)
Definition get (v : value) (k : string) : completion value :=
  match v with
  | VUndefined | VNull => Throw TypeError
  | VObject props => Normal (lookup_prop k props)
  | _ => Normal VUndefined
  end.

(** *** Numbers and strings *)

(** The number nearest to the fraction [n / d], for [0 <= n] and
    [0 < d], with the given sign: the quotient is taken in units of the
    smallest subnormal, with the position of the remainder, and rounded
    to nearest, ties to even. *)
Definition round_ratio (neg : bool) (n d : Z) : spec_float :=
  let scaled := n * 2 ^ 1074 in
  let r := scaled mod d in
  binary_round_aux prec emax neg (scaled / d) (-1074)
    (if r =? 0 then loc_Exact else loc_Inexact (2 * r ?= d)).

(** The number nearest to [s * 10 ^ k], for [0 <= s].  Far beyond the
    range of the format the answer is known without the power. *)
Definition round_decimal (neg : bool) (s k : Z) : spec_float :=
  if s =? 0 then S754_zero neg
  else if 400 <? k then S754_infinity neg
  else if k + Z.log2 s + 1 <? -400 then S754_zero neg
  else if 0 <=? k then round_ratio neg (s * 10 ^ k) 1
  else round_ratio neg s (10 ^ (- k)).

Definition SF_eqb (x y : spec_float) : bool :=
  match x, y with
  | S754_zero a, S754_zero b | S754_infinity a, S754_infinity b =>
      Bool.eqb a b
  | S754_nan, S754_nan => true
  | S754_finite a m e, S754_finite b m' e' =>
      Bool.eqb a b && Pos.eqb m m' && Z.eqb e e'
  | _, _ => false
  end.

(** [p / q] against [10 ^ j]. *)
Definition compare_pow10 (p q j : Z) : comparison :=
  if 0 <=? j then p ?= q * 10 ^ j else p * 10 ^ (- j) ?= q.

(** The largest [j], from a lower estimate upwards, with
    [10 ^ j <= p / q]. *)
Fixpoint magnitude (fuel : nat) (p q j : Z) : Z :=
  match fuel with
  | O => j
  | S fuel' =>
      match compare_pow10 p q (j + 1) with
      | Lt => j
      | _ => magnitude fuel' p q (j + 1)
      end
  end.

(** [floor (p / q / 10 ^ j)] *)
Definition scaled_floor (p q j : Z) : Z :=
  if 0 <=? j then p / (q * 10 ^ j) else (p * 10 ^ (- j)) / q.

(** The digits of Number::toString for the number [m * 2 ^ e = p / q]
    with [10 ^ (n - 1) <= p / q < 10 ^ n]: the least [k] and an [s] of
    [k] digits such that [s * 10 ^ (n - k)] rounds to the number; of two
    such [s] the one nearer to the number, the even one on a tie.
    Seventeen digits always suffice. *)
Fixpoint shortest (fuel : nat) (m : positive) (e : Z) (p q n k : Z)
  : Z * Z * Z :=
  let lo := scaled_floor p q (n - k) in
  let hi := lo + 1 in
  let hit s :=
    SF_eqb (round_decimal false s (n - k)) (S754_finite false m e) in
  let pick s := if s =? 10 ^ k then (1, 1, n + 1) else (s, k, n) in
  let nearer :=
    match (if 0 <=? n - k
           then 2 * p ?= (lo + hi) * q * 10 ^ (n - k)
           else 2 * p * 10 ^ (k - n) ?= (lo + hi) * q) with
    | Lt => lo
    | Gt => hi
    | Eq => if Z.even lo then lo else hi
    end in
  match hit lo, hit hi with
  | true, true => pick nearer
  | true, false => pick lo
  | false, true => pick hi
  | false, false =>
      match fuel with
      | O => (lo, k, n)
      | S fuel' => shortest fuel' m e p q n (k + 1)
      end
  end.

Definition digits_of (m : positive) (e : Z) : Z * Z * Z :=
  let p := if 0 <=? e then Zpos m * 2 ^ e else Zpos m in
  let q := if 0 <=? e then 1 else 2 ^ (- e) in
  let j0 := ((Z.log2 p - Z.log2 q - 1) * 30103) / 100000 - 1 in
  let n := magnitude 6 p q j0 + 1 in
  shortest 20 m e p q n 1.

Definition zeros (n : Z) : string :=
  String.concat "" (repeat "0" (Z.to_nat n)).

(** The layout of Number::toString in radix 10, from the digits. *)
Definition format_digits (skn : Z * Z * Z) : string :=
  let '(s, k, n) := skn in
  let ds := pretty s in
  if (k <=? n) && (n <=? 21) then ds +:+ zeros (n - k)
  else if (0 <? n) && (n <=? 21)
  then String.substring 0 (Z.to_nat n) ds +:+ "."
         +:+ String.substring (Z.to_nat n) (Z.to_nat (k - n)) ds
  else if (-6 <? n) && (n <=? 0) then "0." +:+ zeros (- n) +:+ ds
  else
    let ex := (if 0 <? n - 1 then "+" else "-") +:+ pretty (Z.abs (n - 1)) in
    if k =? 1 then ds +:+ "e" +:+ ex
    else String.substring 0 1 ds +:+ "."
           +:+ String.substring 1 (Z.to_nat (k - 1)) ds +:+ "e" +:+ ex.

(** Number::toString *)
Definition number_to_string (x : number) : string :=
  match Prim2SF x with
  | S754_nan => "NaN"
  | S754_zero _ => "0"
  | S754_infinity s => (if s then "-" else "") +:+ "Infinity"
  | S754_finite s m e =>
      (if s then "-" else "") +:+ format_digits (digits_of m e)
  end.

Definition digit_value (base : Z) (c : ascii) : option Z :=
  let n := Z.of_nat (Ascii.nat_of_ascii c) in
  let v := if (48 <=? n) && (n <=? 57) then Some (n - 48)
           else if (97 <=? n) && (n <=? 122) then Some (n - 87)
           else if (65 <=? n) && (n <=? 90) then Some (n - 55)
           else None in
  match v with
  | Some d => if d <? base then Some d else None
  | None => None
  end.

(** The longest run of digits at the head of [s]: its value on top of
    [acc], its length on top of [count], and what follows it. *)
Fixpoint read_digits (base : Z) (s : string) (acc count : Z)
  : Z * Z * string :=
  match s with
  | String c rest =>
      match digit_value base c with
      | Some d => read_digits base rest (base * acc + d) (count + 1)
      | None => (acc, count, s)
      end
  | EmptyString => (acc, count, s)
  end.

(** The length of the white space or line terminator at the head of [s],
    or 0: TAB, LF, VT, FF, CR, SP; NBSP; U+1680; U+2000 to U+200A,
    U+2028, U+2029, U+202F; U+205F; U+3000; U+FEFF. *)
Definition ws_length (s : string) : nat :=
  match s with
  | String a rest =>
      let x := Ascii.nat_of_ascii a in
      if ((x =? 32) || ((9 <=? x) && (x <=? 13)))%nat then 1%nat
      else
        match rest with
        | String b rest' =>
            let y := Ascii.nat_of_ascii b in
            if ((x =? 194) && (y =? 160))%nat then 2%nat
            else
              match rest' with
              | String c _ =>
                  let z := Ascii.nat_of_ascii c in
                  if ((x =? 225) && (y =? 154) && (z =? 128))%nat
                  then 3%nat
                  else if ((x =? 226) && (y =? 128)
                           && (((128 <=? z) && (z <=? 138))
                               || (z =? 168) || (z =? 169)
                               || (z =? 175)))%nat
                  then 3%nat
                  else if ((x =? 226) && (y =? 129) && (z =? 159))%nat
                  then 3%nat
                  else if ((x =? 227) && (y =? 128) && (z =? 128))%nat
                  then 3%nat
                  else if ((x =? 239) && (y =? 187) && (z =? 191))%nat
                  then 3%nat
                  else 0%nat
              | EmptyString => 0%nat
              end
        | EmptyString => 0%nat
        end
  | EmptyString => 0%nat
  end.

Fixpoint drop_chars (n : nat) (s : string) : string :=
  match n, s with
  | S n', String _ rest => drop_chars n' rest
  | _, _ => s
  end.

Fixpoint trim_start (fuel : nat) (s : string) : string :=
  match fuel with
  | O => s
  | S fuel' =>
      match ws_length s with
      | O => s
      | n => trim_start fuel' (drop_chars n s)
      end
  end.

(** The white space at the end of [s] is dropped by scanning from the
    left: white space is kept only when something else follows it. *)
Fixpoint trim_end (fuel : nat) (s : string) : string :=
  match fuel with
  | O => s
  | S fuel' =>
      match trim_start (String.length s) s with
      | EmptyString => EmptyString
      | _ =>
          match s with
          | EmptyString => EmptyString
          | String c rest =>
              match ws_length s with
              | O => String c (trim_end fuel' rest)
              | n => String.substring 0 n s
                       +:+ trim_end fuel' (drop_chars n s)
              end
          end
      end
  end.

Definition trim (s : string) : string :=
  trim_end (String.length s) (trim_start (String.length s) s).

(** ExponentPart, or nothing: the exponent and what follows it. *)
Definition read_exponent (s : string) : option (Z * string) :=
  match s with
  | String c rest =>
      if Ascii.eqb c "e" || Ascii.eqb c "E" then
        let '(neg, body) :=
          match rest with
          | String "+" r => (false, r)
          | String "-" r => (true, r)
          | _ => (false, rest)
          end in
        let '(v, count, after) := read_digits 10 body 0 0 in
        if count =? 0 then None
        else Some (if neg then - v else v, after)
      else Some (0, s)
  | EmptyString => Some (0, s)
  end.

(** StrUnsignedDecimalLiteral: [Infinity], or digits with an optional
    fraction and an optional exponent, at least one digit before or
    after the point. *)
Definition unsigned_decimal (neg : bool) (s : string) : spec_float :=
  if String.eqb s "Infinity" then S754_infinity neg
  else
    let '(ip, ni, rest) := read_digits 10 s 0 0 in
    let '(fp, nf, rest') :=
      match rest with
      | String "." r => read_digits 10 r ip 0
      | _ => (ip, 0, rest)
      end in
    if ni + nf =? 0 then S754_nan
    else
      match read_exponent rest' with
      | Some (ex, EmptyString) => round_decimal neg fp (ex - nf)
      | _ => S754_nan
      end.

(** NonDecimalIntegerLiteral, after its prefix. *)
Definition non_decimal (base : Z) (body : string) : spec_float :=
  let '(v, count, rest) := read_digits base body 0 0 in
  match rest with
  | EmptyString =>
      if count =? 0 then S754_nan else round_ratio false v 1
  | _ => S754_nan
  end.

(** StringToNumber: surrounding white space is dropped; the empty string
    is 0; a binary, octal or hexadecimal integer carries no sign; a
    decimal literal may; anything else is [NaN]. *)
Definition string_to_number (s : string) : number :=
  SF2Prim
    match trim s with
    | EmptyString => S754_zero false
    | String "0" (String "x" body) | String "0" (String "X" body) =>
        non_decimal 16 body
    | String "0" (String "o" body) | String "0" (String "O" body) =>
        non_decimal 8 body
    | String "0" (String "b" body) | String "0" (String "B" body) =>
        non_decimal 2 body
    | String "+" body => unsigned_decimal false body
    | String "-" body => unsigned_decimal true body
    | t => unsigned_decimal false t
    end.

(** *** Conversions *)

(** ToString.  An array prints its elements separated by commas, with
    [null] and [undefined] elements printed as the empty string.  An
    object prints through the [toString] it inherits; an own property of
    that name hides the inherited method, is not callable, and the
    conversion throws. *)
Fixpoint to_string (v : value) : completion string :=
  match v with
  | VUndefined => Normal "undefined"
  | VNull => Normal "null"
  | VBool true => Normal "true"
  | VBool false => Normal "false"
  | VNumber n => Normal (number_to_string n)
  | VString s => Normal s
  | VArray elems =>
      (fix join (l : list value) : completion string :=
         match l with
         | [] => Normal ""
         | x :: rest =>
             match (match x with
                    | VUndefined | VNull => Normal ""
                    | _ => to_string x
                    end) with
             | Throw e => Throw e
             | Normal sx =>
                 match rest with
                 | [] => Normal sx
                 | _ :: _ =>
                     match join rest with
                     | Throw e => Throw e
                     | Normal sr => Normal (sx +:+ "," +:+ sr)
                     end
                 end
             end
         end) elems
  | VObject props =>
      if has_prop "toString" props then Throw TypeError
      else Normal "[object Object]"
  end.

(** ToPrimitive: arrays and objects convert through their string form,
    whatever the hint, since the [valueOf] they inherit returns the
    object itself. *)
Definition to_primitive (v : value) : completion value :=
  match v with
  | VArray _ | VObject _ => s ← to_string v; Normal (VString s)
  | _ => Normal v
  end.

(** ToNumber *)
Definition to_number (v : value) : completion number :=
  p ← to_primitive v;
  Normal match p with
         | VUndefined => NaN
         | VNull => PrimFloat.zero
         | VBool true => PrimFloat.one
         | VBool false => PrimFloat.zero
         | VNumber n => n
         | VString s => string_to_number s
         | VArray _ | VObject _ => NaN
         end.

Definition number_add (a b : number) : number := PrimFloat.add a b.

Definition number_sub (a b : number) : number := PrimFloat.sub a b.

Definition is_string (v : value) : bool :=
  match v with
  | VString _ => true
  | _ => false
  end.

(** [a + b]: both operands are converted to primitives, left first;
    string concatenation as soon as one primitive is a string, numeric
    addition otherwise. *)
Definition add (a b : value) : completion value :=
  pa ← to_primitive a;
  pb ← to_primitive b;
  if is_string pa || is_string pb
  then sa ← to_string pa; sb ← to_string pb; Normal (VString (sa +:+ sb))
  else na ← to_number pa; nb ← to_number pb;
       Normal (VNumber (number_add na nb)).

(** [a - b]: always numeric. *)
Definition sub (a b : value) : completion value :=
  na ← to_number a; nb ← to_number b; Normal (VNumber (number_sub na nb)).

(** [arr.reduce(f, init)] for a callback that may throw. *)
Fixpoint reduce (f : value -> value -> completion value)
  (elems : list value) (acc : value) : completion value :=
  match elems with
  | [] => Normal acc
  | x :: rest => acc' ← f acc x; reduce f rest acc'
  end.

End JS.

(** ** utils/helpers *)

Module Helpers.
Import JS.

(** [[
    export const calculateTotalPaid = (installments) => {
      if (!installments || !Array.isArray(installments)) return 0;
      return installments.reduce((sum, inst) => sum + (inst.amount || 0), 0);
    };
    ]] *)
Definition calculateTotalPaid (installments : value) : completion value :=
  if negb (truthy installments) || negb (isArray installments)
  then Normal zero
  else
    match installments with
    | VArray elems =>
        reduce (fun sum inst =>
                  amount ← get inst "amount";
                  add sum (or_else amount zero))
               elems zero
    | _ => Normal zero
    end.

(** [[
    export const calculateBalance = (salePrice, installments) => {
      const totalPaid = calculateTotalPaid(installments);
      return salePrice - totalPaid;
    };
    ]] *)
Definition calculateBalance (salePrice installments : value)
  : completion value :=
  totalPaid ← calculateTotalPaid installments;
  sub salePrice totalPaid.

End Helpers.

(** ** The financial aggregator on well-shaped data *)

Module Finance.
Import JS Helpers.

(** An installment as the data model has it. *)
Record Installment := mkInstallment {
  amount : number;
  date : string;
  mode : string;
}.

(** The JSON object an installment travels as. *)
Definition installment_value (i : Installment) : value :=
  VObject [("amount", VNumber (amount i));
           ("date", VString (date i));
           ("mode", VString (mode i))].

Definition installments_value (l : list Installment) : value :=
  VArray (installment_value <$> l).

(** The sum of a list of numbers, added from the left as the reduction
    does, in double arithmetic. *)
Definition sum_numbers (ns : list number) : number :=
  fold_left number_add ns PrimFloat.zero.

(** The sum of the installment amounts. *)
Definition sum_amounts (l : list Installment) : number :=
  sum_numbers (amount <$> l).

Definition sum_Z (zs : list Z) : Z := foldr Z.add 0 zs.

(** An installment of a whole number of units. *)
Definition units (z : Z) : Installment := mkInstallment (Num z) "" "".

(** The integers of magnitude up to [2 ^ 53], all of which are
    numbers. *)
Definition safe (z : Z) : bool := Z.abs z <=? 2 ^ 53.

(** Every amount and every running total from [acc] on is safe. *)
Fixpoint safe_sums (acc : Z) (zs : list Z) : bool :=
  match zs with
  | [] => true
  | z :: rest => safe z && safe (acc + z) && safe_sums (acc + z) rest
  end.

(** The integer a number denotes, when it denotes one. *)
Definition integer_value (n : number) : option Z :=
  match Prim2SF n with
  | S754_zero _ => Some 0
  | S754_finite s m e =>
      if 0 <=? e then Some (cond_Zopp s (Zpos m * 2 ^ e))
      else if Zpos m mod 2 ^ (- e) =? 0
           then Some (cond_Zopp s (Zpos m / 2 ^ (- e)))
           else None
  | _ => None
  end.

(** What an array element adds to a numeric running total when it is an
    object whose [amount] is absent, [null], [undefined] or a number (a
    falsy number counting as 0); [None] for any other shape. *)
Definition contribution (inst : value) : option number :=
  match inst with
  | VObject props =>
      match lookup_prop "amount" props with
      | VUndefined | VNull => Some PrimFloat.zero
      | VNumber n => Some (if truthy (VNumber n) then n else PrimFloat.zero)
      | _ => None
      end
  | _ => None
  end.

(** The callback handed to [reduce] by [calculateTotalPaid]. *)
Definition add_installment (sum inst : value) : completion value :=
  amount ← get inst "amount"; add sum (or_else amount zero).

(** [null] and [undefined], the values on which a property read throws. *)
Definition nullish (v : value) : bool :=
  match v with
  | VUndefined | VNull => true
  | _ => false
  end.

Definition is_NaN (v : value) : bool :=
  match v with
  | VNumber n => is_nan n
  | _ => false
  end.

(** The shapes a running total can take: a number, or a string once an
    ill-shaped amount has turned [+] into concatenation. *)
Definition number_or_string (v : value) : bool :=
  match v with
  | VNumber _ | VString _ => true
  | _ => false
  end.

(** What [sum + (inst.amount || 0)] adds for the element [inst], which is
    not [null] or [undefined]. *)
Definition addend (inst : value) : value :=
  or_else (match inst with
           | VObject props => lookup_prop "amount" props
           | _ => VUndefined
           end) zero.

(** The addend is one of the two infinities. *)
Definition infinite (v : value) : bool :=
  match v with
  | VNumber n => is_infinity n
  | _ => false
  end.

(** The conversion of the addend to a primitive does not throw. *)
Definition convertible (v : value) : bool :=
  match to_primitive v with
  | Normal _ => true
  | Throw _ => false
  end.

(** The values that are not objects. *)
Definition primitive (v : value) : bool :=
  match v with
  | VArray _ | VObject _ => false
  | _ => true
  end.

(** A string, or a number other than [NaN]. *)
Definition sound (v : value) : bool :=
  match v with
  | VString _ => true
  | VNumber n => negb (is_nan n)
  | _ => false
  end.

End Finance.

(** ** utils/constants *)

Module ROLES.
Definition AGENT1 : string := "agent1".
Definition AGENT2 : string := "agent2".
Definition ACCOUNT : string := "account".
Definition ADMIN : string := "admin".
End ROLES.

Module BOOKING_STATUS.
Definition DRAFT : string := "draft".
Definition SUBMITTED : string := "submitted".
Definition PENDING_VERIFICATION : string := "pending_verification".
Definition ACCOUNT_VERIFIED : string := "account_verified".
Definition ADMIN_VERIFIED : string := "admin_verified".
Definition BILLED : string := "billed".
Definition PAID : string := "paid".
End BOOKING_STATUS.

Module SECTOR_TYPES.
Definition ONE_WAY : string := "one_way".
Definition ROUND_TRIP : string := "round_trip".
Definition MULTIPLE : string := "multiple".
End SECTOR_TYPES.

Module PAYMENT_TYPES.
Definition FULL_PAYMENT : string := "full_payment".
Definition INSTALLMENTS : string := "installments".
End PAYMENT_TYPES.

(** ** The pages: guards, routes, navigation *)

Module Pages.

(** The signed-in user of the auth context; [None] when nobody is signed
    in ([user] is then [null]). *)
Record User := mkUser {
  name : string;
  role : string;
}.

(** The booking a detail page has fetched, as far as its guards read it;
    [None] while [booking] is still [null].  A timestamp that the server
    has not set is [None]. *)
Record Booking := mkBooking {
  pnr : string;
  status : string;
  created_at : option string;
  submitted_at : option string;
  account_verified_at : option string;
  admin_verified_at : option string;
}.

(** [x?.f === 'lit']: an absent object reads as [undefined], which is
    strictly equal to no string. *)
Definition strictEq (field : option string) (lit : string) : bool :=
  match field with
  | Some s => String.eqb s lit
  | None => false
  end.

(** [BookingDetailPage], the role conjunct of each action guard. *)
Definition submitRole (user : option User) : bool :=
  strictEq (role <$> user) "agent1".

Definition accountVerifyRole (user : option User) : bool :=
  strictEq (role <$> user) "account" || strictEq (role <$> user) "admin".

Definition adminVerifyRole (user : option User) : bool :=
  strictEq (role <$> user) "admin".

(** [[
    {user?.role === 'agent1' && booking?.status === 'draft' && (
      <Button onClick={handleSubmit} ...>
    ]] *)
Definition showSubmit (user : option User) (booking : option Booking)
  : bool :=
  submitRole user && strictEq (status <$> booking) "draft".

(** [[
    {(user?.role === 'account' || user?.role === 'admin')
       && booking?.status === 'pending_verification' && (
      <Button onClick={handleAccountVerify} ...>
    ]] *)
Definition showAccountVerify (user : option User) (booking : option Booking)
  : bool :=
  accountVerifyRole user && strictEq (status <$> booking) "pending_verification".

(** [[
    {user?.role === 'admin' && booking?.status === 'account_verified' && (
      <Button onClick={handleAdminVerify} ...>
    ]] *)
Definition showAdminVerify (user : option User) (booking : option Booking)
  : bool :=
  adminVerifyRole user && strictEq (status <$> booking) "account_verified".

(** [booking?.f && (...)] on a timestamp field: the row is rendered when
    the field holds a non-empty string. *)
Definition present (field : option string) : bool :=
  match field with
  | Some s => negb (String.eqb s "")
  | None => false
  end.

(** [BookingDetailPage], the rows of the Timestamps card below "Created
    At", which is always rendered. *)
Definition showSubmittedAt (booking : option Booking) : bool :=
  present (booking ≫= submitted_at).

Definition showAccountVerifiedAt (booking : option Booking) : bool :=
  present (booking ≫= account_verified_at).

Definition showAdminVerifiedAt (booking : option Booking) : bool :=
  present (booking ≫= admin_verified_at).

(** [roles.includes(r)] *)
Definition includes (roles : list string) (r : string) : bool :=
  existsb (String.eqb r) roles.

(** Modelled from the spec: [ProtectedRoute] (components/ProtectedRoute)
    is not among the examined sources.  Following the role policy of
    section 4.1, a route admits a signed-in user when it lists no roles or
    lists the user's role, and admits nobody who is not signed in. *)
Definition ProtectedRoute (allowedRoles : option (list string))
  (user : option User) : bool :=
  match user with
  | None => false
  | Some u =>
      match allowedRoles with
      | None => true
      | Some roles => includes roles (role u)
      end
  end.

(** Modelled from the spec: [hasRole] (context/AuthContext) is not among
    the examined sources.  Following the role policy of section 4.1, it
    holds when the signed-in user's role is one of the given roles. *)
Definition hasRole (user : option User) (roles : list string) : bool :=
  match user with
  | None => false
  | Some u => includes roles (role u)
  end.

Record Route := mkRoute {
  path : string;
  allowedRoles : option (list string);
}.

(** The protected routes of [App], in order. *)
Definition routes : list Route :=
  [ mkRoute "/dashboard" None;
    mkRoute "/bookings" None;
    mkRoute "/bookings/create" (Some ["agent1"; "admin"]);
    mkRoute "/bookings/:id" None;
    mkRoute "/reports" (Some ["account"; "admin"]);
    mkRoute "/suppliers" (Some ["admin"]);
    mkRoute "/users" (Some ["admin"]);
    mkRoute "/audit-logs" (Some ["admin"]) ].

(** Whether the route registered under [p] renders its page for [user]. *)
Definition routeAdmits (p : string) (user : option User) : bool :=
  match find (fun r => String.eqb (path r) p) routes with
  | Some r => ProtectedRoute (allowedRoles r) user
  | None => false
  end.

Record NavItem := mkNavItem {
  item_name : string;
  href : string;
  roles : list string;
}.

(** [DashboardLayout], the side-bar entries. *)
Definition navigation : list NavItem :=
  [ mkNavItem "Dashboard" "/dashboard"
      [ROLES.AGENT1; ROLES.AGENT2; ROLES.ACCOUNT; ROLES.ADMIN];
    mkNavItem "Bookings" "/bookings"
      [ROLES.AGENT1; ROLES.AGENT2; ROLES.ACCOUNT; ROLES.ADMIN];
    mkNavItem "Reports" "/reports" [ROLES.ACCOUNT; ROLES.ADMIN];
    mkNavItem "Suppliers" "/suppliers" [ROLES.ADMIN];
    mkNavItem "Users" "/users" [ROLES.ADMIN];
    mkNavItem "Activity Logs" "/audit-logs" [ROLES.ADMIN] ].

(** [navigation.filter((item) => hasRole(item.roles))] *)
Definition filteredNavigation (user : option User) : list NavItem :=
  filter (fun item => hasRole user (roles item) = true) navigation.

End Pages.

(** ** The role policy the pages implement *)

Module Policy.
Import Pages.

(** The actions of the permission table of section 4.1. *)
Inductive Action :=
| CreateBooking
| Submit
| VerifyAccount
| VerifyAdmin
| ViewReports
| ManageSuppliers
| ManageUsers
| ViewAuditLogs.

(** The closed set of roles. *)
Definition all_roles : list string :=
  [ROLES.AGENT1; ROLES.AGENT2; ROLES.ACCOUNT; ROLES.ADMIN].

(** [can r a]: a signed-in user of role [r] is offered action [a].  For
    the actions that have a page of their own this is the guard of the
    page's route; for the three workflow actions it is the role conjunct
    of the guard of the button that triggers them.  (The dashboard's
    quick link to the create page is rendered for [agent1] alone; the
    route behind it is what decides.) *)
Definition can (r : string) (a : Action) : bool :=
  let user := Some (mkUser "" r) in
  match a with
  | CreateBooking => routeAdmits "/bookings/create" user
  | Submit => submitRole user
  | VerifyAccount => accountVerifyRole user
  | VerifyAdmin => adminVerifyRole user
  | ViewReports => routeAdmits "/reports" user
  | ManageSuppliers => routeAdmits "/suppliers" user
  | ManageUsers => routeAdmits "/users" user
  | ViewAuditLogs => routeAdmits "/audit-logs" user
  end.

(** The permission table of section 4.1, row by row as the specification
    prints it. *)
Definition permission_table (r : string) (a : Action) : bool :=
  if String.eqb r "agent1" then
    match a with
    | CreateBooking | Submit => true
    | _ => false
    end
  else if String.eqb r "agent2" then false
  else if String.eqb r "account" then
    match a with
    | VerifyAccount | ViewReports => true
    | _ => false
    end
  else if String.eqb r "admin" then true
  else false.

(** The same table with the admin row's Submit entry set to no. *)
Definition permission_table_pages (r : string) (a : Action) : bool :=
  match a with
  | Submit => String.eqb r "agent1"
  | _ => permission_table r a
  end.

End Policy.

(** ** pages/CreateBookingPage: the payload of [handleSubmit] *)

Module TravelLeg.
Record t := mk {
  travel_date : string;
  from_location : string;
  to_location : string;
  return_date : string;
}.
End TravelLeg.

(** The form state held by the page. *)
Module FormData.
Record t := mk {
  pax_name : string;
  contact_person : string;
  contact_number : string;
  pnr : string;
  airline : string;
  supplier_id : string;
  our_cost : string;
  sale_price : string;
  sector_type : string;
  payment_type : string;
  travel_legs : list TravelLeg.t;
  note : string;
  installments : list JS.value;
}.
End FormData.

Module TravelDetails.
Record t := mk {
  sector_type : string;
  legs : list TravelLeg.t;
  note : option string;
}.
End TravelDetails.

(** The object posted to [/bookings]; [None] stands for [null]. *)
Module BookingData.
Record t := mk {
  pax_name : string;
  contact_person : option string;
  contact_number : string;
  pnr : string;
  airline : string;
  supplier_id : string;
  our_cost : JS.number;
  sale_price : JS.number;
  payment_type : string;
  travel_details : TravelDetails.t;
  installments : option (list JS.value);
}.
End BookingData.

Module CreateBookingPage.

(** [s || null] on a string. *)
Definition orNull (s : string) : option string :=
  if String.eqb s "" then None else Some s.

(** A string is truthy when it is not empty. *)
Definition nonEmpty (s : string) : bool := negb (String.eqb s "").

(** [leg => leg.travel_date && leg.from_location && leg.to_location] *)
Definition legComplete (leg : TravelLeg.t) : bool :=
  nonEmpty (TravelLeg.travel_date leg)
  && nonEmpty (TravelLeg.from_location leg)
  && nonEmpty (TravelLeg.to_location leg).

Section Payload.

(** The built-in [parseFloat]; the payload only passes its result on. *)
Variable parseFloat : string -> JS.number.

(** [[
    const bookingData = {
      pax_name: formData.pax_name,
      contact_person: formData.contact_person || null,
      ...
      our_cost: parseFloat(formData.our_cost),
      sale_price: parseFloat(formData.sale_price),
      payment_type: formData.payment_type,
      travel_details: {
        sector_type: formData.sector_type,
        legs: formData.travel_legs.filter(leg =>
                leg.travel_date && leg.from_location && leg.to_location),
        note: formData.note || null
      },
      installments: formData.payment_type === PAYMENT_TYPES.INSTALLMENTS
                      ? formData.installments : null
    };
    ]] *)
Definition bookingData (formData : FormData.t) : BookingData.t :=
  BookingData.mk
    (FormData.pax_name formData)
    (orNull (FormData.contact_person formData))
    (FormData.contact_number formData)
    (FormData.pnr formData)
    (FormData.airline formData)
    (FormData.supplier_id formData)
    (parseFloat (FormData.our_cost formData))
    (parseFloat (FormData.sale_price formData))
    (FormData.payment_type formData)
    (TravelDetails.mk
       (FormData.sector_type formData)
       (List.filter legComplete (FormData.travel_legs formData))
       (orNull (FormData.note formData)))
    (if String.eqb (FormData.payment_type formData) PAYMENT_TYPES.INSTALLMENTS
     then Some (FormData.installments formData)
     else None).

End Payload.

End CreateBookingPage.

(** ** The transition service (server side) *)

(** The pages only call [PUT /bookings/:id/submit], [.../verify-account]
    and [.../verify-admin]; the service that answers them is not among the
    examined sources.  Everything in this module is modelled from the
    specification: sections 3 (data model), 4.2 (transition table and
    algorithm), 5 (conditional update) and 6 (collaborator contracts). *)

Module Workflow.

(** Modelled from the spec: the closed set of roles (section 3, User). *)
Inductive Role := agent1 | agent2 | account | admin.

(** Modelled from the spec: the seven workflow statuses (section 4.2). *)
Inductive Status :=
| draft
| submitted
| pending_verification
| account_verified
| admin_verified
| billed
| paid.

(** Modelled from the spec: the actions of the transition table. *)
Inductive Action := submit | verify_account | verify_admin.

(** Modelled from the spec: the error taxonomy of section 7. *)
Inductive Error :=
| UnknownRole
| Forbidden
| InvalidTransition
| NotFound
| InvalidInput
| AuditFailure
| Conflict.

#[export] Instance Role_eq_dec : EqDecision Role.
Proof. solve_decision. Defined.
#[export] Instance Status_eq_dec : EqDecision Status.
Proof. solve_decision. Defined.
#[export] Instance Action_eq_dec : EqDecision Action.
Proof. solve_decision. Defined.
#[export] Instance Error_eq_dec : EqDecision Error.
Proof. solve_decision. Defined.

(** Modelled from the spec: a role as the front-end spells it
    ([ROLES] of utils/constants). *)
Definition role_name (r : Role) : string :=
  match r with
  | agent1 => ROLES.AGENT1
  | agent2 => ROLES.AGENT2
  | account => ROLES.ACCOUNT
  | admin => ROLES.ADMIN
  end.

(** Modelled from the spec: a status as the front-end spells it
    ([BOOKING_STATUS] of utils/constants). *)
Definition status_name (s : Status) : string :=
  match s with
  | draft => BOOKING_STATUS.DRAFT
  | submitted => BOOKING_STATUS.SUBMITTED
  | pending_verification => BOOKING_STATUS.PENDING_VERIFICATION
  | account_verified => BOOKING_STATUS.ACCOUNT_VERIFIED
  | admin_verified => BOOKING_STATUS.ADMIN_VERIFIED
  | billed => BOOKING_STATUS.BILLED
  | paid => BOOKING_STATUS.PAID
  end.

(** Modelled from the spec: the authenticated actor that every operation
    receives, by id and role (sections 6 and 9). *)
Record Actor := mkActor {
  actor_id : nat;
  actor_role : Role;
}.

(** Modelled from the spec: the part of a booking the state machine reads
    and writes (section 3): its status, the id of its creator, and its
    four timestamps, the last three absent until the corresponding
    transition occurs. *)
Record Booking := mkBooking {
  status : Status;
  created_by : nat;
  created_at : Z;
  submitted_at : option Z;
  account_verified_at : option Z;
  admin_verified_at : option Z;
}.

(** Modelled from the spec: column From of the transition table. *)
Definition from_state (a : Action) : Status :=
  match a with
  | submit => draft
  | verify_account => pending_verification
  | verify_admin => account_verified
  end.

(** Modelled from the spec: column To of the transition table. *)
Definition to_state (a : Action) : Status :=
  match a with
  | submit => pending_verification
  | verify_account => account_verified
  | verify_admin => admin_verified
  end.

(** Modelled from the spec: the roles of column Required role of the
    transition table. *)
Definition required_role (a : Action) (r : Role) : bool :=
  match a, r with
  | submit, agent1 => true
  | verify_account, (account | admin) => true
  | verify_admin, admin => true
  | _, _ => false
  end.

(** Modelled from the spec: column Required role with its qualifier.
    The submit row reads "agent1 (creator)" and the permission table
    "own, draft only": the actor must hold a required role and, to
    submit, be the creator of the booking. *)
Definition permitted (a : Action) (who : Actor) (b : Booking) : bool :=
  required_role a (actor_role who)
  && match a with
     | submit => Nat.eqb (actor_id who) (created_by b)
     | verify_account | verify_admin => true
     end.

(** Modelled from the spec: columns To and Side effect of the transition
    table, applied together (step 3 of the algorithm). *)
Definition stamp (a : Action) (now : Z) (b : Booking) : Booking :=
  match a with
  | submit =>
      mkBooking pending_verification (created_by b) (created_at b)
        (Some now) (account_verified_at b) (admin_verified_at b)
  | verify_account =>
      mkBooking account_verified (created_by b) (created_at b)
        (submitted_at b) (Some now) (admin_verified_at b)
  | verify_admin =>
      mkBooking admin_verified (created_by b) (created_at b)
        (submitted_at b) (account_verified_at b) (Some now)
  end.

(** Modelled from the spec: an audit log entry (section 3). *)
Record AuditLogEntry := mkEntry {
  timestamp : Z;
  actor : Actor;
  action : Action;
  entity_id : nat;
}.

(** Modelled from the spec: the persisted bookings, the append-only audit
    log, and the next unused booking id. *)
Record State := mkState {
  bookings : gmap nat Booking;
  audit_log : list AuditLogEntry;
  next_id : nat;
}.

Definition initial : State := mkState ∅ [] 0.

(** Modelled from the spec: a transition request.  [req_now] is the
    clock reading the operation stamps with; [req_audit_ok] is the answer
    the Audit Recorder will give to the [append] of this request ([Ok],
    or [Failure], which a timeout counts as; sections 5 and 6). *)
Record Request := mkRequest {
  req_id : nat;
  req_action : Action;
  req_actor : Actor;
  req_now : Z;
  req_audit_ok : bool;
}.

(** Modelled from the spec: [load_booking(id) -> Booking | NotFound]. *)
Definition load_booking (st : State) (id : nat) : Error + Booking :=
  match bookings st !! id with
  | Some b => inr b
  | None => inl NotFound
  end.

(** Modelled from the spec:
    [save_booking(booking, expected_status) -> Booking | Conflict], a
    compare-and-swap on the stored status (section 5). *)
Definition save_booking (σ : gmap nat Booking) (id : nat) (b : Booking)
  (expected_status : Status) : Error + gmap nat Booking :=
  match σ !! id with
  | Some current =>
      if decide (status current = expected_status)
      then inr (<[id := b]> σ)
      else inl Conflict
  | None => inl Conflict
  end.

(** Modelled from the spec: [create_booking(draft_fields, creator)], which
    stores a new booking in [draft] with its creator and only
    [created_at] set.  The operation lists no error, and none is
    modelled. *)
Definition create_booking (now : Z) (creator : Actor) (st : State)
  : Booking * State :=
  let b := mkBooking draft (actor_id creator) now None None None in
  (b, mkState (<[next_id st := b]> (bookings st)) (audit_log st)
        (S (next_id st))).

(** Modelled from the spec: steps 1 and 2 of the transition algorithm on
    the loaded booking: [Forbidden] when the actor lacks the permission
    the action requires, then [InvalidTransition] when the status is not
    the action's From state. *)
Definition validate (rq : Request) (st : State) : Error + Booking :=
  match load_booking st (req_id rq) with
  | inl e => inl e
  | inr b =>
      if negb (permitted (req_action rq) (req_actor rq) b)
      then inl Forbidden
      else if decide (status b = from_state (req_action rq))
           then inr b
           else inl InvalidTransition
  end.

(** Modelled from the spec: steps 3 to 5.  The new status and timestamp
    are written in one conditional update that passes the expected
    current status; a mismatch is [InvalidTransition].  Then the audit
    entry is appended; when the recorder fails the previous booking is
    written back and the operation fails with [AuditFailure]. *)
Definition commit (rq : Request) (b : Booking) (st : State)
  : (Error + Booking) * State :=
  let id := req_id rq in
  let a := req_action rq in
  let b' := stamp a (req_now rq) b in
  let previous := bookings st !! id in
  match save_booking (bookings st) id b' (from_state a) with
  | inl _ => (inl InvalidTransition, st)
  | inr σ' =>
      if req_audit_ok rq
      then (inr b',
            mkState σ'
              (audit_log st ++ [mkEntry (req_now rq) (req_actor rq) a id])
              (next_id st))
      else (inl AuditFailure,
            mkState (match previous with
                     | Some old => <[id := old]> σ'
                     | None => delete id σ'
                     end)
              (audit_log st) (next_id st))
  end.

(** Modelled from the spec: one transition request served on its own
    ([submit_booking], [verify_account], [verify_admin]). *)
Definition transition (rq : Request) (st : State)
  : (Error + Booking) * State :=
  match validate rq st with
  | inl e => (inl e, st)
  | inr b => commit rq b st
  end.

(** Modelled from the spec: a request in flight.  Each call to a
    collaborator is an atomic step of its own, so that two requests can
    interleave at every one of them: the load, the conditional update,
    the audit write (the suspension point of section 5) and the write
    that rolls the update back.  [Saved] and [Failing] remember the
    booking the update replaced. *)
Inductive Thread :=
| Ready
| Loaded (b : Booking)
| Saved (previous b' : Booking)
| Failing (previous : Booking)
| Done (r : Error + Booking).

(** Modelled from the spec: one atomic step of a request in flight. *)
Definition thread_step (rq : Request) (t : Thread) (st : State)
  : Thread * State :=
  let id := req_id rq in
  let a := req_action rq in
  match t with
  | Ready =>
      match validate rq st with
      | inl e => (Done (inl e), st)
      | inr b => (Loaded b, st)
      end
  | Loaded b =>
      let b' := stamp a (req_now rq) b in
      match bookings st !! id,
            save_booking (bookings st) id b' (from_state a) with
      | Some previous, inr σ' =>
          (Saved previous b', mkState σ' (audit_log st) (next_id st))
      | _, _ => (Done (inl InvalidTransition), st)
      end
  | Saved previous b' =>
      if req_audit_ok rq
      then (Done (inr b'),
            mkState (bookings st)
              (audit_log st ++ [mkEntry (req_now rq) (req_actor rq) a id])
              (next_id st))
      else (Failing previous, st)
  | Failing previous =>
      (Done (inl AuditFailure),
       mkState (<[id := previous]> (bookings st)) (audit_log st)
         (next_id st))
  | Done r => (Done r, st)
  end.

(** A request served without any other request in between: its four
    steps in a row. *)
Definition solo (rq : Request) (st : State) : Thread * State :=
  let '(t1, st1) := thread_step rq Ready st in
  let '(t2, st2) := thread_step rq t1 st1 in
  let '(t3, st3) := thread_step rq t2 st2 in
  thread_step rq t3 st3.

(** Modelled from the spec: two requests served concurrently (section 5).
    The schedule names, step by step, which of the two moves ([true] for
    the first). *)
Record Config := mkConfig {
  first : Thread;
  second : Thread;
  store : State;
}.

Definition sched_step (rq1 rq2 : Request) (c : Config) (pick : bool)
  : Config :=
  if pick
  then let '(t, st) := thread_step rq1 (first c) (store c) in
       mkConfig t (second c) st
  else let '(t, st) := thread_step rq2 (second c) (store c) in
       mkConfig (first c) t st.

Definition run_schedule (rq1 rq2 : Request) (sched : list bool)
  (c : Config) : Config :=
  fold_left (sched_step rq1 rq2) sched c.

Definition succeeded (t : Thread) : bool :=
  match t with
  | Done (inr _) => true
  | _ => false
  end.

Definition failed_with (e : Error) (t : Thread) : bool :=
  match t with
  | Done (inl e') => bool_decide (e' = e)
  | _ => false
  end.

(** Modelled from the spec: sequential histories, in which bookings are
    created and transition requests are served one after the other. *)
Inductive Op :=
| Create (now : Z) (creator : Actor)
| Transit (rq : Request).

Definition op_now (op : Op) : Z :=
  match op with
  | Create now _ => now
  | Transit rq => req_now rq
  end.

Definition exec (st : State) (op : Op) : State :=
  match op with
  | Create now creator => snd (create_booking now creator st)
  | Transit rq => snd (transition rq st)
  end.

Definition run (ops : list Op) (st : State) : State :=
  fold_left exec ops st.

(** How far along the workflow a status is.  [submitted] and
    [pending_verification] count as one stage. *)
Definition rank (s : Status) : nat :=
  match s with
  | draft => 0
  | submitted | pending_verification => 1
  | account_verified => 2
  | admin_verified => 3
  | billed => 4
  | paid => 5
  end.

(** The timestamps a booking carries, in workflow order. *)
Definition timeline (b : Booking) : list Z :=
  created_at b
  :: option_list (submitted_at b)
  ++ option_list (account_verified_at b)
  ++ option_list (admin_verified_at b).

(** The timestamp invariant of section 3: a timestamp is populated
    exactly when the booking has passed the corresponding state, and the
    populated ones are non-decreasing in workflow order. *)
Definition well_stamped (b : Booking) : Prop :=
  (is_Some (submitted_at b) <-> (1 <= rank (status b))%nat)
  /\ (is_Some (account_verified_at b) <-> (2 <= rank (status b))%nat)
  /\ (is_Some (admin_verified_at b) <-> (3 <= rank (status b))%nat)
  /\ StronglySorted Z.le (timeline b).

#[export] Instance well_stamped_dec (b : Booking) : Decision (well_stamped b).
Proof. unfold well_stamped. apply _. Defined.

(** The first half of the invariant on its own. *)
Definition populated (b : Booking) : Prop :=
  (is_Some (submitted_at b) <-> (1 <= rank (status b))%nat)
  /\ (is_Some (account_verified_at b) <-> (2 <= rank (status b))%nat)
  /\ (is_Some (admin_verified_at b) <-> (3 <= rank (status b))%nat).

(** The statuses on the path of the transition table. *)
Definition on_path (s : Status) : bool :=
  match s with
  | draft | pending_verification | account_verified | admin_verified => true
  | submitted | billed | paid => false
  end.

(** Booking [id] has passed through status [s] in the history [ops]: it
    was in that status after some prefix of the history. *)
Definition passed_through (ops : list Op) (id : nat) (s : Status) : Prop :=
  exists k : nat,
    status <$> bookings (run (take k ops) initial) !! id = Some s.

(** What a history has led a booking through: the statuses of the path
    up to its present one, and nothing for an id that is not stored. *)
Definition path_so_far (ops : list Op) : Prop :=
  forall id : nat,
    match bookings (run ops initial) !! id with
    | Some b =>
        forall s, passed_through ops id s
                  <-> on_path s = true /\ (rank s <= rank (status b))%nat
    | None => forall s, ~ passed_through ops id s
    end.

(** The audit entries that record a transition of booking [id]. *)
Definition entries_of (id : nat) (log : list AuditLogEntry)
  : list AuditLogEntry :=
  List.filter (fun e => Nat.eqb (entity_id e) id) log.

(** Every transition a stored booking has gone through is on the log. *)
Definition audited (st : State) : Prop :=
  forall (id : nat) (b : Booking),
    bookings st !! id = Some b ->
    rank (status b) = List.length (entries_of id (audit_log st)).

(** Booking ids and logged ids lie below the next unused id. *)
Definition ids_fresh (st : State) : Prop :=
  (forall (id : nat) (b : Booking),
      bookings st !! id = Some b -> (id < next_id st)%nat)
  /\ Forall (fun e => (entity_id e < next_id st)%nat) (audit_log st).

(** Every stored booking satisfies the timestamp invariant, and none of
    its timestamps is later than the clock reading [clk]. *)
Definition stamped_until (clk : Z) (st : State) : Prop :=
  forall (id : nat) (b : Booking),
    bookings st !! id = Some b ->
    well_stamped b /\ Forall (fun t => t <= clk) (timeline b).

(** The number of steps a request still has to take, at most. *)
Definition steps_left (t : Thread) : nat :=
  match t with
  | Ready => 4
  | Loaded _ => 3
  | Saved _ _ => 2
  | Failing _ => 1
  | Done _ => 0
  end.

(** How often a schedule lets a request move. *)
Definition turns (who : bool) (sched : list bool) : nat :=
  count_occ Bool.bool_dec sched who.

(** A request that has not written yet and has not succeeded: it has
    still to load, has loaded the booking [b0], or has failed with a
    rejection or with a failure of its own audit write. *)
Definition standing_by (b0 : Booking) (rq : Request) (t : Thread) : Prop :=
  t = Ready \/ t = Loaded b0
  \/ t = Done (inl InvalidTransition)
  \/ (t = Done (inl AuditFailure) /\ req_audit_ok rq = false).

(** A request that holds the booking: it has made the update and waits
    for the audit write, or is about to roll the update back after a
    failed audit write, with the log as it was; or it has succeeded, with
    one more entry on the log. *)
Definition holding (b0 : Booking) (log0 : list AuditLogEntry)
  (rq : Request) (t : Thread) (st : State) : Prop :=
  let b' := stamp (req_action rq) (req_now rq) b0 in
  bookings st !! req_id rq = Some b'
  /\ ((t = Saved b0 b' /\ audit_log st = log0)
      \/ (t = Failing b0 /\ req_audit_ok rq = false /\ audit_log st = log0)
      \/ (t = Done (inr b')
          /\ audit_log st
             = log0 ++ [mkEntry (req_now rq) (req_actor rq) (req_action rq)
                          (req_id rq)])).

(** What holds while two requests for the same transition race for the
    booking [b0], stored under their id in the From state: either the
    booking is as it was, the log is as it was and both requests stand
    by, one of them rejected only if the other has failed on its audit
    write; or one request holds the booking and the other stands by. *)
Definition race_invariant (b0 : Booking) (log0 : list AuditLogEntry)
  (rq1 rq2 : Request) (c : Config) : Prop :=
  (bookings (store c) !! req_id rq1 = Some b0
   /\ audit_log (store c) = log0
   /\ standing_by b0 rq1 (first c)
   /\ standing_by b0 rq2 (second c)
   /\ (first c = Done (inl InvalidTransition) ->
       second c = Done (inl AuditFailure))
   /\ (second c = Done (inl InvalidTransition) ->
       first c = Done (inl AuditFailure)))
  \/ (holding b0 log0 rq1 (first c) (store c)
      /\ standing_by b0 rq2 (second c))
  \/ (holding b0 log0 rq2 (second c) (store c)
      /\ standing_by b0 rq1 (first c)).

End Workflow.

(** ** The pages in front of the service *)

Module Front.
Import Pages.

(** A signed-in user of the given role, as the guards see it. *)
Definition page_user (r : Workflow.Role) : option User :=
  Some (mkUser "" (Workflow.role_name r)).

(** A fetched booking in the given status, as the guards see it. *)
Definition page_booking (s : Workflow.Status) : option Booking :=
  Some (mkBooking "" (Workflow.status_name s) None None None None).

(** Whether the detail page renders the button of an action. *)
Definition offered (a : Workflow.Action) (user : option User)
  (booking : option Booking) : bool :=
  match a with
  | Workflow.submit => showSubmit user booking
  | Workflow.verify_account => showAccountVerify user booking
  | Workflow.verify_admin => showAdminVerify user booking
  end.

End Front.

(** ** Text operations of the display code *)

Module Text.

Definition is_lower (c : ascii) : bool :=
  let n := Ascii.nat_of_ascii c in ((97 <=? n) && (n <=? 122))%nat.

Definition is_upper (c : ascii) : bool :=
  let n := Ascii.nat_of_ascii c in ((65 <=? n) && (n <=? 90))%nat.

Definition is_digit (c : ascii) : bool :=
  let n := Ascii.nat_of_ascii c in ((48 <=? n) && (n <=? 57))%nat.

(** The class [\w] of a regular expression without the unicode flag. *)
Definition is_word (c : ascii) : bool :=
  is_lower c || is_upper c || is_digit c || Ascii.eqb c "_".

(** [l.toUpperCase()] on a single character matched by [\w]. *)
Definition upper (c : ascii) : ascii :=
  if is_lower c then Ascii.ascii_of_nat (Ascii.nat_of_ascii c - 32) else c.

Definition lower (c : ascii) : ascii :=
  if is_upper c then Ascii.ascii_of_nat (Ascii.nat_of_ascii c + 32) else c.

Fixpoint map_chars (f : ascii -> ascii) (s : string) : string :=
  match s with
  | EmptyString => EmptyString
  | String c rest => String (f c) (map_chars f rest)
  end.

(** [s.replace(/_/g, ' ')] *)
Definition underscoresToSpaces (s : string) : string :=
  map_chars (fun c => if Ascii.eqb c "_" then " "%char else c) s.

(** [s.replace('_', ' ')]: a string pattern replaces the first occurrence
    only. *)
Fixpoint firstUnderscoreToSpace (s : string) : string :=
  match s with
  | EmptyString => EmptyString
  | String c rest =>
      if Ascii.eqb c "_" then String " " rest
      else String c (firstUnderscoreToSpace rest)
  end.

(** [s.replace(/\b\w/g, (l) => l.toUpperCase())]: a word character is
    replaced when the character before it, if any, is not a word
    character.  [inside] tells whether the previous character was one. *)
Fixpoint capitalizeWords (inside : bool) (s : string) : string :=
  match s with
  | EmptyString => EmptyString
  | String c rest =>
      String (if is_word c && negb inside then upper c else c)
        (capitalizeWords (is_word c) rest)
  end.

(** [s.startsWith(p)] *)
Definition startsWith (s p : string) : bool := String.prefix p s.

Fixpoint count_char (x : ascii) (s : string) : nat :=
  match s with
  | EmptyString => 0
  | String c rest => (if Ascii.eqb c x then 1 else 0) + count_char x rest
  end.

(** Strings made of lower-case letters, digits and underscores, the
    shape of every status and role name. *)
Fixpoint snake (s : string) : bool :=
  match s with
  | EmptyString => true
  | String c rest =>
      (is_lower c || is_digit c || Ascii.eqb c "_") && snake rest
  end.

End Text.

(** ** utils/helpers, the display helpers *)

Module Display.
Import JS Text.

(** The object literal of [getStatusColor]. *)
Definition statusColors : list (string * string) :=
  [ ("draft", "bg-slate-100 text-slate-700");
    ("submitted", "bg-blue-100 text-blue-700");
    ("pending_verification", "bg-yellow-100 text-yellow-700");
    ("account_verified", "bg-purple-100 text-purple-700");
    ("admin_verified", "bg-green-100 text-green-700");
    ("billed", "bg-teal-100 text-teal-700");
    ("paid", "bg-emerald-100 text-emerald-700") ].

Definition fallbackColor : string := "bg-gray-100 text-gray-700".

(** The members every object literal inherits from [Object.prototype]; a
    read of one of these keys yields a function (or, for [__proto__], the
    prototype object), which is truthy and not a string. *)
Definition Object_prototype : list string :=
  [ "constructor"; "hasOwnProperty"; "isPrototypeOf";
    "propertyIsEnumerable"; "toLocaleString"; "toString"; "valueOf";
    "__defineGetter__"; "__defineSetter__"; "__lookupGetter__";
    "__lookupSetter__"; "__proto__" ].

(** What [getStatusColor] returns: a class string, or the inherited
    member read under the given key. *)
Inductive color :=
| Class (c : string)
| Member (key : string).

(** [[
    export const getStatusColor = (status) => {
      const statusColors = { draft: ..., ..., paid: ... };
      return statusColors[status] || 'bg-gray-100 text-gray-700';
    };
    ]]
    The key of the read is the string form of [status]; the conversion
    throws for an object that has a [toString] property of its own. *)
Definition getStatusColor (status : value) : completion color :=
  key ← to_string status;
  Normal
    match List.find (fun kv => String.eqb (fst kv) key) statusColors with
    | Some kv =>
        if negb (String.eqb (snd kv) "") then Class (snd kv)
        else Class fallbackColor
    | None =>
        if existsb (String.eqb key) Object_prototype then Member key
        else Class fallbackColor
    end.

(** The values of [BOOKING_STATUS], in the order of utils/constants. *)
Definition all_statuses : list string :=
  [ BOOKING_STATUS.DRAFT; BOOKING_STATUS.SUBMITTED;
    BOOKING_STATUS.PENDING_VERIFICATION; BOOKING_STATUS.ACCOUNT_VERIFIED;
    BOOKING_STATUS.ADMIN_VERIFIED; BOOKING_STATUS.BILLED;
    BOOKING_STATUS.PAID ].

(** The string part of [getStatusLabel]. *)
Definition labelOf (s : string) : string :=
  capitalizeWords false (underscoresToSpaces s).

(** [[
    export const getStatusLabel = (status) => {
      if (!status) return 'Unknown';
      return status.replace(/_/g, ' ')
                   .replace(/\b\w/g, (l) => l.toUpperCase());
    };
    ]]
    A truthy value that is not a string has no [replace] method, and the
    call throws. *)
Definition getStatusLabel (status : value) : completion string :=
  if negb (truthy status) then Normal "Unknown"
  else
    match status with
    | VString s => Normal (labelOf s)
    | _ => Throw TypeError
    end.

(** The inverse used to state that labels tell statuses apart. *)
Definition unlabel (s : string) : string :=
  map_chars (fun c => if Ascii.eqb c " " then "_"%char else lower c) s.

Section Currency.

(** [new Intl.NumberFormat('en-US', {style: 'currency', currency:
    'USD'}).format], a built-in. *)
Variable format : value -> string.

(** [[
    export const formatCurrency = (amount) => {
      if (amount === null || amount === undefined) return '$0.00';
      return new Intl.NumberFormat(...).format(amount);
    };
    ]] *)
Definition formatCurrency (amount : value) : string :=
  match amount with
  | VNull | VUndefined => "$0.00"
  | _ => format amount
  end.

End Currency.

(** [v?.k] *)
Definition get_opt (v : value) (k : string) : value :=
  match v with
  | VUndefined | VNull => VUndefined
  | VObject props => lookup_prop k props
  | _ => VUndefined
  end.

(** [BookingDetailPage]:
    [[
    const totalPaid = calculateTotalPaid(booking?.installments);
    const balance = calculateBalance(booking?.sale_price,
                                     booking?.installments);
    ]] *)
Definition detailTotals (booking : value) : completion (value * value) :=
  totalPaid ← Helpers.calculateTotalPaid (get_opt booking "installments");
  balance ← Helpers.calculateBalance (get_opt booking "sale_price")
              (get_opt booking "installments");
  Normal (totalPaid, balance).

(** [ReportsPage]:
    [[
    const totalOutstanding =
      outstandingBalance.reduce((sum, item) => sum + item.balance, 0);
    ]]
    A value that is not an array has no [reduce], and the call throws. *)
Definition totalOutstanding (outstandingBalance : value)
  : completion value :=
  match outstandingBalance with
  | VArray items =>
      reduce (fun sum item => balance ← get item "balance"; add sum balance)
        items zero
  | _ => Throw TypeError
  end.

(** The balance of a report row that carries a number. *)
Definition row_balance (item : value) : option number :=
  match item with
  | VObject props =>
      match lookup_prop "balance" props with
      | VNumber n => Some n
      | _ => None
      end
  | _ => None
  end.

(** [DashboardPage], the counters of the first three stat cards:
    [[
    value: stats?.total_bookings || 0
    value: stats?.pending_verification || 0
    value: (stats?.account_verified || 0) + (stats?.admin_verified || 0)
    ]] *)
Definition totalBookingsCard (stats : value) : value :=
  or_else (get_opt stats "total_bookings") zero.

Definition pendingCard (stats : value) : value :=
  or_else (get_opt stats "pending_verification") zero.

Definition verifiedCard (stats : value) : completion value :=
  add (or_else (get_opt stats "account_verified") zero)
      (or_else (get_opt stats "admin_verified") zero).

(** A counter field that is absent, [null], [undefined] or a number, as
    the number [field || 0] puts in its place. *)
Definition count_field (stats : value) (k : string) : option number :=
  match get_opt stats k with
  | VUndefined | VNull => Some PrimFloat.zero
  | VNumber n => Some (if truthy (VNumber n) then n else PrimFloat.zero)
  | _ => None
  end.

End Display.

(** ** DashboardLayout: the active entry and the header title *)

Module Layout.
Import Pages Text.

(** [[
    const isActive = location.pathname === item.href
                  || location.pathname.startsWith(item.href + '/');
    ]] *)
Definition isActive (pathname : string) (item : NavItem) : bool :=
  String.eqb pathname (href item)
  || startsWith pathname (href item +:+ "/").

(** [[
    {filteredNavigation.find((item) =>
        location.pathname.startsWith(item.href))?.name || 'Dashboard'}
    ]] *)
Definition headerTitle (filteredNavigation : list NavItem)
  (pathname : string) : string :=
  match List.find (fun item => startsWith pathname (href item))
          filteredNavigation with
  | Some item =>
      if String.eqb (item_name item) "" then "Dashboard"
      else item_name item
  | None => "Dashboard"
  end.

(** [[
    {user?.role.replace('_', ' ')
               .replace(/\b\w/g, (l) => l.toUpperCase())}
    ]]
    on the role string (also used by the users and activity-log
    tables). *)
Definition roleLabel (role : string) : string :=
  capitalizeWords false (firstUnderscoreToSpace role).

End Layout.

(** ** The buttons and links that lead to guarded pages *)

Module Links.
Import Pages.

(** [BookingsListPage]:
    [{(user?.role === 'agent1' || user?.role === 'admin') && (<Link
    to="/bookings/create">] *)
Definition showCreateButton (user : option User) : bool :=
  strictEq (role <$> user) "agent1" || strictEq (role <$> user) "admin".

(** [DashboardPage]:
    [{user?.role === 'agent1' && (<a href="/bookings/create"]  *)
Definition showCreateQuickAction (user : option User) : bool :=
  strictEq (role <$> user) "agent1".

(** [DashboardPage]:
    [{(user?.role === 'account' || user?.role === 'admin') && (<a
    href="/reports"] *)
Definition showReportsQuickAction (user : option User) : bool :=
  strictEq (role <$> user) "account" || strictEq (role <$> user) "admin".

(** Whether the route registered under [p] in [App] lists role [r]; a
    route without [allowedRoles] lists every role, and a path that is not
    registered lists none. *)
Definition routeLists (p : string) (r : string) : bool :=
  match find (fun rt => String.eqb (path rt) p) routes with
  | Some rt =>
      match allowedRoles rt with
      | Some roles => includes roles r
      | None => true
      end
  | None => false
  end.

End Links.

(** ** pages/CreateBookingPage: the form handlers *)

Module BookingForm.
Import CreateBookingPage.

(** The initial state of the form. *)
Definition blankLeg : TravelLeg.t := TravelLeg.mk "" "" "" "".

Definition initialForm : FormData.t :=
  FormData.mk "" "" "" "" "" "" "" ""
    SECTOR_TYPES.ONE_WAY PAYMENT_TYPES.FULL_PAYMENT [blankLeg] "" [].

(** The string-valued keys of the form state. *)
Inductive Field :=
| pax_name | contact_person | contact_number | pnr | airline
| supplier_id | our_cost | sale_price | sector_type | payment_type
| note.

(** [{ ...prev, [name]: value }] for a string-valued key. *)
Definition setField (name : Field) (value : string) (prev : FormData.t)
  : FormData.t :=
  let '(FormData.mk a b c d e f g h i j legs k inst) := prev in
  match name with
  | pax_name => FormData.mk value b c d e f g h i j legs k inst
  | contact_person => FormData.mk a value c d e f g h i j legs k inst
  | contact_number => FormData.mk a b value d e f g h i j legs k inst
  | pnr => FormData.mk a b c value e f g h i j legs k inst
  | airline => FormData.mk a b c d value f g h i j legs k inst
  | supplier_id => FormData.mk a b c d e value g h i j legs k inst
  | our_cost => FormData.mk a b c d e f value h i j legs k inst
  | sale_price => FormData.mk a b c d e f g value i j legs k inst
  | sector_type => FormData.mk a b c d e f g h value j legs k inst
  | payment_type => FormData.mk a b c d e f g h i value legs k inst
  | note => FormData.mk a b c d e f g h i j legs value inst
  end.

(** [[
    const handleInputChange = (e) => {
      const { name, value } = e.target;
      setFormData(prev => ({ ...prev, [name]: value }));
    };
    ]] *)
Definition handleInputChange (name : Field) (value : string)
  (prev : FormData.t) : FormData.t :=
  setField name value prev.

(** The inputs that are bound to [handleInputChange], by their [name]
    attribute. *)
Definition boundInput (name : Field) : bool :=
  match name with
  | pax_name | contact_person | contact_number | pnr | note | airline
  | our_cost | sale_price => true
  | supplier_id | sector_type | payment_type => false
  end.

(** The keys of a travel leg. *)
Inductive LegField :=
| travel_date | from_location | to_location | return_date.

Definition setLegField (field : LegField) (value : string)
  (leg : TravelLeg.t) : TravelLeg.t :=
  let '(TravelLeg.mk d f t r) := leg in
  match field with
  | travel_date => TravelLeg.mk value f t r
  | from_location => TravelLeg.mk d value t r
  | to_location => TravelLeg.mk d f value r
  | return_date => TravelLeg.mk d f t value
  end.

Definition getLegField (field : LegField) (leg : TravelLeg.t) : string :=
  match field with
  | travel_date => TravelLeg.travel_date leg
  | from_location => TravelLeg.from_location leg
  | to_location => TravelLeg.to_location leg
  | return_date => TravelLeg.return_date leg
  end.

Definition withLegs (legs : list TravelLeg.t) (prev : FormData.t)
  : FormData.t :=
  let '(FormData.mk a b c d e f g h i j _ k inst) := prev in
  FormData.mk a b c d e f g h i j legs k inst.

(** [[
    const handleLegChange = (index, field, value) => {
      const newLegs = [...formData.travel_legs];
      newLegs[index][field] = value;
      setFormData(prev => ({ ...prev, travel_legs: newLegs }));
    };
    ]]
    with the form re-rendered between two events, so that [formData] is
    the previous state.  Writing a property of [newLegs[index]] throws
    when the index is out of range. *)
Definition handleLegChange (index : nat) (field : LegField)
  (value : string) (formData : FormData.t) : JS.completion FormData.t :=
  match FormData.travel_legs formData !! index with
  | Some leg =>
      JS.Normal
        (withLegs (<[index := setLegField field value leg]>
                     (FormData.travel_legs formData)) formData)
  | None => JS.Throw JS.TypeError
  end.

(** [[
    const addTravelLeg = () => {
      setFormData(prev => ({
        ...prev,
        travel_legs: [...prev.travel_legs,
          { travel_date: '', from_location: '', to_location: '',
            return_date: '' }]
      }));
    };
    ]] *)
Definition addTravelLeg (prev : FormData.t) : FormData.t :=
  withLegs (FormData.travel_legs prev ++ [blankLeg]) prev.

(** What the user can do to the form. *)
Inductive Event :=
| Input (name : Field) (value : string)
| SelectSector (value : string)
| SelectSupplier (value : string)
| LegInput (index : nat) (field : LegField) (value : string)
| AddLeg.

Section Dispatch.

(** The built-in [String.prototype.toUpperCase]. *)
Variable toUpperCase : string -> string.

(** One event on the rendered form; [None] when the form does not render
    the control: an input that is not bound to [handleInputChange], a
    sector that is not one of the three radio items, a leg input beyond
    the rendered legs, the return date outside a round trip, the add-leg
    button outside a multiple-sector booking. *)
Definition dispatch (ev : Event) (formData : FormData.t)
  : option FormData.t :=
  match ev with
  | Input name value =>
      if boundInput name then Some (handleInputChange name value formData)
      else None
  | SelectSector value =>
      if String.eqb value SECTOR_TYPES.ONE_WAY
         || String.eqb value SECTOR_TYPES.ROUND_TRIP
         || String.eqb value SECTOR_TYPES.MULTIPLE
      then Some (setField sector_type value formData)
      else None
  | SelectSupplier value => Some (setField supplier_id value formData)
  | LegInput index field value =>
      let shown :=
        match field with
        | return_date =>
            String.eqb (FormData.sector_type formData)
              SECTOR_TYPES.ROUND_TRIP
        | _ => true
        end in
      let typed :=
        match field with
        | from_location | to_location => toUpperCase value
        | _ => value
        end in
      if shown
      then match handleLegChange index field typed formData with
           | JS.Normal next => Some next
           | JS.Throw _ => None
           end
      else None
  | AddLeg =>
      if String.eqb (FormData.sector_type formData) SECTOR_TYPES.MULTIPLE
      then Some (addTravelLeg formData)
      else None
  end.

(** A session: the events are dispatched in order from the initial
    form. *)
Fixpoint session (events : list Event) (formData : FormData.t)
  : option FormData.t :=
  match events with
  | [] => Some formData
  | ev :: rest =>
      match dispatch ev formData with
      | Some next => session rest next
      | None => None
      end
  end.

End Dispatch.

Definition is_AddLeg (ev : Event) : bool :=
  match ev with
  | AddLeg => true
  | _ => false
  end.

End BookingForm.

(** * Properties *)

(** ** Binary64 arithmetic

    Facts about the Standard Library's specification of the format that
    the properties below rest on: rounding is exact on representable
    values, never yields [NaN], and keeps the sign. *)

Module IEEE.
Import JS.

Lemma iter_pos_nat {A} (f : A -> A) (p : positive) :
  forall x, iter_pos f p x = Nat.iter (Pos.to_nat p) f x.
Proof.
  induction p as [p IH|p IH|]; intros x; cbn [iter_pos].
  - rewrite !IH, Pos2Nat.inj_xI.
    replace (S (2 * Pos.to_nat p)) with (Pos.to_nat p + (Pos.to_nat p + 1))%nat
      by lia.
    rewrite !Nat.iter_add. reflexivity.
  - rewrite !IH, Pos2Nat.inj_xO.
    replace (2 * Pos.to_nat p)%nat with (Pos.to_nat p + Pos.to_nat p)%nat
      by lia.
    by rewrite Nat.iter_add.
  - reflexivity.
Qed.

Lemma shr_1_spec (m : Z) (r s : bool) :
  0 <= m ->
  shr_1 (Build_shr_record m r s)
  = Build_shr_record (m / 2) (Z.odd m) (r || s).
Proof.
  intros Hm. destruct m as [|p|p]; [done| |lia].
  destruct p as [p|p|]; cbn [shr_1]; [| |reflexivity].
  - assert (H : Z.pos p~1 / 2 = Z.pos p).
    { symmetry. apply (Z.div_unique _ _ _ 1); lia. }
    by rewrite H.
  - assert (H : Z.pos p~0 / 2 = Z.pos p).
    { symmetry. apply (Z.div_unique _ _ _ 0); lia. }
    by rewrite H.
Qed.

(** [k] right shifts of a mantissa whose [k] low bits are zero lose
    nothing. *)
Lemma shr_exact (k : nat) :
  forall a : Z,
    0 <= a ->
    Nat.iter k shr_1 (Build_shr_record (a * 2 ^ Z.of_nat k) false false)
    = Build_shr_record a false false.
Proof.
  induction k as [|k IH]; intros a Ha.
  - cbn. by rewrite Z.mul_1_r.
  - rewrite Nat.iter_succ_r, shr_1_spec by lia.
    rewrite Nat2Z.inj_succ, Z.pow_succ_r by lia.
    replace (a * (2 * 2 ^ Z.of_nat k)) with ((a * 2 ^ Z.of_nat k) * 2) by lia.
    rewrite Z.div_mul by lia. rewrite Z.odd_mul. cbn.
    rewrite andb_false_r. by apply IH.
Qed.

Lemma shr_exact_Z (k a : Z) :
  0 <= k -> 0 <= a ->
  Nat.iter (Z.to_nat k) shr_1 (Build_shr_record (a * 2 ^ k) false false)
  = Build_shr_record a false false.
Proof.
  intros Hk Ha. rewrite <- (Z2Nat.id k) at 2 by done. by apply shr_exact.
Qed.

Lemma shr_m_nonneg (k : nat) :
  forall mrs, 0 <= shr_m mrs ->
    shr_m (Nat.iter k shr_1 mrs) = shr_m mrs / 2 ^ Z.of_nat k.
Proof.
  induction k as [|k IH]; intros [m r s] Hm; cbn [shr_m] in *.
  - cbn. by rewrite Z.div_1_r.
  - rewrite Nat.iter_succ_r, shr_1_spec by lia.
    rewrite IH by (cbn; apply Z.div_pos; lia). cbn [shr_m].
    rewrite Nat2Z.inj_succ, Z.pow_succ_r by lia.
    by rewrite Z.div_div by lia.
Qed.

Lemma digits2_log2 (p : positive) :
  Zpos (digits2_pos p) = Z.log2 (Zpos p) + 1.
Proof.
  induction p as [p IH|p IH|]; cbn [digits2_pos]; [| |reflexivity].
  - rewrite Pos2Z.inj_succ, IH. cbn [Z.log2].
    destruct p; cbn; lia.
  - rewrite Pos2Z.inj_succ, IH. cbn [Z.log2].
    destruct p; cbn; lia.
Qed.


Lemma fexp64 (z : Z) : fexp prec emax z = Z.max (z - 53) (-1074).
Proof. reflexivity. Qed.

Lemma Zdigits2_log2 (m : Z) : 0 < m -> Zdigits2 m = Z.log2 m + 1.
Proof. destruct m as [|p|p]; try lia. intros _. apply digits2_log2. Qed.

Lemma shr_spec (mrs : shr_record) (e n : Z) :
  shr mrs e n
  = if 0 <? n then (Nat.iter (Z.to_nat n) shr_1 mrs, e + n) else (mrs, e).
Proof.
  destruct n as [|p|p]; cbn [shr]; [done| |done].
  rewrite iter_pos_nat. by rewrite Z2Nat.inj_pos.
Qed.

Lemma iter_xO_pos (m d : positive) :
  Pos.iter xO m d = (m * 2 ^ d)%positive.
Proof.
  induction d as [|d IH] using Pos.peano_ind.
  - cbn. lia.
  - rewrite Pos.iter_succ, IH, Pos.pow_succ_r. lia.
Qed.

Lemma iter_xO (m d : positive) :
  Zpos (Pos.iter xO m d) = Zpos m * 2 ^ Zpos d.
Proof. by rewrite iter_xO_pos, Pos2Z.inj_mul, Pos2Z.inj_pow. Qed.

Lemma bounded_spec (n : positive) (t : Z) :
  bounded prec emax n t = true
  <-> Z.max (Z.log2 (Zpos n) + 1 + t - 53) (-1074) = t /\ t <= 971.
Proof.
  unfold bounded, canonical_mantissa. rewrite andb_true_iff, Z.eqb_eq, Z.leb_le.
  rewrite fexp64, digits2_log2. reflexivity.
Qed.

(** Rounding a mantissa that is already in canonical form is the
    identity. *)
Lemma binary_round_aux_canonical (s : bool) (n : positive) (t : Z) :
  bounded prec emax n t = true ->
  binary_round_aux prec emax s (Zpos n) t loc_Exact = S754_finite s n t.
Proof.
  intros Hb. pose proof Hb as [Hc Ht]%bounded_spec.
  unfold binary_round_aux.
  assert (Hshr : shr_fexp prec emax (Zpos n) t loc_Exact
                 = (Build_shr_record (Zpos n) false false, t)).
  { unfold shr_fexp. rewrite shr_spec, fexp64, Zdigits2_log2 by lia.
    rewrite Hc, Z.sub_diag. reflexivity. }
  rewrite Hshr. cbn [shr_m loc_of_shr_record round_nearest_even].
  rewrite Hshr. cbn [shr_m].
  destruct (Z.leb_spec t (emax - prec)) as [_|H]; [done|].
  change (emax - prec) with 971 in H. lia.
Qed.

(** A mantissa and exponent that denote the same number as a canonical
    pair round to that pair: no rounding takes place. *)
Lemma binary_round_exact (s : bool) (m n : positive) (e t : Z) :
  bounded prec emax n t = true ->
  Zpos m * 2 ^ (e - Z.min e t) = Zpos n * 2 ^ (t - Z.min e t) ->
  binary_round prec emax s m e = S754_finite s n t.
Proof.
  intros Hb Hval. pose proof Hb as [Hc Ht]%bounded_spec.
  assert (Hdig : Z.log2 (Zpos m) + e = Z.log2 (Zpos n) + t).
  { apply (f_equal Z.log2) in Hval.
    rewrite !Z.log2_mul_pow2 in Hval by lia. lia. }
  unfold binary_round. rewrite fexp64, digits2_log2.
  replace (Z.log2 (Z.pos m) + 1 + e - 53)
    with (Z.log2 (Z.pos n) + 1 + t - 53) by lia.
  rewrite Hc. unfold shl_align.
  destruct (t - e) as [|d|d] eqn:Hd.
  - assert (e = t) by lia. subst e.
    rewrite Z.min_id, Z.sub_diag in Hval. cbn in Hval.
    assert (m = n) by lia. subst m.
    by apply binary_round_aux_canonical.
  - rewrite Z.min_l in Hval by lia. rewrite Z.sub_diag in Hval.
    replace (t - e) with (Zpos d) in Hval. cbn [Z.pow] in Hval.
    rewrite Z.mul_1_r in Hval.
    unfold binary_round_aux.
    assert (Hshr : shr_fexp prec emax (Zpos m) e loc_Exact
                   = (Build_shr_record (Zpos n) false false, t)).
    { unfold shr_fexp. rewrite shr_spec, fexp64, Zdigits2_log2 by lia.
      replace (Z.log2 (Z.pos m) + 1 + e - 53)
        with (Z.log2 (Z.pos n) + 1 + t - 53) by lia.
      rewrite Hc, Hd. cbn [Z.ltb Z.compare shr_record_of_loc].
      rewrite Hval, shr_exact_Z by lia. f_equal. lia. }
    rewrite Hshr. cbn [shr_m loc_of_shr_record round_nearest_even].
    assert (Hshr' : shr_fexp prec emax (Zpos n) t loc_Exact
                   = (Build_shr_record (Zpos n) false false, t)).
    { unfold shr_fexp. rewrite shr_spec, fexp64, Zdigits2_log2 by lia.
      rewrite Hc, Z.sub_diag. reflexivity. }
    rewrite Hshr'. cbn [shr_m].
    destruct (Z.leb_spec t (emax - prec)) as [_|H]; [done|].
    change (emax - prec) with 971 in H. lia.
  - rewrite Z.min_r in Hval by lia. rewrite Z.sub_diag in Hval.
    replace (e - t) with (Zpos d) in Hval by lia.
    rewrite Z.mul_1_r in Hval.
    assert (Pos.iter xO m d = n) as ->.
    { apply Pos2Z.inj. by rewrite iter_xO. }
    by apply binary_round_aux_canonical.
Qed.


(** *** The shape of a rounded result *)

Lemma div_pow2_nonneg (m k : Z) : 0 <= m -> 0 <= m / 2 ^ k.
Proof.
  intros Hm. destruct (Z.le_gt_cases 0 k) as [Hk|Hk].
  - apply Z.div_pos; [done|]. by apply Z.pow_pos_nonneg.
  - rewrite Z.pow_neg_r by done. by rewrite Z.div_0_r.
Qed.

Lemma shr_record_of_loc_m (m : Z) (l : location) :
  shr_m (shr_record_of_loc m l) = m.
Proof. by destruct l as [|[]]. Qed.

Lemma shr_fexp_m (m e : Z) (l : location) :
  0 <= m ->
  let k := fexp prec emax (Zdigits2 m + e) - e in
  shr_m (fst (shr_fexp prec emax m e l))
  = (if 0 <? k then m / 2 ^ k else m)
  /\ snd (shr_fexp prec emax m e l) = (if 0 <? k then e + k else e).
Proof.
  intros Hm k. unfold shr_fexp. fold k. clearbody k. rewrite shr_spec.
  destruct (Z.ltb_spec 0 k) as [Hk|Hk]; cbn [fst snd].
  - rewrite shr_m_nonneg by (rewrite shr_record_of_loc_m; lia).
    rewrite shr_record_of_loc_m, Z2Nat.id by lia. done.
  - by rewrite shr_record_of_loc_m.
Qed.

Lemma shr_fexp_nonneg (m e : Z) (l : location) :
  0 <= m -> 0 <= shr_m (fst (shr_fexp prec emax m e l)).
Proof.
  intros Hm. destruct (shr_fexp_m m e l Hm) as [-> _].
  destruct (0 <? fexp prec emax (Zdigits2 m + e) - e);
    [by apply div_pow2_nonneg | done].
Qed.

Lemma round_nearest_even_bounds (x : Z) (l : location) :
  x <= round_nearest_even x l <= x + 1.
Proof. destruct l as [|[]]; cbn; try lia. destruct (Z.even x); lia. Qed.

(** Rounding never produces [NaN]. *)
Lemma binary_round_aux_shape (s : bool) (m e : Z) (l : location) :
  0 <= m ->
  binary_round_aux prec emax s m e l = S754_zero s
  \/ binary_round_aux prec emax s m e l = S754_infinity s
  \/ exists m' e', binary_round_aux prec emax s m e l = S754_finite s m' e'.
Proof.
  intros Hm. unfold binary_round_aux.
  pose proof (shr_fexp_nonneg m e l Hm) as H1.
  destruct (shr_fexp prec emax m e l) as [mrs' e'] eqn:E1. cbn [fst] in H1.
  set (m1 := round_nearest_even (shr_m mrs') (loc_of_shr_record mrs')).
  assert (Hm1 : 0 <= m1).
  { pose proof (round_nearest_even_bounds (shr_m mrs')
                  (loc_of_shr_record mrs')) as Hb. fold m1 in Hb. lia. }
  pose proof (shr_fexp_nonneg m1 e' loc_Exact Hm1) as H2.
  destruct (shr_fexp prec emax m1 e' loc_Exact) as [mrs'' e''] eqn:E2.
  cbn [fst] in H2.
  destruct (shr_m mrs'') as [|p|p]; [by left | | lia].
  right. destruct (e'' <=? emax - prec); [right; by eexists _, _ | by left].
Qed.

Lemma shr_fexp_pos (m e : Z) (l : location) :
  0 < m -> -1074 <= e ->
  0 < shr_m (fst (shr_fexp prec emax m e l))
  /\ -1074 <= snd (shr_fexp prec emax m e l).
Proof.
  intros Hm He. destruct (shr_fexp_m m e l) as [H1 H2]; [lia|].
  rewrite H1, H2. rewrite fexp64, Zdigits2_log2 by done.
  destruct (Z.ltb_spec 0 (Z.max (Z.log2 m + 1 + e - 53) (-1074) - e))
    as [Hk|Hk]; [|done].
  split; [|lia].
  replace (Z.max (Z.log2 m + 1 + e - 53) (-1074) - e)
    with (Z.log2 m - 52) in * by lia.
  apply Z.lt_le_trans with (2 ^ 52); [done|].
  apply Z.div_le_lower_bound; [apply Z.pow_pos_nonneg; lia|].
  rewrite <- Z.pow_add_r by lia.
  replace (Z.log2 m - 52 + 52) with (Z.log2 m) by lia.
  by apply Z.log2_spec.
Qed.

(** Above the smallest exponent a non-zero mantissa never rounds to
    zero. *)
Lemma binary_round_aux_nonzero (s : bool) (m e : Z) (l : location) :
  0 < m -> -1074 <= e ->
  binary_round_aux prec emax s m e l = S754_infinity s
  \/ exists m' e', binary_round_aux prec emax s m e l = S754_finite s m' e'.
Proof.
  intros Hm He. unfold binary_round_aux.
  pose proof (shr_fexp_pos m e l Hm He) as [H1 H1'].
  destruct (shr_fexp prec emax m e l) as [mrs' e'] eqn:E1.
  cbn [fst snd] in H1, H1'.
  set (m1 := round_nearest_even (shr_m mrs') (loc_of_shr_record mrs')).
  assert (Hm1 : 0 < m1).
  { pose proof (round_nearest_even_bounds (shr_m mrs')
                  (loc_of_shr_record mrs')) as Hb. fold m1 in Hb. lia. }
  pose proof (shr_fexp_pos m1 e' loc_Exact Hm1 H1') as [H2 _].
  destruct (shr_fexp prec emax m1 e' loc_Exact) as [mrs'' e''] eqn:E2.
  cbn [fst] in H2.
  destruct (shr_m mrs'') as [|p|p]; [lia | | lia].
  destruct (e'' <=? emax - prec); [right; by eexists _, _ | by left].
Qed.

Lemma shl_align_spec (m : positive) (e ez : Z) :
  ez <= e ->
  Zpos (fst (shl_align m e ez)) = Zpos m * 2 ^ (e - ez)
  /\ snd (shl_align m e ez) = ez.
Proof.
  intros Hle. unfold shl_align. destruct (ez - e) as [|d|d] eqn:Hd.
  - assert (e = ez) by lia. subst. rewrite Z.sub_diag. cbn. lia.
  - lia.
  - cbn [fst snd]. rewrite iter_xO. split; [|done]. f_equal. f_equal. lia.
Qed.

Lemma binary_round_nonzero (s : bool) (m : positive) (e : Z) :
  -1074 <= e ->
  binary_round prec emax s m e = S754_infinity s
  \/ exists m' e', binary_round prec emax s m e = S754_finite s m' e'.
Proof.
  intros He. unfold binary_round.
  destruct (shl_align m e _) as [mz ez] eqn:E.
  apply binary_round_aux_nonzero; [done|].
  unfold shl_align in E. rewrite fexp64 in E.
  destruct (_ - e) as [|d|d]; injection E as <- <-; lia.
Qed.

Lemma binary_normalize_nonzero (M e : Z) :
  M <> 0 -> -1074 <= e ->
  binary_normalize prec emax M e false = S754_infinity (M <? 0)
  \/ exists m' e',
       binary_normalize prec emax M e false = S754_finite (M <? 0) m' e'.
Proof.
  intros HM He. destruct M as [|p|p]; [done| |];
    by apply binary_round_nonzero.
Qed.

(** *** Valid binary64 numbers *)

Lemma valid_finite (s : bool) (m : positive) (e : Z) :
  valid_binary (S754_finite s m e) = true ->
  -1074 <= e <= 971 /\ Zpos m < 2 ^ 53 /\ (-1074 < e -> 2 ^ 52 <= Zpos m).
Proof.
  cbn [SpecFloat.valid_binary]. intros [Hc Ht]%bounded_spec.
  pose proof (Z.log2_spec (Zpos m) ltac:(lia)) as [Hlo Hhi].
  split; [lia|]. split.
  - apply Z.log2_lt_pow2; lia.
  - intros He. replace (Z.log2 (Z.pos m)) with 52 in Hlo by lia. done.
Qed.


Lemma binary_round_not_nan (s : bool) (m : positive) (e : Z) :
  binary_round prec emax s m e <> S754_nan.
Proof.
  unfold binary_round. destruct (shl_align m e _) as [mz ez].
  destruct (binary_round_aux_shape s (Zpos mz) ez loc_Exact)
    as [-> | [-> | (m' & e' & ->)]]; done.
Qed.

Lemma binary_normalize_not_nan (M e : Z) (sz : bool) :
  binary_normalize prec emax M e sz <> S754_nan.
Proof. destruct M; [done | apply binary_round_not_nan ..]. Qed.

Lemma aligned_spec (s : bool) (m : positive) (e ez : Z) :
  ez <= e -> aligned s m e ez = cond_Zopp s (Zpos m * 2 ^ (e - ez)).
Proof.
  intros H. unfold aligned. by destruct (shl_align_spec m e ez H) as [-> _].
Qed.

Lemma SFadd_finite (sx sy : bool) (mx my : positive) (ex ey : Z) :
  SF64add (S754_finite sx mx ex) (S754_finite sy my ey)
  = binary_normalize prec emax
      (aligned sx mx ex (Z.min ex ey) + aligned sy my ey (Z.min ex ey))
      (Z.min ex ey) false.
Proof. reflexivity. Qed.

Lemma SFsub_finite (sx sy : bool) (mx my : positive) (ex ey : Z) :
  SF64sub (S754_finite sx mx ex) (S754_finite sy my ey)
  = binary_normalize prec emax
      (aligned sx mx ex (Z.min ex ey) - aligned sy my ey (Z.min ex ey))
      (Z.min ex ey) false.
Proof. reflexivity. Qed.

Lemma SFadd_nan (X Y : spec_float) :
  SF64add X Y = S754_nan ->
  X = S754_nan \/ Y = S754_nan
  \/ exists s, X = S754_infinity s /\ Y = S754_infinity (negb s).
Proof.
  destruct X as [sx|sx| |sx mx ex], Y as [sy|sy| |sy my ey];
    try (by left); try (by right; left); try discriminate.
  - by destruct sx, sy.
  - destruct sx, sy; try discriminate; intros _; right; right;
      [by exists true | by exists false].
  - rewrite SFadd_finite. intros H. by apply binary_normalize_not_nan in H.
Qed.

Lemma SFadd_neg_zero (X Y : spec_float) :
  valid_binary X = true -> valid_binary Y = true ->
  SF64add X Y = S754_zero true ->
  X = S754_zero true /\ Y = S754_zero true.
Proof.
  intros VX VY.
  destruct X as [sx|sx| |sx mx ex], Y as [sy|sy| |sy my ey];
    try discriminate.
  - by destruct sx, sy.
  - by destruct sx, sy.
  - rewrite SFadd_finite.
    apply valid_finite in VX as [? _], VY as [? _].
    set (M := _ + _).
    destruct (Z.eq_dec M 0) as [->|HM]; [discriminate|].
    destruct (binary_normalize_nonzero M (Z.min ex ey) HM ltac:(lia))
      as [-> | (m' & e' & ->)]; discriminate.
Qed.

(** *** Integers *)

Lemma ZtoSF_canonical (z : Z) :
  z <> 0 -> Z.abs z <= 2 ^ 53 ->
  exists (n : positive) (t : Z),
    bounded prec emax n t = true
    /\ -52 <= t <= 1
    /\ Z.abs z * 2 ^ 52 = Zpos n * 2 ^ (t + 52)
    /\ ZtoSF z = S754_finite (z <? 0) n t.
Proof.
  intros Hz Hle.
  assert (Hkey : exists (n : positive) (t : Z),
             bounded prec emax n t = true /\ -52 <= t <= 1
             /\ Z.abs z * 2 ^ 52 = Zpos n * 2 ^ (t + 52)).
  { destruct (Z.eq_dec (Z.abs z) (2 ^ 53)) as [Heq|Hne].
    - exists (Z.to_pos (2 ^ 52)), 1. rewrite Heq. split; [done|].
      split; [lia|]. reflexivity.
    - set (d := Z.log2 (Z.abs z)).
      pose proof (Z.log2_spec (Z.abs z) ltac:(lia)) as [Hlo Hhi]. fold d in Hlo, Hhi.
      assert (Hd : 0 <= d <= 52).
      { split; [apply Z.log2_nonneg|].
        assert (d < 53); [|lia]. apply Z.log2_lt_pow2; lia. }
      exists (Z.to_pos (Z.abs z * 2 ^ (52 - d))), (d - 52).
      assert (Hpos : 0 < Z.abs z * 2 ^ (52 - d)).
      { apply Z.mul_pos_pos; [lia|]. apply Z.pow_pos_nonneg; lia. }
      split; [|split; [lia|]].
      + apply bounded_spec. rewrite Z2Pos.id by done.
        rewrite Z.log2_mul_pow2 by lia. fold d. lia.
      + rewrite Z2Pos.id by done. replace (d - 52 + 52) with d by lia.
        rewrite <- Z.mul_assoc, <- Z.pow_add_r by lia.
        f_equal. f_equal. lia. }
  destruct Hkey as (n & t & Hb & Ht & Hval).
  exists n, t. split; [done|]. split; [done|]. split; [done|].
  assert (Hgen : forall (s : bool) (p : positive),
             Zpos p = Z.abs z ->
             binary_round prec emax s p 0 = S754_finite s n t).
  { intros s p Hp. apply binary_round_exact; [done|]. rewrite Hp.
    destruct (Z.le_gt_cases 0 t) as [H0|H0].
    - rewrite Z.min_l by done.
      replace (0 - 0) with 0 by lia. replace (t - 0) with t by lia.
      rewrite Z.mul_1_r.
      replace (t + 52) with (52 + t) in Hval by lia.
      rewrite Z.pow_add_r, Z.mul_assoc in Hval by lia.
      replace (Z.pos n * 2 ^ 52 * 2 ^ t) with (Z.pos n * 2 ^ t * 2 ^ 52)
        in Hval by lia.
      by apply Z.mul_cancel_r in Hval.
    - rewrite Z.min_r by lia.
      replace (t - t) with 0 by lia. rewrite Z.mul_1_r.
      replace 52 with ((0 - t) + (t + 52)) in Hval at 1 by lia.
      rewrite Z.pow_add_r, Z.mul_assoc in Hval by lia.
      apply Z.mul_cancel_r in Hval; [done|].
      apply Z.pow_nonzero; lia. }
  unfold ZtoSF. destruct z as [|p|p]; [done| |]; cbn [binary_normalize Z.ltb Z.compare];
    by apply Hgen.
Qed.

Lemma ZtoSF_valid (z : Z) :
  Z.abs z <= 2 ^ 53 -> valid_binary (ZtoSF z) = true.
Proof.
  intros Hle. destruct (Z.eq_dec z 0) as [->|Hz]; [done|].
  by destruct (ZtoSF_canonical z Hz Hle) as (n & t & Hb & _ & _ & ->).
Qed.


Lemma cond_Zopp_abs (z : Z) : cond_Zopp (z <? 0) (Z.abs z) = z.
Proof. destruct (Z.ltb_spec z 0); cbn; lia. Qed.

Lemma cond_Zopp_mul (s : bool) (a b : Z) :
  cond_Zopp s a * b = cond_Zopp s (a * b).
Proof. destruct s; cbn; lia. Qed.

(** An integer multiple of a power of two that denotes a safe integer
    normalizes to that integer. *)
Lemma normalize_exact (M ez z : Z) :
  -52 <= ez <= 1 ->
  M * 2 ^ (ez + 52) = z * 2 ^ 52 ->
  Z.abs z <= 2 ^ 53 ->
  binary_normalize prec emax M ez false = ZtoSF z.
Proof.
  intros Hez Hval Hle.
  assert (Hp : 0 < 2 ^ (ez + 52)) by (apply Z.pow_pos_nonneg; lia).
  destruct (Z.eq_dec z 0) as [->|Hz].
  { assert (M = 0) by nia. by subst M. }
  destruct (ZtoSF_canonical z Hz Hle) as (n & t & Hb & Ht & Hn & ->).
  assert (Hsign : (M <? 0) = (z <? 0)).
  { destruct (Z.ltb_spec M 0), (Z.ltb_spec z 0); try done; nia. }
  assert (HM : Z.abs M * 2 ^ (ez + 52) = Zpos n * 2 ^ (t + 52)).
  { rewrite <- Hn. nia. }
  assert (Hgen : forall (s : bool) (p : positive),
             Zpos p = Z.abs M ->
             binary_round prec emax s p ez = S754_finite s n t).
  { intros s p Hp'. apply binary_round_exact; [done|]. rewrite Hp'.
    set (c := Z.min ez t).
    assert (Hc : c <= ez /\ c <= t /\ -52 <= c) by lia. clearbody c.
    replace (ez + 52) with ((ez - c) + (c + 52)) in HM by lia.
    replace (t + 52) with ((t - c) + (c + 52)) in HM by lia.
    rewrite (Z.pow_add_r 2 (ez - c)), (Z.pow_add_r 2 (t - c)) in HM by lia.
    rewrite !Z.mul_assoc in HM.
    apply Z.mul_cancel_r in HM; [done|]. apply Z.pow_nonzero; lia. }
  rewrite <- Hsign.
  destruct M as [|p|p]; [nia | |]; cbn [binary_normalize Z.ltb Z.compare];
    by apply Hgen.
Qed.

Lemma aligned_scaled (z : Z) (n : positive) (t ez : Z) :
  -52 <= ez <= t ->
  Z.abs z * 2 ^ 52 = Zpos n * 2 ^ (t + 52) ->
  aligned (z <? 0) n t ez * 2 ^ (ez + 52) = z * 2 ^ 52.
Proof.
  intros Hez Hn. rewrite aligned_spec by lia.
  rewrite cond_Zopp_mul, <- Z.mul_assoc, <- Z.pow_add_r by lia.
  replace (t - ez + (ez + 52)) with (t + 52) by lia.
  rewrite <- Hn, <- cond_Zopp_mul. by rewrite cond_Zopp_abs.
Qed.

(** Addition and subtraction of safe integers are exact as long as the
    result is a safe integer. *)
Lemma SFadd_exact (x y : Z) :
  Z.abs x <= 2 ^ 53 -> Z.abs y <= 2 ^ 53 -> Z.abs (x + y) <= 2 ^ 53 ->
  SF64add (ZtoSF x) (ZtoSF y) = ZtoSF (x + y).
Proof.
  intros Hx Hy Hxy.
  destruct (Z.eq_dec x 0) as [->|Hx0].
  { rewrite Z.add_0_l. destruct (Z.eq_dec y 0) as [->|Hy0]; [done|].
    by destruct (ZtoSF_canonical y Hy0 Hy) as (n & t & _ & _ & _ & ->). }
  destruct (Z.eq_dec y 0) as [->|Hy0].
  { rewrite Z.add_0_r.
    by destruct (ZtoSF_canonical x Hx0 Hx) as (n & t & _ & _ & _ & ->). }
  destruct (ZtoSF_canonical x Hx0 Hx) as (nx & tx & _ & Htx & Hnx & ->).
  destruct (ZtoSF_canonical y Hy0 Hy) as (ny & ty & _ & Hty & Hny & ->).
  rewrite SFadd_finite. apply normalize_exact; [lia | | done].
  rewrite Z.mul_add_distr_r.
  rewrite (aligned_scaled x nx tx), (aligned_scaled y ny ty) by (done || lia).
  lia.
Qed.

Lemma SFsub_exact (x y : Z) :
  Z.abs x <= 2 ^ 53 -> Z.abs y <= 2 ^ 53 -> Z.abs (x - y) <= 2 ^ 53 ->
  SF64sub (ZtoSF x) (ZtoSF y) = ZtoSF (x - y).
Proof.
  intros Hx Hy Hxy.
  destruct (Z.eq_dec y 0) as [->|Hy0].
  { rewrite Z.sub_0_r. destruct (Z.eq_dec x 0) as [->|Hx0]; [done|].
    by destruct (ZtoSF_canonical x Hx0 Hx) as (n & t & _ & _ & _ & ->). }
  destruct (ZtoSF_canonical y Hy0 Hy) as (ny & ty & Hby & Hty & Hny & Ey).
  destruct (Z.eq_dec x 0) as [->|Hx0].
  { rewrite Ey. cbn [ZtoSF binary_normalize SF64sub SFsub].
    assert (Hopp : Z.abs (0 - y) <= 2 ^ 53) by lia.
    destruct (ZtoSF_canonical (0 - y) ltac:(lia) Hopp)
      as (n' & t' & Hb' & Ht' & Hn' & E').
    fold (ZtoSF (0 - y)). rewrite E'.
    assert (Heq : Zpos ny * 2 ^ (ty + 52) = Zpos n' * 2 ^ (t' + 52)).
    { rewrite <- Hny, <- Hn'. f_equal. lia. }
    assert (Hlog : ty = t').
    { apply bounded_spec in Hby as [Hc _], Hb' as [Hc' _].
      apply (f_equal Z.log2) in Heq.
      rewrite !Z.log2_mul_pow2 in Heq by lia. lia. }
    subst t'. apply Z.mul_cancel_r in Heq; [|apply Z.pow_nonzero; lia].
    injection Heq as <-. f_equal.
    destruct (Z.ltb_spec y 0), (Z.ltb_spec (0 - y) 0); try done; lia. }
  destruct (ZtoSF_canonical x Hx0 Hx) as (nx & tx & _ & Htx & Hnx & ->).
  rewrite Ey, SFsub_finite. apply normalize_exact; [lia | | done].
  rewrite Z.mul_sub_distr_r.
  rewrite (aligned_scaled x nx tx), (aligned_scaled y ny ty) by (done || lia).
  lia.
Qed.

(** *** Order *)

Lemma compare_aligned (sx sy : bool) (mx my : positive) (ex ey : Z) :
  valid_binary (S754_finite sx mx ex) = true ->
  valid_binary (S754_finite sy my ey) = true ->
  SFcompare (S754_finite sx mx ex) (S754_finite sy my ey) = Some Lt ->
  aligned sx mx ex (Z.min ex ey) < aligned sy my ey (Z.min ex ey).
Proof.
  intros (Hex & Hmx & Hnx)%valid_finite (Hey & Hmy & Hny)%valid_finite.
  rewrite !aligned_spec by lia. cbn [SFcompare].
  assert (Hlt : forall (m m' : positive) (e e' : Z),
             Zpos m < 2 ^ 53 -> (-1074 < e' -> 2 ^ 52 <= Zpos m') ->
             -1074 <= e -> e < e' ->
             Zpos m * 2 ^ (e - Z.min e e') < Zpos m' * 2 ^ (e' - Z.min e e')).
  { intros m m' e e' Hm Hm' He Hee'. rewrite Z.min_l by lia.
    rewrite Z.sub_diag, Z.mul_1_r.
    assert (2 ^ 1 <= 2 ^ (e' - e)) by (apply Z.pow_le_mono_r; lia).
    specialize (Hm' ltac:(lia)). nia. }
  assert (Heq : forall (m m' : positive) (e : Z),
             (m < m')%positive ->
             Zpos m * 2 ^ (e - Z.min e e) < Zpos m' * 2 ^ (e - Z.min e e)).
  { intros m m' e Hmm. rewrite Z.min_id, Z.sub_diag. lia. }
  assert (Hpx : 0 < Zpos mx * 2 ^ (ex - Z.min ex ey)).
  { apply Z.mul_pos_pos; [lia|]. apply Z.pow_pos_nonneg; lia. }
  assert (Hpy : 0 < Zpos my * 2 ^ (ey - Z.min ex ey)).
  { apply Z.mul_pos_pos; [lia|]. apply Z.pow_pos_nonneg; lia. }
  destruct sx, sy; cbn [cond_Zopp]; try discriminate; [| lia |].
  - destruct (Z.compare_spec ex ey) as [->|Hc|Hc]; try discriminate.
    + change (Pos.compare_cont Eq mx my) with (mx ?= my)%positive.
      destruct (Pos.compare_spec mx my) as [|H|H]; try discriminate.
      intros _. specialize (Heq my mx ey H). lia.
    + intros _. specialize (Hlt my mx ey ex Hmy Hnx ltac:(lia) Hc).
      rewrite (Z.min_comm ey ex) in Hlt. lia.
  - destruct (Z.compare_spec ex ey) as [->|Hc|Hc]; try discriminate.
    + change (Pos.compare_cont Eq mx my) with (mx ?= my)%positive.
      destruct (Pos.compare_spec mx my) as [|H|H]; try discriminate.
      intros _. by apply Heq.
    + intros _. by apply Hlt; try lia.
Qed.

Lemma SFsub_negative (X Y : spec_float) :
  valid_binary X = true -> valid_binary Y = true ->
  SFltb X Y = true ->
  SFltb (SF64sub X Y) (S754_zero false) = true.
Proof.
  intros VX VY. unfold SFltb at 1.
  destruct (SFcompare X Y) as [[]|] eqn:Hc; try discriminate. intros _.
  destruct X as [sx|sx| |sx mx ex], Y as [sy|sy| |sy my ey];
    try discriminate;
    try (by destruct sx, sy); try (by destruct sx); try (by destruct sy).
  rewrite SFsub_finite.
  pose proof (compare_aligned _ _ _ _ _ _ VX VY Hc) as Hlt.
  apply valid_finite in VX as [? _], VY as [? _].
  set (M := _ - _) in *.
  assert (HM : M < 0) by (unfold M; lia).
  destruct (binary_normalize_nonzero M (Z.min ex ey) ltac:(lia) ltac:(lia))
    as [-> | (m' & e' & ->)];
    by destruct (Z.ltb_spec M 0); [|lia].
Qed.


(** *** Primitive floats *)

Lemma Prim2SF_zero : Prim2SF PrimFloat.zero = S754_zero false.
Proof. reflexivity. Qed.

Lemma is_nan_spec (x : float) :
  is_nan x = match Prim2SF x with S754_nan => true | _ => false end.
Proof.
  unfold is_nan. rewrite eqb_spec. unfold SFeqb.
  destruct (Prim2SF x) as [s|s| |s m e]; try done; try by destruct s.
  destruct s; cbn; rewrite Z.compare_refl;
    change (Pos.compare_cont Eq m m) with (m ?= m)%positive;
    by rewrite Pos.compare_refl.
Qed.

Lemma is_zero_spec (x : float) :
  is_zero x = match Prim2SF x with S754_zero _ => true | _ => false end.
Proof.
  unfold is_zero. rewrite eqb_spec, Prim2SF_zero. unfold SFeqb.
  by destruct (Prim2SF x) as [s|[]| |[] m e].
Qed.

Lemma is_infinity_spec (x : float) :
  is_infinity x
  = match Prim2SF x with S754_infinity _ => true | _ => false end.
Proof.
  unfold is_infinity. rewrite eqb_spec, abs_spec.
  by destruct (Prim2SF x) as [s|[]| |[] m e].
Qed.

Lemma Prim2SF_Num (z : Z) :
  Z.abs z <= 2 ^ 53 -> Prim2SF (Num z) = ZtoSF z.
Proof. intros H. apply Prim2SF_SF2Prim. by apply ZtoSF_valid. Qed.

Lemma Num_add (x y : Z) :
  Z.abs x <= 2 ^ 53 -> Z.abs y <= 2 ^ 53 -> Z.abs (x + y) <= 2 ^ 53 ->
  (Num x + Num y)%float = Num (x + y).
Proof.
  intros Hx Hy Hxy. apply Prim2SF_inj.
  rewrite add_spec, !Prim2SF_Num by done. by apply SFadd_exact.
Qed.

Lemma Num_sub (x y : Z) :
  Z.abs x <= 2 ^ 53 -> Z.abs y <= 2 ^ 53 -> Z.abs (x - y) <= 2 ^ 53 ->
  (Num x - Num y)%float = Num (x - y).
Proof.
  intros Hx Hy Hxy. apply Prim2SF_inj.
  rewrite sub_spec, !Prim2SF_Num by done. by apply SFsub_exact.
Qed.

Lemma Num_not_nan (z : Z) : Z.abs z <= 2 ^ 53 -> is_nan (Num z) = false.
Proof.
  intros H. rewrite is_nan_spec, Prim2SF_Num by done.
  destruct (Z.eq_dec z 0) as [->|Hz]; [done|].
  by destruct (ZtoSF_canonical z Hz H) as (n & t & _ & _ & _ & ->).
Qed.

Lemma Num_is_zero (z : Z) :
  Z.abs z <= 2 ^ 53 -> is_zero (Num z) = (z =? 0).
Proof.
  intros H. rewrite is_zero_spec, Prim2SF_Num by done.
  destruct (Z.eqb_spec z 0) as [->|Hz]; [done|].
  by destruct (ZtoSF_canonical z Hz H) as (n & t & _ & _ & _ & ->).
Qed.

(** The sign of an integer survives the conversion. *)
Lemma Num_ltb_0 (z : Z) :
  Z.abs z <= 2 ^ 53 -> (Num z <? PrimFloat.zero)%float = (z <? 0).
Proof.
  intros H. rewrite ltb_spec, Prim2SF_zero, Prim2SF_Num by done.
  destruct (Z.eq_dec z 0) as [->|Hz]; [done|].
  destruct (ZtoSF_canonical z Hz H) as (n & t & _ & _ & _ & ->).
  by destruct (z <? 0).
Qed.

(** A sum is [NaN] only when an operand is, or when the operands are the
    two infinities. *)
Lemma add_nan (x y : float) :
  is_nan (x + y) = true ->
  is_nan x = true \/ is_nan y = true
  \/ (is_infinity x = true /\ is_infinity y = true).
Proof.
  rewrite !is_nan_spec, !is_infinity_spec, add_spec.
  destruct (SF64add (Prim2SF x) (Prim2SF y)) eqn:E; try discriminate.
  intros _. apply SFadd_nan in E as [-> | [-> | (s & -> & ->)]]; auto.
Qed.

(** Adding zero changes nothing, except that it turns the negative zero
    into the positive one. *)
Lemma add_zero_r (x : float) : x <> neg_zero -> (x + PrimFloat.zero)%float = x.
Proof.
  intros Hx. apply Prim2SF_inj. rewrite add_spec, Prim2SF_zero.
  destruct (Prim2SF x) as [[]|s| |s m e] eqn:E; try reflexivity.
  destruct Hx. apply Prim2SF_inj. by rewrite E.
Qed.

Lemma add_zero_l (x : float) : x <> neg_zero -> (PrimFloat.zero + x)%float = x.
Proof.
  intros Hx. apply Prim2SF_inj. rewrite add_spec, Prim2SF_zero.
  destruct (Prim2SF x) as [[]|s| |s m e] eqn:E; try reflexivity.
  destruct Hx. apply Prim2SF_inj. by rewrite E.
Qed.

(** A sum is the negative zero only when both operands are. *)
Lemma add_neg_zero (x y : float) :
  (x + y)%float = neg_zero -> x = neg_zero /\ y = neg_zero.
Proof.
  intros H. apply (f_equal Prim2SF) in H. rewrite add_spec in H.
  apply SFadd_neg_zero in H as [Hx Hy]; try apply Prim2SF_valid.
  split; by apply Prim2SF_inj.
Qed.

Lemma add_neg_zero_r (x : float) : (x + neg_zero)%float = x.
Proof.
  apply Prim2SF_inj. rewrite add_spec.
  change (Prim2SF neg_zero) with (S754_zero true).
  by destruct (Prim2SF x) as [[]|s| |s m e].
Qed.

Lemma sub_zero_r (x : float) : (x - PrimFloat.zero)%float = x.
Proof.
  apply Prim2SF_inj. rewrite sub_spec, Prim2SF_zero.
  by destruct (Prim2SF x) as [[]|s| |s m e].
Qed.

Lemma sub_nan_l (x : float) : (nan - x)%float = nan.
Proof.
  apply Prim2SF_inj. rewrite sub_spec.
  change (Prim2SF nan) with S754_nan.
  by destruct (Prim2SF x) as [s|s| |s m e].
Qed.

Lemma add_nan_l (x : float) : (nan + x)%float = nan.
Proof.
  apply Prim2SF_inj. rewrite add_spec.
  change (Prim2SF nan) with S754_nan.
  by destruct (Prim2SF x) as [s|s| |s m e].
Qed.

Lemma add_nan_r (x : float) : (x + nan)%float = nan.
Proof.
  apply Prim2SF_inj. rewrite add_spec.
  change (Prim2SF nan) with S754_nan.
  by destruct (Prim2SF x) as [s|s| |s m e].
Qed.

Lemma is_nan_nan (x : float) : is_nan x = true -> x = nan.
Proof.
  rewrite is_nan_spec. intros H. apply Prim2SF_inj.
  change (Prim2SF nan) with S754_nan.
  by destruct (Prim2SF x).
Qed.

(** The two zeros are the only numbers that [is_zero] accepts. *)
Lemma is_zero_cases (x : float) :
  is_zero x = true -> x = PrimFloat.zero \/ x = neg_zero.
Proof.
  rewrite is_zero_spec. destruct (Prim2SF x) as [[]|s| |s m e] eqn:E;
    try discriminate; intros _; [right | left]; by apply Prim2SF_inj.
Qed.

(** Subtracting something larger gives something negative. *)
Lemma sub_negative (p t : float) :
  (p <? t)%float = true -> (p - t <? PrimFloat.zero)%float = true.
Proof.
  rewrite !ltb_spec, sub_spec, Prim2SF_zero.
  apply SFsub_negative; apply Prim2SF_valid.
Qed.

End IEEE.

(** ** utils/helpers: total paid and balance *)

Module FinanceProofs.
Import JS Helpers Finance.

(** Unfold the sequencing of completions, and nothing else. *)
Ltac run_bind := cbn [mbind completion_bind bind].

Lemma calculateTotalPaid_array (elems : list value) :
  calculateTotalPaid (VArray elems) = reduce add_installment elems zero.
Proof. reflexivity. Qed.

Lemma add_numbers (a b : number) :
  add (VNumber a) (VNumber b) = Normal (VNumber (number_add a b)).
Proof. reflexivity. Qed.

Lemma or_else_number (n : number) :
  or_else (VNumber n) zero
  = VNumber (if truthy (VNumber n) then n else PrimFloat.zero).
Proof. unfold or_else. by destruct (truthy (VNumber n)). Qed.

Lemma add_installment_contribution (acc c : number) (inst : value) :
  contribution inst = Some c ->
  add_installment (VNumber acc) inst
  = Normal (VNumber (number_add acc c)).
Proof.
  unfold contribution, add_installment.
  destruct inst as [| | b | n | s | elems | props]; try discriminate.
  cbn [get]. run_bind.
  destruct (lookup_prop "amount" props) as [| | b | n | s | l | p];
    try discriminate; intros [= <-].
  - reflexivity.
  - reflexivity.
  - by rewrite or_else_number, add_numbers.
Qed.

Lemma reduce_contributions (elems : list value) :
  forall (ns : list number) (acc : number),
    mapM contribution elems = Some ns ->
    reduce add_installment elems (VNumber acc)
    = Normal (VNumber (fold_left number_add ns acc)).
Proof.
  induction elems as [|x rest IH]; intros ns acc Hns.
  - by injection Hns as <-.
  - cbn in Hns. destruct (contribution x) as [c|] eqn:Hx; [|discriminate].
    cbn in Hns. destruct (mapM contribution rest) as [ns'|] eqn:Hr;
      [|discriminate].
    injection Hns as <-. cbn [reduce].
    rewrite (add_installment_contribution acc c x Hx).
    run_bind. by rewrite (IH ns' _ eq_refl).
Qed.

(** What an installment adds: its amount, or 0 for an amount that is
    falsy. *)
Lemma contributions_installments (l : list Installment) :
  mapM contribution (installment_value <$> l)
  = Some ((fun i => if truthy (VNumber (amount i)) then amount i
                    else PrimFloat.zero) <$> l).
Proof.
  induction l as [|i l IH]; [done|].
  cbn [fmap list_fmap mapM]. rewrite IH. reflexivity.
Qed.

Lemma truthy_number (a : number) :
  truthy (VNumber a) = negb (is_nan a || is_zero a).
Proof. reflexivity. Qed.

(** Adding an amount that is not [NaN] and adding what the guard
    [|| 0] leaves of it come to the same, and the running total never
    becomes the negative zero. *)
Lemma add_guarded (acc a : number) :
  acc <> neg_zero -> is_nan a = false ->
  number_add acc (if truthy (VNumber a) then a else PrimFloat.zero)
  = number_add acc a
  /\ number_add acc a <> neg_zero.
Proof.
  intros Hacc Ha. split.
  - rewrite truthy_number, Ha. cbn [orb].
    destruct (is_zero a) eqn:Hz; [|done]. cbn [negb].
    apply IEEE.is_zero_cases in Hz as [-> | ->]; [done|].
    unfold number_add. by rewrite IEEE.add_zero_r, IEEE.add_neg_zero_r.
  - intros H. by apply IEEE.add_neg_zero in H as [? _].
Qed.

Lemma fold_guarded (l : list Installment) :
  forall acc : number,
    acc <> neg_zero ->
    Forall (fun i => is_nan (amount i) = false) l ->
    fold_left number_add
      ((fun i => if truthy (VNumber (amount i)) then amount i
                 else PrimFloat.zero) <$> l) acc
    = fold_left number_add (amount <$> l) acc.
Proof.
  induction l as [|i l IH]; intros acc Hacc Hl; [done|].
  apply Forall_cons_1 in Hl as [Hi Hl]. cbn [fmap list_fmap fold_left].
  destruct (add_guarded acc (amount i) Hacc Hi) as [-> Hne].
  by apply IH.
Qed.

Lemma zero_not_neg_zero : PrimFloat.zero <> neg_zero.
Proof. intros H. apply (f_equal Prim2SF) in H. discriminate H. Qed.

Lemma total_paid_installments (l : list Installment) :
  Forall (fun i => is_nan (amount i) = false) l ->
  calculateTotalPaid (installments_value l)
  = Normal (VNumber (sum_amounts l)).
Proof.
  intros Hl. unfold installments_value. rewrite calculateTotalPaid_array.
  unfold zero.
  rewrite (reduce_contributions _ _ _ (contributions_installments l)).
  by rewrite (fold_guarded l _ zero_not_neg_zero Hl).
Qed.

Lemma safe_spec (z : Z) : safe z = true <-> Z.abs z <= 2 ^ 53.
Proof. unfold safe. apply Z.leb_le. Qed.

Lemma sum_units (zs : list Z) :
  forall acc : Z,
    safe acc = true -> safe_sums acc zs = true ->
    fold_left number_add (Num <$> zs) (Num acc) = Num (acc + sum_Z zs).
Proof.
  induction zs as [|z zs IH]; intros acc Hacc Hzs.
  - cbn. by rewrite Z.add_0_r.
  - cbn [safe_sums] in Hzs.
    apply andb_prop in Hzs as [[Hz Hsum]%andb_prop Hrest].
    cbn [fmap list_fmap fold_left]. unfold number_add at 2.
    rewrite IEEE.Num_add by (by apply safe_spec).
    rewrite (IH _ Hsum Hrest). unfold sum_Z. cbn [foldr]. f_equal. lia.
Qed.

Lemma safe_sums_safe (zs : list Z) :
  forall acc : Z,
    safe_sums acc zs = true -> Forall (fun z => safe z = true) zs.
Proof.
  induction zs as [|z zs IH]; intros acc Hzs; [done|].
  cbn [safe_sums] in Hzs.
  apply andb_prop in Hzs as [[Hz Hsum]%andb_prop Hrest].
  apply Forall_cons_2; [done | by apply (IH (acc + z))].
Qed.

Lemma total_paid_units (zs : list Z) :
  safe_sums 0 zs = true ->
  calculateTotalPaid (installments_value (units <$> zs))
  = Normal (VNumber (Num (sum_Z zs))).
Proof.
  intros Hzs. rewrite total_paid_installments.
  - unfold sum_amounts, sum_numbers. rewrite <- list_fmap_compose.
    change (amount ∘ units) with Num.
    change PrimFloat.zero with (Num 0).
    by rewrite (sum_units zs 0 eq_refl Hzs).
  - apply Forall_fmap. eapply Forall_impl; [exact (safe_sums_safe _ _ Hzs)|].
    intros z Hz. cbn. apply IEEE.Num_not_nan. by apply safe_spec.
Qed.

Lemma safe_sums_total (zs : list Z) :
  forall acc : Z,
    safe acc = true -> safe_sums acc zs = true ->
    safe (acc + sum_Z zs) = true.
Proof.
  induction zs as [|z zs IH]; intros acc Hacc Hzs.
  - cbn. by rewrite Z.add_0_r.
  - cbn [safe_sums] in Hzs.
    apply andb_prop in Hzs as [[Hz Hsum]%andb_prop Hrest].
    specialize (IH _ Hsum Hrest). unfold sum_Z in *. cbn [foldr].
    by rewrite Z.add_assoc.
Qed.

(** A safe integer is a number: the conversion loses nothing. *)
Lemma integer_value_Num (z : Z) :
  safe z = true -> integer_value (Num z) = Some z.
Proof.
  intros Hz%safe_spec. unfold integer_value.
  rewrite IEEE.Prim2SF_Num by done.
  destruct (Z.eq_dec z 0) as [->|Hne]; [done|].
  destruct (IEEE.ZtoSF_canonical z Hne Hz) as (n & t & _ & Ht & Hn & ->).
  destruct (Z.leb_spec 0 t) as [H0|H0].
  - f_equal. rewrite <- (IEEE.cond_Zopp_abs z) at 2. f_equal.
    replace (t + 52) with (52 + t) in Hn by lia.
    rewrite Z.pow_add_r in Hn by lia. nia.
  - assert (Hn' : Zpos n = Z.abs z * 2 ^ (- t)).
    { replace 52 with ((- t) + (t + 52)) in Hn at 1 by lia.
      rewrite Z.pow_add_r, Z.mul_assoc in Hn by lia.
      apply Z.mul_cancel_r in Hn; [done|]. apply Z.pow_nonzero; lia. }
    assert (Hp : 0 < 2 ^ (- t)) by (apply Z.pow_pos_nonneg; lia).
    rewrite Hn', Z.mod_mul, Z.div_mul by lia. cbn [Z.eqb].
    by rewrite IEEE.cond_Zopp_abs.
Qed.

Lemma total_paid_non_array (v : value) :
  isArray v = false -> calculateTotalPaid v = Normal zero.
Proof.
  intros Hv. unfold calculateTotalPaid. rewrite Hv.
  by rewrite orb_true_r.
Qed.

Lemma balance_of_total (salePrice installments total : value) :
  calculateTotalPaid installments = Normal total ->
  calculateBalance salePrice installments = sub salePrice total.
Proof. intros H. unfold calculateBalance. by rewrite H. Qed.

Lemma sub_numbers (a b : number) :
  sub (VNumber a) (VNumber b) = Normal (VNumber (number_sub a b)).
Proof. reflexivity. Qed.


(** *** What [+] does to a running total *)

Lemma add_installment_addend (acc x : value) :
  nullish x = false -> add_installment acc x = add acc (addend x).
Proof. by destruct x. Qed.

Lemma add_installment_nullish (acc x : value) :
  nullish x = true -> add_installment acc x = Throw TypeError.
Proof. by destruct x. Qed.

Lemma to_primitive_self (v : value) :
  primitive v = true -> to_primitive v = Normal v.
Proof. by destruct v. Qed.

Lemma to_primitive_primitive (v p : value) :
  to_primitive v = Normal p -> primitive p = true.
Proof.
  unfold to_primitive.
  destruct v as [| | b | n | s | l | q]; try (by intros [= <-]);
    destruct (to_string _) as [t|e]; run_bind; try discriminate;
    by intros [= <-].
Qed.

Lemma to_primitive_object (v p : value) :
  primitive v = false -> to_primitive v = Normal p ->
  exists t, p = VString t.
Proof.
  unfold to_primitive.
  destruct v as [| | b | n | s | l | q]; try discriminate; intros _;
    destruct (to_string _) as [t|e]; run_bind; try discriminate;
    intros [= <-]; by eexists.
Qed.

Lemma to_string_primitive (p : value) :
  primitive p = true -> exists s, to_string p = Normal s.
Proof.
  destruct p as [| | [] | n | s | l | q]; try discriminate; intros _;
    by eexists.
Qed.

Lemma to_number_primitive (p : value) :
  primitive p = true -> exists n, to_number p = Normal n.
Proof.
  destruct p as [| | [] | n | s | l | q]; try discriminate; intros _;
    by eexists.
Qed.

Lemma number_or_string_primitive (v : value) :
  number_or_string v = true -> primitive v = true.
Proof. by destruct v. Qed.

(** On a running total that is a number or a string, [+] throws exactly
    when the addend does not convert to a primitive, and otherwise gives
    a number or a string again. *)
Lemma add_cases (acc c : value) :
  number_or_string acc = true ->
  (convertible c = false /\ add acc c = Throw TypeError)
  \/ (convertible c = true
      /\ exists v, add acc c = Normal v /\ number_or_string v = true).
Proof.
  intros Hacc. unfold add, convertible.
  rewrite (to_primitive_self acc) by (by apply number_or_string_primitive).
  run_bind. destruct (to_primitive c) as [pb|[]] eqn:Hc; run_bind;
    [right | by left].
  split; [done|].
  pose proof (to_primitive_primitive _ _ Hc) as Hpb.
  pose proof (number_or_string_primitive _ Hacc) as Hpa.
  destruct (to_string_primitive acc Hpa) as [sa Hsa].
  destruct (to_string_primitive pb Hpb) as [sb Hsb].
  destruct (to_number_primitive acc Hpa) as [na Hna].
  destruct (to_number_primitive pb Hpb) as [nb Hnb].
  rewrite Hsa, Hsb, Hna, Hnb. run_bind.
  destruct (is_string acc || is_string pb); by eexists.
Qed.

(** The reduction throws exactly when some element is [null] or
    [undefined] or has an amount that does not convert; otherwise it
    returns a number or a string. *)
Lemma reduce_cases (elems : list value) :
  forall acc : value,
    number_or_string acc = true ->
    (Exists (fun x => nullish x = true \/ convertible (addend x) = false)
       elems
     /\ reduce add_installment elems acc = Throw TypeError)
    \/ (Forall (fun x => nullish x = false
                         /\ convertible (addend x) = true) elems
        /\ exists v, reduce add_installment elems acc = Normal v
                     /\ number_or_string v = true).
Proof.
  induction elems as [|x rest IH]; intros acc Hacc.
  - right. split; [done|]. by exists acc.
  - cbn [reduce]. destruct (nullish x) eqn:Hx.
    { left. rewrite (add_installment_nullish _ _ Hx).
      split; [|done]. apply Exists_cons_hd. by left. }
    rewrite (add_installment_addend _ _ Hx).
    destruct (add_cases acc (addend x) Hacc)
      as [[Hc ->] | (Hc & v & -> & Hv)]; run_bind.
    { left. split; [|done]. apply Exists_cons_hd. by right. }
    destruct (IH v Hv) as [[Hex ->] | (Hall & w & -> & Hw)].
    + left. split; [|done]. by apply Exists_cons_tl.
    + right. split; [by apply Forall_cons_2|]. by exists w.
Qed.

Lemma total_paid_shape (installments total : value) :
  calculateTotalPaid installments = Normal total ->
  number_or_string total = true.
Proof.
  unfold calculateTotalPaid.
  destruct (negb (truthy installments) || negb (isArray installments));
    [by intros [= <-]|].
  destruct installments as [| | b | n | s | elems | p];
    try (by intros [= <-]).
  fold add_installment.
  destruct (reduce_cases elems zero eq_refl)
    as [[_ ->] | (_ & v & -> & Hv)]; [discriminate|].
  by intros [= <-].
Qed.

Lemma add_not_nan (n a : number) :
  is_nan n = false -> is_nan a = false -> is_infinity a = false ->
  is_nan (number_add n a) = false.
Proof.
  intros Hn Ha Hi. destruct (is_nan (number_add n a)) eqn:E; [|done].
  apply IEEE.add_nan in E as [E | [E | [_ E]]]; congruence.
Qed.

Lemma addend_shape (x : value) :
  truthy (addend x) = true \/ addend x = zero.
Proof.
  unfold addend, or_else.
  set (a := match x with
            | VObject props => lookup_prop "amount" props
            | _ => VUndefined
            end).
  destruct (truthy a) eqn:E; [by left | by right].
Qed.

(** Adding something that is not an infinity to a string or to a number
    other than [NaN] gives a string or a number other than [NaN]. *)
Lemma add_sound (acc c v : value) :
  sound acc = true ->
  truthy c = true \/ c = zero ->
  infinite c = false ->
  add acc c = Normal v ->
  sound v = true.
Proof.
  intros Hacc Hc Hinf.
  destruct acc as [| | b | n | s | l | q]; try discriminate.
  - cbn [sound] in Hacc. apply negb_true_iff in Hacc.
    destruct c as [| | b | a | t | l | q].
    + destruct Hc as [Hc | Hc]; discriminate Hc.
    + destruct Hc as [Hc | Hc]; discriminate Hc.
    + destruct Hc as [Hc | Hc]; [|discriminate Hc]. cbn in Hc. subst b.
      intros [= <-]. cbn [sound]. apply negb_true_iff.
      by apply add_not_nan.
    + rewrite add_numbers. intros [= <-]. cbn [sound].
      apply negb_true_iff. apply add_not_nan; [done | | done].
      destruct Hc as [Hc | [= ->]]; [|done].
      rewrite truthy_number in Hc. apply negb_true_iff in Hc.
      by apply orb_false_elim in Hc as [? _].
    + by intros [= <-].
    + unfold add. rewrite (to_primitive_self (VNumber n)) by done. run_bind.
      destruct (to_primitive (VArray l)) as [pb|e] eqn:Hpb; run_bind;
        [|discriminate].
      apply to_primitive_object in Hpb as [t ->]; [|done].
      cbn [is_string orb to_string]. run_bind. by intros [= <-].
    + unfold add. rewrite (to_primitive_self (VNumber n)) by done. run_bind.
      destruct (to_primitive (VObject q)) as [pb|e] eqn:Hpb; run_bind;
        [|discriminate].
      apply to_primitive_object in Hpb as [t ->]; [|done].
      cbn [is_string orb to_string]. run_bind. by intros [= <-].
  - unfold add. rewrite (to_primitive_self (VString s)) by done. run_bind.
    destruct (to_primitive c) as [pb|e] eqn:Hpb; run_bind; [|discriminate].
    cbn [is_string orb to_string]. run_bind.
    destruct (to_string pb) as [t|e]; run_bind; [|discriminate].
    by intros [= <-].
Qed.

Lemma reduce_sound (elems : list value) :
  forall acc v : value,
    sound acc = true ->
    Forall (fun x => infinite (addend x) = false) elems ->
    reduce add_installment elems acc = Normal v ->
    sound v = true.
Proof.
  induction elems as [|x rest IH]; intros acc v Hacc Hall; cbn [reduce].
  - by intros [= <-].
  - apply Forall_cons_1 in Hall as [Hx Hall].
    destruct (nullish x) eqn:Hn.
    { by rewrite (add_installment_nullish _ _ Hn). }
    rewrite (add_installment_addend _ _ Hn).
    destruct (add acc (addend x)) as [acc'|e] eqn:Hadd; run_bind;
      [|discriminate].
    apply IH; [|done].
    by apply (add_sound acc (addend x) acc' Hacc (addend_shape x) Hx).
Qed.

Lemma sound_not_NaN (v : value) : sound v = true -> is_NaN v = false.
Proof.
  destruct v as [| | b | n | s | l | q]; try done.
  cbn. by intros ->%negb_true_iff.
Qed.

Lemma mapM_contribution_app (l1 l2 : list value) (n1 n2 : list number) :
  mapM contribution l1 = Some n1 ->
  mapM contribution l2 = Some n2 ->
  mapM contribution (l1 ++ l2) = Some (n1 ++ n2).
Proof.
  revert n1. induction l1 as [|x l1 IH]; intros n1 H1 H2.
  - injection H1 as <-. done.
  - cbn in H1. destruct (contribution x) as [c|] eqn:Hx; [|discriminate].
    cbn in H1. destruct (mapM contribution l1) as [ns|] eqn:Hl; [|discriminate].
    injection H1 as <-. cbn. rewrite Hx. cbn.
    rewrite (IH ns eq_refl H2). done.
Qed.

Lemma fold_not_neg_zero (ns : list number) :
  forall acc : number,
    acc <> neg_zero -> fold_left number_add ns acc <> neg_zero.
Proof.
  induction ns as [|n ns IH]; intros acc Hacc; [done|].
  cbn [fold_left]. apply IH. intros H.
  by apply IEEE.add_neg_zero in H as [? _].
Qed.

(** Leaving out an element that adds 0 does not change the sum. *)
Lemma sum_numbers_skip_zero (ns1 ns2 : list number) :
  sum_numbers (ns1 ++ PrimFloat.zero :: ns2) = sum_numbers (ns1 ++ ns2).
Proof.
  unfold sum_numbers. rewrite !fold_left_app. cbn [fold_left].
  unfold number_add at 2.
  by rewrite IEEE.add_zero_r
    by (apply fold_not_neg_zero, zero_not_neg_zero).
Qed.


Lemma forall_not_exists (elems : list value) :
  Forall (fun x => nullish x = false /\ convertible (addend x) = true) elems ->
  Exists (fun x => nullish x = true \/ convertible (addend x) = false) elems ->
  False.
Proof.
  induction 1 as [|x l [Hn Hc] _ IH]; intros Hex;
    inversion Hex as [y l' [Hy | Hy] | y l' Hy]; subst;
    [congruence | congruence | by apply IH].
Qed.

(** *** Total paid and balance *)

(** C3 fails on the code: the amounts are doubles and are added as
    doubles.  The amounts 4503599627370496 and 4503599627370497 are
    numbers, their sum 9007199254740993 is not, and the total returned is
    9007199254740992; the amounts 0.1 and 0.2 total
    0.30000000000000004. *)
Lemma total_paid_rounds_the_sum :
  integer_value (Num 4503599627370496) = Some 4503599627370496
  /\ integer_value (Num 4503599627370497) = Some 4503599627370497
  /\ calculateTotalPaid
       (installments_value
          [units 4503599627370496; units 4503599627370497])
     = Normal (VNumber (Num 9007199254740992))
  /\ integer_value (Num 9007199254740992) = Some 9007199254740992
  /\ sum_Z [4503599627370496; 4503599627370497] = 9007199254740993
  /\ (exists t,
        calculateTotalPaid
          (VArray [VObject [("amount", VNumber (string_to_number "0.1"))];
                   VObject [("amount", VNumber (string_to_number "0.2"))]])
        = Normal (VNumber t)
        /\ number_to_string t = "0.30000000000000004")
  /\ ~ (forall zs : list Z,
          Forall (fun z => integer_value (Num z) = Some z) zs ->
          exists t,
            calculateTotalPaid (installments_value (units <$> zs))
            = Normal (VNumber t)
            /\ integer_value t = Some (sum_Z zs)).
Proof.
  split; [vm_compute; reflexivity|]. split; [vm_compute; reflexivity|].
  split; [vm_compute; reflexivity|]. split; [vm_compute; reflexivity|].
  split; [reflexivity|]. split.
  - exists (number_add (string_to_number "0.1") (string_to_number "0.2")).
    split; vm_compute; reflexivity.
  - intros H.
    destruct (H [4503599627370496; 4503599627370497]) as (t & Ht & Hv).
    + repeat apply Forall_cons_2; try apply Forall_nil_2;
        vm_compute; reflexivity.
    + assert (E : calculateTotalPaid
                    (installments_value
                       (units <$> [4503599627370496; 4503599627370497]))
                  = Normal (VNumber (Num 9007199254740992)))
        by (vm_compute; reflexivity).
      rewrite E in Ht. injection Ht as <-.
      vm_compute in Hv. discriminate Hv.
Qed.

(** C3, amended.  The total paid over a list of installments is the sum
    of their amounts added from left to right in double arithmetic.  It
    is their exact sum when the amounts are integers and every running
    total stays within [2 ^ 53] in magnitude.  An empty list, [null] and
    [undefined] give 0, and [total_paid([{amount:100},{amount:50}])] is
    150. *)
Theorem total_paid_is_sum_of_amounts :
  (forall l : list Installment,
      Forall (fun i => is_nan (amount i) = false) l ->
      calculateTotalPaid (installments_value l)
      = Normal (VNumber (sum_amounts l)))
  /\ (forall zs : list Z,
        safe_sums 0 zs = true ->
        calculateTotalPaid (installments_value (units <$> zs))
        = Normal (VNumber (Num (sum_Z zs)))
        /\ integer_value (Num (sum_Z zs)) = Some (sum_Z zs))
  /\ calculateTotalPaid (VArray []) = Normal (VNumber (Num 0))
  /\ calculateTotalPaid VNull = Normal (VNumber (Num 0))
  /\ calculateTotalPaid VUndefined = Normal (VNumber (Num 0))
  /\ calculateTotalPaid
       (VArray [VObject [("amount", VNumber (Num 100))];
                VObject [("amount", VNumber (Num 50))]])
     = Normal (VNumber (Num 150)).
Proof.
  split; [exact total_paid_installments|]. split.
  - intros zs Hzs. split; [by apply total_paid_units|].
    apply integer_value_Num. by apply (safe_sums_total zs 0).
  - repeat split; vm_compute; reflexivity.
Qed.

Lemma total_paid_is_sum_of_amounts_witness :
  calculateTotalPaid
    (installments_value
       [mkInstallment (string_to_number "99.95") "2024-01-05" "cash";
        mkInstallment (string_to_number "0.05") "2024-02-05" "card"])
  = Normal
      (VNumber
         (sum_amounts
            [mkInstallment (string_to_number "99.95") "2024-01-05" "cash";
             mkInstallment (string_to_number "0.05") "2024-02-05" "card"]))
  /\ calculateTotalPaid (installments_value (units <$> [100; 50; -20]))
     = Normal (VNumber (Num (sum_Z [100; 50; -20])))
  /\ integer_value (Num (sum_Z [100; 50; -20])) = Some (sum_Z [100; 50; -20]).
Proof.
  destruct total_paid_is_sum_of_amounts as (Hsum & Hexact & _).
  split.
  - apply Hsum. repeat apply Forall_cons_2; try apply Forall_nil_2;
      vm_compute; reflexivity.
  - apply Hexact. vm_compute. reflexivity.
Defined.


(** C4 fails on the code, for the same reason.  With a sale price of
    9007199254740992 and installments of 4503599627370496 and
    4503599627370497 the amounts paid exceed the sale price, yet the
    balance returned is 0 and not negative.  And the difference itself is
    rounded: 9007199254740994 less 1 comes out as 9007199254740992. *)
Lemma balance_rounds_the_difference :
  integer_value (Num 9007199254740992) = Some 9007199254740992
  /\ integer_value (Num 4503599627370496) = Some 4503599627370496
  /\ integer_value (Num 4503599627370497) = Some 4503599627370497
  /\ 9007199254740992 < sum_Z [4503599627370496; 4503599627370497]
  /\ calculateBalance (VNumber (Num 9007199254740992))
       (installments_value
          [units 4503599627370496; units 4503599627370497])
     = Normal (VNumber (Num 0))
  /\ PrimFloat.ltb (Num 0) PrimFloat.zero = false
  /\ integer_value (Num 9007199254740994) = Some 9007199254740994
  /\ calculateBalance (VNumber (Num 9007199254740994))
       (installments_value [units 1])
     = Normal (VNumber (Num 9007199254740992))
  /\ ~ (forall (p : Z) (zs : list Z),
          integer_value (Num p) = Some p ->
          Forall (fun z => integer_value (Num z) = Some z) zs ->
          p < sum_Z zs ->
          exists b,
            calculateBalance (VNumber (Num p))
              (installments_value (units <$> zs))
            = Normal (VNumber b)
            /\ PrimFloat.ltb b PrimFloat.zero = true).
Proof.
  do 8 (split; [vm_compute; reflexivity|]).
  intros H.
  destruct (H 9007199254740992 [4503599627370496; 4503599627370497])
    as (b & Hb & Hneg).
  - vm_compute. reflexivity.
  - repeat apply Forall_cons_2; try apply Forall_nil_2;
      vm_compute; reflexivity.
  - vm_compute. reflexivity.
  - assert (E : calculateBalance (VNumber (Num 9007199254740992))
                  (installments_value
                     (units <$> [4503599627370496; 4503599627370497]))
                = Normal (VNumber (Num 0)))
      by (vm_compute; reflexivity).
    rewrite E in Hb. injection Hb as <-.
    vm_compute in Hneg. discriminate Hneg.
Qed.

(** C4, amended.  For a numeric sale price the balance is the sale price
    minus the total paid, subtracted in double arithmetic, over a list of
    installments and over an absent list alike.  Nothing clamps it: it is
    negative whenever the total paid, as [calculateTotalPaid] returns it,
    exceeds the sale price.  On integers it is the exact difference as
    long as the sale price, the running totals and the difference stay
    within [2 ^ 53] in magnitude; and
    [balance(500, [{amount:100},{amount:50}])] is 350. *)
Theorem balance_is_price_minus_paid :
  (forall (p t : number) (installments : value),
      calculateTotalPaid installments = Normal (VNumber t) ->
      calculateBalance (VNumber p) installments
      = Normal (VNumber (number_sub p t))
      /\ (PrimFloat.ltb p t = true ->
          PrimFloat.ltb (number_sub p t) PrimFloat.zero = true))
  /\ (forall (p : number) (l : list Installment),
        Forall (fun i => is_nan (amount i) = false) l ->
        calculateBalance (VNumber p) (installments_value l)
        = Normal (VNumber (number_sub p (sum_amounts l))))
  /\ (forall (p : Z) (zs : list Z),
        safe p = true -> safe_sums 0 zs = true ->
        safe (p - sum_Z zs) = true ->
        calculateBalance (VNumber (Num p))
          (installments_value (units <$> zs))
        = Normal (VNumber (Num (p - sum_Z zs)))
        /\ integer_value (Num (p - sum_Z zs)) = Some (p - sum_Z zs)
        /\ PrimFloat.ltb (Num (p - sum_Z zs)) PrimFloat.zero
           = (p <? sum_Z zs))
  /\ (forall p : number,
        calculateBalance (VNumber p) VNull = Normal (VNumber p)
        /\ calculateBalance (VNumber p) VUndefined = Normal (VNumber p))
  /\ calculateBalance (VNumber (Num 500))
       (VArray [VObject [("amount", VNumber (Num 100))];
                VObject [("amount", VNumber (Num 50))]])
     = Normal (VNumber (Num 350)).
Proof.
  assert (Hbal : forall p t installments,
    calculateTotalPaid installments = Normal (VNumber t) ->
    calculateBalance (VNumber p) installments
    = Normal (VNumber (number_sub p t))).
  { intros p t installments Ht.
    by rewrite (balance_of_total _ _ _ Ht), sub_numbers. }
  split; [|split; [|split; [|split]]].
  - intros p t installments Ht. split; [by apply Hbal|].
    apply IEEE.sub_negative.
  - intros p l Hl. apply Hbal. by apply total_paid_installments.
  - intros p zs Hp Hzs Hd. split; [|split].
    + rewrite (Hbal _ _ _ (total_paid_units zs Hzs)). unfold number_sub.
      rewrite IEEE.Num_sub; [done | by apply safe_spec | | by apply safe_spec].
      apply safe_spec. by apply (safe_sums_total zs 0).
    + by apply integer_value_Num.
    + rewrite IEEE.Num_ltb_0 by (by apply safe_spec).
      destruct (Z.ltb_spec (p - sum_Z zs) 0), (Z.ltb_spec p (sum_Z zs));
        (done || lia).
  - intros p.
    assert (E : sub (VNumber p) zero = Normal (VNumber p)).
    { unfold zero. rewrite sub_numbers. unfold number_sub.
      by rewrite IEEE.sub_zero_r. }
    split; exact E.
  - vm_compute. reflexivity.
Qed.

Lemma balance_is_price_minus_paid_witness :
  (calculateBalance (VNumber (string_to_number "0.3"))
     (VArray [VObject [("amount", VNumber (string_to_number "0.1"))];
              VObject [("amount", VNumber (string_to_number "0.2"))]])
   = Normal
       (VNumber
          (number_sub (string_to_number "0.3")
             (number_add (string_to_number "0.1") (string_to_number "0.2"))))
   /\ PrimFloat.ltb
        (number_sub (string_to_number "0.3")
           (number_add (string_to_number "0.1") (string_to_number "0.2")))
        PrimFloat.zero
      = true)
  /\ calculateBalance (VNumber (Num 100)) (installments_value [units 150])
     = Normal (VNumber (Num (100 - sum_Z [150])))
  /\ PrimFloat.ltb (Num (100 - sum_Z [150])) PrimFloat.zero = true.
Proof.
  destruct balance_is_price_minus_paid as (Hbal & _ & Hexact & _).
  split.
  - destruct (Hbal (string_to_number "0.3")
                (number_add (string_to_number "0.1")
                   (string_to_number "0.2"))
                (VArray
                   [VObject [("amount", VNumber (string_to_number "0.1"))];
                    VObject [("amount", VNumber (string_to_number "0.2"))]]))
      as [Heq Hneg]; [vm_compute; reflexivity|].
    split; [exact Heq|]. apply Hneg. vm_compute. reflexivity.
  - destruct (Hexact 100 [150]) as (Heq & _ & Hneg);
      [reflexivity | reflexivity | reflexivity |].
    split; [exact Heq | exact Hneg].
Defined.

(** C5 fails on the code: with a [null] sale price and no installments
    [calculateBalance] returns the ordinary number 0, and with an
    [undefined] one it returns [NaN]; neither call throws. *)
Lemma balance_null_price_returns_number :
  calculateBalance VNull (VArray []) = Normal (VNumber (Num 0))
  /\ calculateBalance VUndefined (VArray []) = Normal (VNumber NaN)
  /\ ~ (forall salePrice installments : value,
          salePrice = VNull \/ salePrice = VUndefined ->
          exists e, calculateBalance salePrice installments = Throw e).
Proof.
  split; [vm_compute; reflexivity|]. split; [vm_compute; reflexivity|].
  intros H. destruct (H VNull (VArray []) (or_introl eq_refl)) as [e He].
  vm_compute in He. discriminate He.
Qed.

(** C5, amended.  No sale price makes [calculateBalance] fail: a [null]
    sale price counts as 0, so the balance is 0 minus the total paid, and
    an [undefined] sale price gives [NaN]; this holds whenever the total
    paid is a number, so over every list of installments, and over an
    absent list.  A sale price that is not an object never makes the call
    throw: it throws only when [calculateTotalPaid] does. *)
Theorem balance_absent_price_coerces :
  (forall (installments : value) (t : number),
      calculateTotalPaid installments = Normal (VNumber t) ->
      calculateBalance VNull installments
      = Normal (VNumber (number_sub PrimFloat.zero t))
      /\ calculateBalance VUndefined installments = Normal (VNumber NaN))
  /\ (forall l : list Installment,
        Forall (fun i => is_nan (amount i) = false) l ->
        calculateBalance VNull (installments_value l)
        = Normal (VNumber (number_sub PrimFloat.zero (sum_amounts l)))
        /\ calculateBalance VUndefined (installments_value l)
           = Normal (VNumber NaN))
  /\ (forall zs : list Z,
        safe_sums 0 zs = true ->
        calculateBalance VNull (installments_value (units <$> zs))
        = Normal (VNumber (Num (0 - sum_Z zs)))
        /\ calculateBalance VUndefined (installments_value (units <$> zs))
           = Normal (VNumber NaN))
  /\ (forall absent : value,
        nullish absent = true ->
        calculateBalance VNull absent = Normal (VNumber (Num 0))
        /\ calculateBalance VUndefined absent = Normal (VNumber NaN))
  /\ (forall (salePrice installments : value) (e : exn),
        primitive salePrice = true ->
        calculateBalance salePrice installments = Throw e ->
        calculateTotalPaid installments = Throw e).
Proof.
  assert (Hgen : forall installments t,
    calculateTotalPaid installments = Normal (VNumber t) ->
    calculateBalance VNull installments
    = Normal (VNumber (number_sub PrimFloat.zero t))
    /\ calculateBalance VUndefined installments = Normal (VNumber NaN)).
  { intros installments t Ht.
    rewrite !(balance_of_total _ _ _ Ht). split; [reflexivity|].
    change (sub VUndefined (VNumber t))
      with (Normal (VNumber (number_sub nan t))).
    unfold number_sub. by rewrite IEEE.sub_nan_l. }
  split; [exact Hgen|]. split; [|split; [|split]].
  - intros l Hl. apply Hgen. by apply total_paid_installments.
  - intros zs Hzs.
    destruct (Hgen _ _ (total_paid_units zs Hzs)) as [-> ->].
    split; [|done]. unfold number_sub. change PrimFloat.zero with (Num 0).
    rewrite IEEE.Num_sub; [done | done | |].
    + apply safe_spec. by apply (safe_sums_total zs 0).
    + pose proof (safe_sums_total zs 0 eq_refl Hzs) as H%safe_spec. lia.
  - intros [| | b | n | s | l | p] Habs; try discriminate Habs;
      split; vm_compute; reflexivity.
  - intros sp inst e Hsp. unfold calculateBalance.
    destruct (calculateTotalPaid inst) as [t|e'] eqn:Ht; run_bind;
      [|by intros He].
    apply total_paid_shape, number_or_string_primitive in Ht.
    destruct (to_number_primitive sp Hsp) as [a Ha].
    destruct (to_number_primitive t Ht) as [b Hb].
    unfold sub. rewrite Ha, Hb. discriminate.
Qed.

Lemma balance_absent_price_coerces_witness :
  (calculateBalance VNull
     (VArray [VObject [("amount", VNumber (Num 150))]])
   = Normal (VNumber (number_sub PrimFloat.zero (Num 150)))
   /\ calculateBalance VUndefined
        (VArray [VObject [("amount", VNumber (Num 150))]])
      = Normal (VNumber NaN))
  /\ (calculateBalance VNull (installments_value (units <$> [100; 50]))
      = Normal (VNumber (Num (0 - sum_Z [100; 50])))
      /\ calculateBalance VUndefined
           (installments_value (units <$> [100; 50]))
         = Normal (VNumber NaN))
  /\ (calculateBalance VNull VNull = Normal (VNumber (Num 0))
      /\ calculateBalance VUndefined VNull = Normal (VNumber NaN))
  /\ calculateTotalPaid (VArray [VUndefined]) = Throw TypeError.
Proof.
  destruct balance_absent_price_coerces as (Hgen & _ & Hexact & Habs & Hthrow).
  split; [|split; [|split]].
  - apply Hgen. vm_compute. reflexivity.
  - apply Hexact. reflexivity.
  - apply (Habs VNull). reflexivity.
  - apply (Hthrow (VNumber (Num 5)) (VArray [VUndefined]) TypeError);
      [reflexivity | vm_compute; reflexivity].
Defined.

(** C9 fails on the code.  An array holding a [null] (or [undefined])
    element makes [calculateTotalPaid] throw, since the callback reads
    [inst.amount] unguarded; so does an amount that is an object with a
    [toString] property of its own, which [+] cannot convert; and the
    amounts [1e999] and [-1e999], which JSON reads as the two infinities,
    total [NaN]. *)
Lemma total_paid_throws_on_null_element :
  calculateTotalPaid (VArray [VNull]) = Throw TypeError
  /\ calculateTotalPaid (VArray [VUndefined]) = Throw TypeError
  /\ calculateTotalPaid
       (VArray [VObject [("amount",
                          VObject [("toString", VNumber (Num 5))])]])
     = Throw TypeError
  /\ calculateTotalPaid
       (VArray [VObject [("amount", VNumber (string_to_number "1e999"))];
                VObject [("amount", VNumber (string_to_number "-1e999"))]])
     = Normal (VNumber NaN).
Proof. repeat split; vm_compute; reflexivity. Qed.

(** C9, amended.  Any argument that is not an array yields 0.  On an
    array the function throws a [TypeError] exactly when some element is
    [null] or [undefined] or has an amount that does not convert to a
    primitive, and otherwise returns a number or a string.  What it
    returns is not [NaN] unless some amount is an infinity.  Among
    installments whose amount is absent, [null], [undefined] or a number,
    one whose amount is absent, [null], [undefined] or a zero adds
    nothing: the total is the same with and without it. *)
Theorem total_paid_robust :
  (forall v : value, isArray v = false -> calculateTotalPaid v = Normal zero)
  /\ (forall elems : list value,
        calculateTotalPaid (VArray elems) = Throw TypeError
        <-> Exists (fun x => nullish x = true
                             \/ convertible (addend x) = false) elems)
  /\ (forall elems : list value,
        Forall (fun x => nullish x = false
                         /\ convertible (addend x) = true) elems ->
        exists v, calculateTotalPaid (VArray elems) = Normal v
                  /\ number_or_string v = true)
  /\ (forall (elems : list value) (v : value),
        Forall (fun x => infinite (addend x) = false) elems ->
        calculateTotalPaid (VArray elems) = Normal v ->
        is_NaN v = false)
  /\ (forall (before after : list value) (ns1 ns2 : list number)
             (props : list (string * value)),
        mapM contribution before = Some ns1 ->
        mapM contribution after = Some ns2 ->
        lookup_prop "amount" props = VUndefined
        \/ lookup_prop "amount" props = VNull
        \/ lookup_prop "amount" props = VNumber PrimFloat.zero
        \/ lookup_prop "amount" props = VNumber neg_zero ->
        calculateTotalPaid (VArray (before ++ VObject props :: after))
        = Normal (VNumber (sum_numbers (ns1 ++ ns2)))
        /\ calculateTotalPaid (VArray (before ++ after))
           = Normal (VNumber (sum_numbers (ns1 ++ ns2)))).
Proof.
  split; [exact total_paid_non_array|]. split; [|split; [|split]].
  - intros elems. rewrite calculateTotalPaid_array.
    destruct (reduce_cases elems zero eq_refl)
      as [[Hex ->] | (Hall & v & -> & Hv)]; [done|].
    split; [discriminate|]. intros Hex.
    destruct (forall_not_exists _ Hall Hex).
  - intros elems Hall. rewrite calculateTotalPaid_array.
    destruct (reduce_cases elems zero eq_refl)
      as [[Hex ->] | (_ & v & -> & Hv)]; [|by exists v].
    destruct (forall_not_exists _ Hall Hex).
  - intros elems v Hall. rewrite calculateTotalPaid_array. intros Hv.
    apply sound_not_NaN. by apply (reduce_sound elems zero v).
  - intros before after ns1 ns2 props H1 H2 Hamount.
    assert (Hc : contribution (VObject props) = Some PrimFloat.zero).
    { cbn [contribution].
      destruct Hamount as [Ha | [Ha | [Ha | Ha]]]; by rewrite Ha. }
    assert (Hwith : mapM contribution (before ++ VObject props :: after)
                    = Some (ns1 ++ PrimFloat.zero :: ns2)).
    { apply mapM_contribution_app; [done|].
      cbn [mapM]. rewrite Hc. cbn. rewrite H2. done. }
    rewrite !calculateTotalPaid_array. unfold zero.
    rewrite (reduce_contributions _ _ _ Hwith).
    rewrite (reduce_contributions _ _ _
               (mapM_contribution_app _ _ _ _ H1 H2)).
    fold (sum_numbers (ns1 ++ PrimFloat.zero :: ns2)).
    fold (sum_numbers (ns1 ++ ns2)).
    by rewrite sum_numbers_skip_zero.
Qed.

Lemma total_paid_robust_witness :
  calculateTotalPaid (VObject [("amount", VNumber (Num 5))]) = Normal zero
  /\ (calculateTotalPaid
        (VArray [VObject [("amount", VNumber (Num 5))]; VNull])
      = Throw TypeError
      <-> Exists (fun x => nullish x = true
                           \/ convertible (addend x) = false)
            [VObject [("amount", VNumber (Num 5))]; VNull])
  /\ (exists v, calculateTotalPaid
                  (VArray [VString "x"; VObject [("amount", VBool true)];
                           VObject [("amount", VArray [VNull; VString "y"])]])
                = Normal v /\ number_or_string v = true)
  /\ is_NaN (VString "1y") = false
  /\ (calculateTotalPaid
        (VArray ([VObject [("amount", VNumber (Num 100))]]
                 ++ VObject [("date", VString "2024-01-05")]
                 :: [VObject [("amount", VNumber (Num 50))]]))
      = Normal (VNumber (sum_numbers ([Num 100] ++ [Num 50])))
      /\ calculateTotalPaid
           (VArray ([VObject [("amount", VNumber (Num 100))]]
                    ++ [VObject [("amount", VNumber (Num 50))]]))
         = Normal (VNumber (sum_numbers ([Num 100] ++ [Num 50])))).
Proof.
  destruct total_paid_robust as (Hnon & Hthrow & Hdef & Hnan & Hzero).
  split; [|split; [|split; [|split]]].
  - apply Hnon. reflexivity.
  - apply Hthrow.
  - apply Hdef. repeat apply Forall_cons_2; try apply Forall_nil_2;
      split; vm_compute; reflexivity.
  - apply (Hnan [VObject [("amount", VBool true)];
                 VObject [("amount", VString "y")]]).
    + repeat apply Forall_cons_2; try apply Forall_nil_2; reflexivity.
    + vm_compute. reflexivity.
  - apply Hzero; [vm_compute; reflexivity | vm_compute; reflexivity
                 | left; reflexivity].
Defined.

End FinanceProofs.

Module PagesProofs.
Import Pages Policy.

Lemma strictEq_true (field : option string) (lit : string) :
  strictEq field lit = true <-> field = Some lit.
Proof.
  destruct field as [s|]; cbn.
  - rewrite String.eqb_eq. split; [by intros -> | by intros [= ->]].
  - split; discriminate.
Qed.

Lemma role_is (user : option User) (lit : string) :
  strictEq (role <$> user) lit = true
  <-> exists u, user = Some u /\ role u = lit.
Proof.
  rewrite strictEq_true. destruct user as [u|]; cbn.
  - split; [intros [= H]; by exists u | by intros (u' & [= <-] & ->)].
  - split; [discriminate | by intros (u' & [=] & _)].
Qed.

Lemma status_is (booking : option Booking) (lit : string) :
  strictEq (status <$> booking) lit = true
  <-> exists b, booking = Some b /\ status b = lit.
Proof.
  rewrite strictEq_true. destruct booking as [b|]; cbn.
  - split; [intros [= H]; by exists b | by intros (b' & [= <-] & ->)].
  - split; [discriminate | by intros (b' & [=] & _)].
Qed.

Lemma showSubmit_iff (user : option User) (booking : option Booking) :
  showSubmit user booking = true
  <-> exists u b, user = Some u /\ booking = Some b
                  /\ role u = "agent1" /\ status b = "draft".
Proof.
  unfold showSubmit, submitRole.
  rewrite andb_true_iff, role_is, status_is. split.
  - intros [(u & -> & Hr) (b & -> & Hs)]. by exists u, b.
  - intros (u & b & -> & -> & Hr & Hs). split; [by exists u | by exists b].
Qed.

Lemma showAccountVerify_iff (user : option User) (booking : option Booking) :
  showAccountVerify user booking = true
  <-> exists u b, user = Some u /\ booking = Some b
                  /\ (role u = "account" \/ role u = "admin")
                  /\ status b = "pending_verification".
Proof.
  unfold showAccountVerify, accountVerifyRole.
  rewrite andb_true_iff, orb_true_iff, !role_is, status_is. split.
  - intros [[(u & -> & Hr) | (u & -> & Hr)] (b & -> & Hs)];
      exists u, b; auto.
  - intros (u & b & -> & -> & [Hr | Hr] & Hs);
      (split; [|by exists b]); [left | right]; by exists u.
Qed.

Lemma showAdminVerify_iff (user : option User) (booking : option Booking) :
  showAdminVerify user booking = true
  <-> exists u b, user = Some u /\ booking = Some b
                  /\ role u = "admin" /\ status b = "account_verified".
Proof.
  unfold showAdminVerify, adminVerifyRole.
  rewrite andb_true_iff, role_is, status_is. split.
  - intros [(u & -> & Hr) (b & -> & Hs)]. by exists u, b.
  - intros (u & b & -> & -> & Hr & Hs). split; [by exists u | by exists b].
Qed.

Lemma present_iff (booking : option Booking)
  (field : Booking -> option string) :
  present (booking ≫= field) = true
  <-> exists b t, booking = Some b /\ field b = Some t /\ t <> "".
Proof.
  destruct booking as [b|]; cbn.
  - destruct (field b) as [t|] eqn:Hfb; cbn.
    + rewrite negb_true_iff. destruct (String.eqb_spec t "") as [Ht|Ht]; split.
      * discriminate.
      * intros (b' & t' & Hb & Hf & Hne). by simplify_eq.
      * intros _. by exists b, t.
      * done.
    + split; [discriminate|].
      intros (b' & t' & Hb & Hf & _). by simplify_eq.
  - split; [discriminate|]. intros (b' & t' & Hb & _). discriminate Hb.
Qed.

Ltac case_role r :=
  repeat match goal with
         | |- context [String.eqb r ?lit] =>
             destruct (String.eqb_spec r lit); subst; cbn
         end.

Lemma can_pages_table (r : string) (a : Action) :
  can r a = permission_table_pages r a.
Proof.
  unfold permission_table_pages, permission_table.
  destruct a; cbn; unfold includes, submitRole, accountVerifyRole,
    adminVerifyRole; cbn; case_role r; reflexivity.
Qed.

Lemma pages_table_within_spec (r : string) (a : Action) :
  permission_table_pages r a = true -> permission_table r a = true.
Proof.
  destruct a; cbn; try done.
  unfold permission_table. case_role r; done.
Qed.

Lemma table_closed (r : string) (a : Action) :
  permission_table r a = true -> r ∈ all_roles.
Proof.
  unfold permission_table, all_roles. case_role r; try discriminate;
    intros _; set_solver.
Qed.

(** Where a side-bar entry leads to a route that lists roles (all entries
    but the first two), the entry is shown to exactly the users the route
    admits. *)
Lemma navigation_agrees_with_routes (user : option User) (item : NavItem) :
  item ∈ drop 2 navigation ->
  hasRole user (roles item) = routeAdmits (href item) user.
Proof.
  cbn. rewrite !elem_of_cons, elem_of_nil.
  intros [-> | [-> | [-> | [-> | []]]]]; by destruct user.
Qed.

Lemma filteredNavigation_routes (user : option User) (item : NavItem) :
  item ∈ drop 2 navigation ->
  item ∈ filteredNavigation user <-> routeAdmits (href item) user = true.
Proof.
  intros Hitem. unfold filteredNavigation.
  rewrite list_elem_of_filter, (navigation_agrees_with_routes _ _ Hitem).
  split; [by intros [? _]|]. intros H. split; [done|].
  apply (subseteq_drop 2 navigation). exact Hitem.
Qed.

(** C2 fails on the code: the table gives admin the Submit permission,
    but the detail page renders the submit button for [agent1] only. *)
Lemma admin_is_not_offered_submit :
  "admin" ∈ all_roles
  /\ permission_table "admin" Submit = true
  /\ can "admin" Submit = false
  /\ ~ (forall (r : string) (a : Action),
          r ∈ all_roles -> can r a = permission_table r a).
Proof.
  split; [unfold all_roles; set_solver|].
  split; [reflexivity|]. split; [reflexivity|].
  intros H. specialize (H "admin" Submit).
  discriminate H. unfold all_roles; set_solver.
Qed.

(** C2, amended.  For every role and every action of the table, [can]
    equals the table entry, except that Submit is offered to [agent1]
    alone, so that admin may do everything but submit.  [agent1] may
    create and submit and nothing else, [agent2] may do nothing, [account]
    may verify (account) and view reports only, and nobody, inside or
    outside the closed set of roles, has a permission the table does not
    list. *)
Theorem can_matches_table_except_admin_submit :
  (forall (r : string) (a : Action),
      can r a = permission_table_pages r a)
  /\ (forall (r : string) (a : Action),
        ~ (r = "admin" /\ a = Submit) -> can r a = permission_table r a)
  /\ (forall (r : string) (a : Action),
        can r a = true -> permission_table r a = true /\ r ∈ all_roles)
  /\ (forall a : Action,
        (can "agent1" a = true <-> a = CreateBooking \/ a = Submit)
        /\ can "agent2" a = false
        /\ (can "account" a = true <-> a = VerifyAccount \/ a = ViewReports)
        /\ (can "admin" a = true <-> a <> Submit))
  /\ (forall (user : option User) (item : NavItem),
        item ∈ drop 2 navigation ->
        item ∈ filteredNavigation user
        <-> routeAdmits (href item) user = true).
Proof.
  split; [exact can_pages_table|]. split; [|split; [|split]].
  - intros r a Hne. rewrite can_pages_table.
    destruct a; try reflexivity. cbn.
    unfold permission_table. case_role r; try reflexivity.
    destruct Hne. done.
  - intros r a Hcan. rewrite can_pages_table in Hcan.
    apply pages_table_within_spec in Hcan. split; [done|].
    by apply (table_closed r a).
  - intros a. repeat split; destruct a; cbn; intros; try done;
      try (by left); try (by right); try (by destruct H).
  - exact filteredNavigation_routes.
Qed.

Lemma can_matches_table_except_admin_submit_witness :
  can "account" ViewReports = permission_table "account" ViewReports
  /\ (permission_table "agent1" Submit = true /\ "agent1" ∈ all_roles)
  /\ (mkNavItem "Reports" "/reports" [ROLES.ACCOUNT; ROLES.ADMIN]
      ∈ filteredNavigation (Some (mkUser "Asha" "account"))
      <-> routeAdmits "/reports" (Some (mkUser "Asha" "account")) = true).
Proof.
  destruct can_matches_table_except_admin_submit
    as (_ & Hrest & Hsound & _ & Hnav).
  split; [|split].
  - apply Hrest. intros [H _]. discriminate H.
  - apply Hsound. reflexivity.
  - apply (Hnav (Some (mkUser "Asha" "account"))
             (mkNavItem "Reports" "/reports" [ROLES.ACCOUNT; ROLES.ADMIN])).
    cbn. rewrite !elem_of_cons. auto.
Defined.

End PagesProofs.

Module PayloadProofs.
Import CreateBookingPage.

Lemma nonEmpty_true (s : string) : nonEmpty s = true <-> s <> "".
Proof.
  unfold nonEmpty. rewrite negb_true_iff.
  destruct (String.eqb_spec s ""); split; congruence.
Qed.

Lemma legComplete_true (leg : TravelLeg.t) :
  legComplete leg = true
  <-> TravelLeg.travel_date leg <> ""
      /\ TravelLeg.from_location leg <> ""
      /\ TravelLeg.to_location leg <> "".
Proof.
  unfold legComplete. rewrite !andb_true_iff, !nonEmpty_true. tauto.
Qed.

(** C10.  In the payload posted by the create-booking page the
    [installments] field is [null] whenever the payment type is
    [full_payment] (indeed whenever it is not [installments]), and
    [travel_details.legs] holds, in their order, exactly the entered legs
    whose travel date, origin and destination are all non-empty; a leg
    with an empty field is left out and the payload is built all the
    same. *)
Theorem payload_installments_and_legs
  (parseFloat : string -> JS.number) (formData : FormData.t) :
  let payload := bookingData parseFloat formData in
  (FormData.payment_type formData = PAYMENT_TYPES.FULL_PAYMENT ->
   BookingData.installments payload = None)
  /\ (BookingData.installments payload = None
      <-> FormData.payment_type formData <> PAYMENT_TYPES.INSTALLMENTS)
  /\ TravelDetails.legs (BookingData.travel_details payload)
     = filter (fun leg => TravelLeg.travel_date leg <> ""
                          /\ TravelLeg.from_location leg <> ""
                          /\ TravelLeg.to_location leg <> "")
         (FormData.travel_legs formData)
  /\ (forall leg : TravelLeg.t,
        In leg (TravelDetails.legs (BookingData.travel_details payload))
        <-> In leg (FormData.travel_legs formData)
            /\ TravelLeg.travel_date leg <> ""
            /\ TravelLeg.from_location leg <> ""
            /\ TravelLeg.to_location leg <> "").
Proof.
  cbn. split; [|split; [|split]].
  - intros ->. reflexivity.
  - destruct (String.eqb_spec (FormData.payment_type formData)
                PAYMENT_TYPES.INSTALLMENTS) as [Heq|Hne];
      split; done.
  - induction (FormData.travel_legs formData) as [|leg legs IH]; [done|].
    cbn [List.filter]. rewrite filter_cons.
    destruct (legComplete leg) eqn:Hleg.
    + rewrite decide_True by (by apply legComplete_true). by rewrite IH.
    + rewrite decide_False; [done|].
      rewrite <- legComplete_true. by rewrite Hleg.
  - intros leg. rewrite filter_In, legComplete_true. done.
Qed.

Lemma payload_installments_and_legs_witness :
  BookingData.installments
    (bookingData (fun _ => JS.NaN)
       (FormData.mk "R. Mehta" "" "5550100" "ABC123" "AI" "s1" "400" "500"
          SECTOR_TYPES.ONE_WAY PAYMENT_TYPES.FULL_PAYMENT
          [TravelLeg.mk "2024-03-01" "DEL" "" ""] "" []))
  = None.
Proof.
  apply (proj1 (payload_installments_and_legs (fun _ => JS.NaN)
    (FormData.mk "R. Mehta" "" "5550100" "ABC123" "AI" "s1" "400" "500"
       SECTOR_TYPES.ONE_WAY PAYMENT_TYPES.FULL_PAYMENT
       [TravelLeg.mk "2024-03-01" "DEL" "" ""] "" []))).
  reflexivity.
Defined.

End PayloadProofs.

Module WorkflowProofs.
Import Workflow.

Lemma validate_inr (rq : Request) (st : State) (b : Booking) :
  validate rq st = inr b
  <-> bookings st !! req_id rq = Some b
      /\ permitted (req_action rq) (req_actor rq) b = true
      /\ status b = from_state (req_action rq).
Proof.
  unfold validate, load_booking.
  destruct (bookings st !! req_id rq) as [b0|]; [|split; [done|by intros []]].
  destruct (permitted (req_action rq) (req_actor rq) b0) eqn:Hp; cbn.
  - destruct (decide (status b0 = from_state (req_action rq))) as [Hs|Hs].
    + split; [by intros [= <-] | by intros ([= ->] & _)].
    + split; [done | by intros ([= ->] & _ & ?)].
  - split; [done|]. intros ([= ->] & Hp' & _). congruence.
Qed.

Lemma rollback_restores (σ : gmap nat Booking) (id : nat) (b b' : Booking) :
  σ !! id = Some b -> <[id := b]> (<[id := b']> σ) = σ.
Proof. intros H. rewrite insert_insert_eq. by apply insert_id. Qed.

Lemma commit_valid (rq : Request) (st : State) (b : Booking) :
  bookings st !! req_id rq = Some b ->
  status b = from_state (req_action rq) ->
  commit rq b st
  = if req_audit_ok rq
    then (inr (stamp (req_action rq) (req_now rq) b),
          mkState (<[req_id rq := stamp (req_action rq) (req_now rq) b]>
                     (bookings st))
            (audit_log st
             ++ [mkEntry (req_now rq) (req_actor rq) (req_action rq)
                   (req_id rq)])
            (next_id st))
    else (inl AuditFailure, st).
Proof.
  intros Hb Hs. unfold commit, save_booking. rewrite Hb.
  rewrite decide_True by done.
  destruct (req_audit_ok rq); [done|].
  rewrite (rollback_restores _ _ _ _ Hb). by destruct st.
Qed.

(** The five ways a request served on its own can end. *)
Lemma transition_cases (rq : Request) (st : State) :
  let a := req_action rq in
  (bookings st !! req_id rq = None
   /\ transition rq st = (inl NotFound, st))
  \/ (exists b, bookings st !! req_id rq = Some b
        /\ permitted a (req_actor rq) b = false
        /\ transition rq st = (inl Forbidden, st))
  \/ (exists b, bookings st !! req_id rq = Some b
        /\ permitted a (req_actor rq) b = true
        /\ status b <> from_state a
        /\ transition rq st = (inl InvalidTransition, st))
  \/ (exists b, bookings st !! req_id rq = Some b
        /\ permitted a (req_actor rq) b = true
        /\ status b = from_state a
        /\ req_audit_ok rq = false
        /\ transition rq st = (inl AuditFailure, st))
  \/ (exists b, bookings st !! req_id rq = Some b
        /\ permitted a (req_actor rq) b = true
        /\ status b = from_state a
        /\ req_audit_ok rq = true
        /\ transition rq st
           = (inr (stamp a (req_now rq) b),
              mkState (<[req_id rq := stamp a (req_now rq) b]> (bookings st))
                (audit_log st
                 ++ [mkEntry (req_now rq) (req_actor rq) a (req_id rq)])
                (next_id st))).
Proof.
  cbn. unfold transition.
  destruct (bookings st !! req_id rq) as [b|] eqn:Hb.
  2:{ left. unfold validate, load_booking. by rewrite Hb. }
  right.
  destruct (permitted (req_action rq) (req_actor rq) b) eqn:Hr.
  2:{ left. exists b. unfold validate, load_booking. by rewrite Hb, Hr. }
  right.
  destruct (decide (status b = from_state (req_action rq))) as [Hs|Hs].
  2:{ left. exists b. unfold validate, load_booking. rewrite Hb, Hr. cbn.
      by rewrite decide_False. }
  right.
  assert (Hv : validate rq st = inr b) by (by apply validate_inr).
  rewrite Hv, (commit_valid _ _ _ Hb Hs).
  destruct (req_audit_ok rq); [right | left]; by exists b.
Qed.

Lemma status_stamp (a : Action) (now : Z) (b : Booking) :
  status (stamp a now b) = to_state a.
Proof. by destruct a. Qed.

Lemma created_by_stamp (a : Action) (now : Z) (b : Booking) :
  created_by (stamp a now b) = created_by b.
Proof. by destruct a. Qed.

Lemma permitted_required (a : Action) (who : Actor) (b : Booking) :
  permitted a who b = true -> required_role a (actor_role who) = true.
Proof. unfold permitted. by intros [? _]%andb_prop. Qed.

Lemma transition_success (rq : Request) (st st' : State) (b' : Booking) :
  transition rq st = (inr b', st') ->
  exists b,
    bookings st !! req_id rq = Some b
    /\ permitted (req_action rq) (req_actor rq) b = true
    /\ status b = from_state (req_action rq)
    /\ b' = stamp (req_action rq) (req_now rq) b
    /\ req_audit_ok rq = true
    /\ st' = mkState (<[req_id rq := b']> (bookings st))
               (audit_log st
                ++ [mkEntry (req_now rq) (req_actor rq) (req_action rq)
                      (req_id rq)])
               (next_id st).
Proof.
  intros H.
  destruct (transition_cases rq st)
    as [(_ & E) | [(b & _ & _ & E) | [(b & _ & _ & _ & E)
       | [(b & _ & _ & _ & _ & E) | (b & Hb & Hr & Hs & Hok & E)]]]];
    rewrite E in H; try discriminate H.
  injection H as <- <-. by exists b.
Qed.

(** The detail page renders the button of an action for a role and a
    status exactly when the table has that edge for that role. *)
Lemma offered_iff_table (a : Action) (r : Role) (s : Status) :
  Front.offered a (Front.page_user r) (Front.page_booking s)
  = required_role a r && bool_decide (s = from_state a).
Proof. by destruct a, r, s. Qed.

Lemma offered_true_iff (a : Action) (r : Role) (s : Status) :
  Front.offered a (Front.page_user r) (Front.page_booking s) = true
  <-> required_role a r = true /\ s = from_state a.
Proof.
  rewrite offered_iff_table, andb_true_iff, bool_decide_eq_true. done.
Qed.

Lemma transition_mismatch (rq : Request) (st : State) (b : Booking) :
  bookings st !! req_id rq = Some b ->
  status b <> from_state (req_action rq) ->
  transition rq st
  = (inl (if permitted (req_action rq) (req_actor rq) b
          then InvalidTransition else Forbidden), st).
Proof.
  intros Hb Hs. unfold transition, validate, load_booking. rewrite Hb.
  destruct (permitted (req_action rq) (req_actor rq) b); cbn; [|done].
  by rewrite decide_False.
Qed.

Lemma transition_match (rq : Request) (st : State) (b : Booking) :
  bookings st !! req_id rq = Some b ->
  permitted (req_action rq) (req_actor rq) b = true ->
  status b = from_state (req_action rq) ->
  req_audit_ok rq = true ->
  transition rq st
  = (inr (stamp (req_action rq) (req_now rq) b),
     mkState (<[req_id rq := stamp (req_action rq) (req_now rq) b]>
                (bookings st))
       (audit_log st
        ++ [mkEntry (req_now rq) (req_actor rq) (req_action rq) (req_id rq)])
       (next_id st)).
Proof.
  intros Hb Hp Hs Hok.
  assert (Hv : validate rq st = inr b) by (by apply validate_inr).
  unfold transition. by rewrite Hv, (commit_valid _ _ _ Hb Hs), Hok.
Qed.

Lemma transition_status_change (rq : Request) (st : State) (id : nat)
  (b b' : Booking) :
  bookings st !! id = Some b ->
  bookings (snd (transition rq st)) !! id = Some b' ->
  b' = b
  \/ (id = req_id rq
      /\ permitted (req_action rq) (req_actor rq) b = true
      /\ status b = from_state (req_action rq)
      /\ status b' = to_state (req_action rq)).
Proof.
  intros Hb Hb'.
  destruct (transition_cases rq st)
    as [(_ & E) | [(b0 & _ & _ & E) | [(b0 & _ & _ & _ & E)
       | [(b0 & _ & _ & _ & _ & E) | (b0 & Hb0 & Hr & Hs & Hok & E)]]]];
    rewrite E in Hb'; cbn in Hb'; try (left; congruence).
  destruct (decide (req_id rq = id)) as [<-|Hne].
  - rewrite lookup_insert_eq in Hb'. injection Hb' as <-.
    right. rewrite status_stamp. split; [done|].
    assert (b0 = b) by congruence. subst b0. done.
  - rewrite lookup_insert_ne in Hb' by done. left. congruence.
Qed.

(** C1 fails on the model: the algorithm of section 4.2 checks the
    actor's permission before the status, so an attempt from a state that
    does not match by an actor without the permission fails with
    [Forbidden], not with [InvalidTransition].  Here [agent2] calls
    [verify_admin] on a [draft] booking. *)
Lemma mismatch_without_permission_is_forbidden :
  let creator := mkActor 7 agent1 in
  let st := snd (create_booking 10 creator initial) in
  let rq := mkRequest 0 verify_admin (mkActor 8 agent2) 20 true in
  (exists b, bookings st !! 0%nat = Some b
             /\ status b = draft
             /\ status b <> from_state (req_action rq))
  /\ transition rq st = (inl Forbidden, st)
  /\ ~ (forall (rq : Request) (st : State) (b : Booking),
          bookings st !! req_id rq = Some b ->
          status b <> from_state (req_action rq) ->
          fst (transition rq st) = inl InvalidTransition).
Proof.
  cbn zeta. split; [|split].
  - eexists. split; [reflexivity|]. split; [reflexivity | discriminate].
  - reflexivity.
  - intros H.
    specialize (H (mkRequest 0 verify_admin (mkActor 8 agent2) 20 true)
                  (snd (create_booking 10 (mkActor 7 agent1) initial))
                  (mkBooking draft 7 10 None None None) eq_refl).
    discriminate H. discriminate.
Qed.

(** C1, amended.  The booking status changes only along the transition
    table.  On the detail page the submit button is rendered exactly when
    the user's role is [agent1] and the booking is in [draft], the account
    verification button exactly when the role is [account] or [admin] and
    the booking is in [pending_verification], the admin verification
    button exactly when the role is [admin] and the booking is in
    [account_verified]; a button is rendered exactly when the table has
    the edge for that role.  In the transition service a request by an
    actor the table permits (for submit, the creator with role [agent1]),
    on a booking in the From state of its action, succeeds when its audit
    entry is recorded, and leaves the booking in the To state; a request
    succeeds in no other case; serving a request changes no other booking
    and changes a status in no other way.  A request whose booking is not
    in the From state fails and leaves the state as it was: with
    [InvalidTransition] when the actor is permitted, with [Forbidden]
    otherwise.  In particular the account role calling [verify_account]
    on a [draft] booking gets [InvalidTransition]. *)
Theorem status_changes_follow_table :
  (forall (user : option Pages.User) (booking : option Pages.Booking),
      Pages.showSubmit user booking = true
      <-> exists u b, user = Some u /\ booking = Some b
                      /\ Pages.role u = "agent1"
                      /\ Pages.status b = "draft")
  /\ (forall (user : option Pages.User) (booking : option Pages.Booking),
        Pages.showAccountVerify user booking = true
        <-> exists u b, user = Some u /\ booking = Some b
                        /\ (Pages.role u = "account"
                            \/ Pages.role u = "admin")
                        /\ Pages.status b = "pending_verification")
  /\ (forall (user : option Pages.User) (booking : option Pages.Booking),
        Pages.showAdminVerify user booking = true
        <-> exists u b, user = Some u /\ booking = Some b
                        /\ Pages.role u = "admin"
                        /\ Pages.status b = "account_verified")
  /\ (forall (a : Action) (r : Role) (s : Status),
        Front.offered a (Front.page_user r) (Front.page_booking s) = true
        <-> required_role a r = true /\ s = from_state a)
  /\ (forall (rq : Request) (st : State) (b : Booking),
        bookings st !! req_id rq = Some b ->
        permitted (req_action rq) (req_actor rq) b = true ->
        status b = from_state (req_action rq) ->
        req_audit_ok rq = true ->
        exists b' st',
          transition rq st = (inr b', st')
          /\ status b' = to_state (req_action rq)
          /\ bookings st' !! req_id rq = Some b')
  /\ (forall (rq : Request) (st st' : State) (b' : Booking),
        transition rq st = (inr b', st') ->
        exists b,
          bookings st !! req_id rq = Some b
          /\ required_role (req_action rq) (actor_role (req_actor rq)) = true
          /\ permitted (req_action rq) (req_actor rq) b = true
          /\ status b = from_state (req_action rq)
          /\ status b' = to_state (req_action rq)
          /\ bookings st' !! req_id rq = Some b')
  /\ (forall (rq : Request) (st : State) (id : nat) (b b' : Booking),
        bookings st !! id = Some b ->
        bookings (snd (transition rq st)) !! id = Some b' ->
        b' = b
        \/ (id = req_id rq
            /\ permitted (req_action rq) (req_actor rq) b = true
            /\ status b = from_state (req_action rq)
            /\ status b' = to_state (req_action rq)))
  /\ (forall (rq : Request) (st : State) (b : Booking),
        bookings st !! req_id rq = Some b ->
        status b <> from_state (req_action rq) ->
        transition rq st
        = (inl (if permitted (req_action rq) (req_actor rq) b
                then InvalidTransition else Forbidden), st))
  /\ (forall (st : State) (id who : nat) (b : Booking) (now : Z) (ok : bool),
        bookings st !! id = Some b ->
        status b = draft ->
        transition (mkRequest id verify_account (mkActor who account) now ok)
          st
        = (inl InvalidTransition, st)).
Proof.
  split; [exact PagesProofs.showSubmit_iff|].
  split; [exact PagesProofs.showAccountVerify_iff|].
  split; [exact PagesProofs.showAdminVerify_iff|].
  split; [exact offered_true_iff|].
  split; [|split; [|split; [exact transition_status_change|]]].
  - intros rq st b Hb Hp Hs Hok. eexists _, _.
    split; [by apply transition_match|].
    split; [apply status_stamp|]. cbn. by rewrite lookup_insert_eq.
  - intros rq st st' b' H.
    destruct (transition_success _ _ _ _ H)
      as (b & Hb & Hr & Hs & -> & _ & ->).
    exists b. rewrite status_stamp. cbn. rewrite lookup_insert_eq.
    pose proof (permitted_required _ _ _ Hr). done.
  - split; [exact transition_mismatch|].
    intros st id who b now ok Hb Hs.
    rewrite (transition_mismatch _ st b); cbn; [done | done |].
    by rewrite Hs.
Qed.

Lemma status_changes_follow_table_witness :
  let st := snd (create_booking 10 (mkActor 7 agent1) initial) in
  let submit0 := mkRequest 0 submit (mkActor 7 agent1) 20 true in
  (exists b' st',
      transition submit0 st = (inr b', st')
      /\ status b' = pending_verification
      /\ bookings st' !! 0%nat = Some b')
  /\ (exists b,
        bookings st !! 0%nat = Some b
        /\ required_role submit agent1 = true
        /\ permitted submit (mkActor 7 agent1) b = true
        /\ status b = draft
        /\ status (mkBooking pending_verification 7 10 (Some 20) None None)
           = pending_verification
        /\ bookings (snd (transition submit0 st)) !! 0%nat
           = Some (mkBooking pending_verification 7 10 (Some 20) None None))
  /\ (mkBooking pending_verification 7 10 (Some 20) None None
      = mkBooking draft 7 10 None None None
      \/ (0%nat = 0%nat
          /\ permitted submit (mkActor 7 agent1)
               (mkBooking draft 7 10 None None None) = true
          /\ draft = draft
          /\ pending_verification = pending_verification))
  /\ transition (mkRequest 0 verify_admin (mkActor 9 agent2) 20 true) st
     = (inl Forbidden, st)
  /\ transition (mkRequest 0 verify_admin (mkActor 8 admin) 20 true) st
     = (inl InvalidTransition, st)
  /\ transition (mkRequest 0 verify_account (mkActor 5 account) 20 true) st
     = (inl InvalidTransition, st).
Proof.
  destruct status_changes_follow_table
    as (_ & _ & _ & _ & Hgo & Hok & Hchange & Hmis & Hscenario).
  cbn zeta. split; [|split; [|split; [|split; [|split]]]].
  - apply (Hgo (mkRequest 0 submit (mkActor 7 agent1) 20 true)
             (snd (create_booking 10 (mkActor 7 agent1) initial))
             (mkBooking draft 7 10 None None None)); reflexivity.
  - apply (Hok (mkRequest 0 submit (mkActor 7 agent1) 20 true)
             (snd (create_booking 10 (mkActor 7 agent1) initial))
             (snd (transition (mkRequest 0 submit (mkActor 7 agent1) 20 true)
                     (snd (create_booking 10 (mkActor 7 agent1) initial))))).
    reflexivity.
  - apply (Hchange (mkRequest 0 submit (mkActor 7 agent1) 20 true)
             (snd (create_booking 10 (mkActor 7 agent1) initial)) 0%nat
             (mkBooking draft 7 10 None None None)
             (mkBooking pending_verification 7 10 (Some 20) None None));
      reflexivity.
  - apply (Hmis (mkRequest 0 verify_admin (mkActor 9 agent2) 20 true)
             (snd (create_booking 10 (mkActor 7 agent1) initial))
             (mkBooking draft 7 10 None None None));
      [reflexivity | discriminate].
  - apply (Hmis (mkRequest 0 verify_admin (mkActor 8 admin) 20 true)
             (snd (create_booking 10 (mkActor 7 agent1) initial))
             (mkBooking draft 7 10 None None None));
      [reflexivity | discriminate].
  - apply (Hscenario (snd (create_booking 10 (mkActor 7 agent1) initial))
             0%nat 5%nat (mkBooking draft 7 10 None None None) 20 true);
      reflexivity.
Defined.

(** *** The audit trail *)

Lemma entries_of_snoc (id : nat) (log : list AuditLogEntry)
  (e : AuditLogEntry) :
  entries_of id (log ++ [e])
  = entries_of id log ++ (if Nat.eqb (entity_id e) id then [e] else []).
Proof. unfold entries_of. by rewrite List.filter_app. Qed.

Lemma entries_of_fresh (n : nat) (log : list AuditLogEntry) :
  Forall (fun e => (entity_id e < n)%nat) log -> entries_of n log = [].
Proof.
  induction 1 as [|e log He _ IH]; [done|].
  cbn. destruct (Nat.eqb_spec (entity_id e) n); [lia | done].
Qed.

Lemma create_keeps_audited (now : Z) (creator : Actor) (st : State) :
  ids_fresh st -> audited st ->
  ids_fresh (snd (create_booking now creator st))
  /\ audited (snd (create_booking now creator st)).
Proof.
  intros [Hids Hlog] Haud. unfold create_booking, ids_fresh, audited.
  cbn [snd bookings audit_log next_id]. split; [split|].
  - intros id b. destruct (decide (next_id st = id)) as [<-|Hne].
    + intros _. lia.
    + rewrite lookup_insert_ne by done. intros H%Hids. lia.
  - eapply Forall_impl; [exact Hlog|]. cbn. intros e He. lia.
  - intros id b. destruct (decide (next_id st = id)) as [<-|Hne].
    + rewrite lookup_insert_eq. intros [= <-].
      by rewrite (entries_of_fresh _ _ Hlog).
    + rewrite lookup_insert_ne by done. apply Haud.
Qed.

Lemma rank_step (a : Action) :
  rank (to_state a) = S (rank (from_state a)).
Proof. by destruct a. Qed.

Lemma transition_keeps_audited (rq : Request) (st : State) :
  ids_fresh st -> audited st ->
  ids_fresh (snd (transition rq st)) /\ audited (snd (transition rq st)).
Proof.
  intros [Hids Hlog] Haud.
  destruct (transition_cases rq st)
    as [(_ & E) | [(b0 & _ & _ & E) | [(b0 & _ & _ & _ & E)
       | [(b0 & _ & _ & _ & _ & E) | (b0 & Hb0 & Hr & Hs & Hok & E)]]]];
    rewrite E; cbn [snd]; try done.
  unfold ids_fresh, audited. cbn [bookings audit_log next_id].
  split; [split|].
  - intros id b. destruct (decide (req_id rq = id)) as [<-|Hne].
    + intros _. by apply (Hids _ b0).
    + rewrite lookup_insert_ne by done. apply Hids.
  - apply Forall_app. split; [done|].
    apply List.Forall_cons; [cbn; by apply (Hids _ b0) | done].
  - intros id b. rewrite entries_of_snoc. cbn [entity_id].
    rewrite List.length_app.
    destruct (decide (req_id rq = id)) as [<-|Hne].
    + rewrite lookup_insert_eq. intros [= <-].
      rewrite status_stamp, rank_step, Nat.eqb_refl, <- Hs. cbn.
      rewrite (Haud _ _ Hb0). lia.
    + rewrite lookup_insert_ne by done. intros Hb.
      destruct (Nat.eqb_spec (req_id rq) id); [done|]. cbn.
      rewrite (Haud _ _ Hb). lia.
Qed.

Lemma run_keeps_audited (ops : list Op) :
  forall st : State,
    ids_fresh st -> audited st ->
    ids_fresh (run ops st) /\ audited (run ops st).
Proof.
  induction ops as [|op ops IH]; intros st Hf Ha; [done|].
  cbn. apply IH; destruct op as [now creator|rq]; cbn.
  - by apply create_keeps_audited.
  - by apply transition_keeps_audited.
  - by apply create_keeps_audited.
  - by apply transition_keeps_audited.
Qed.

Lemma initial_audited : ids_fresh initial /\ audited initial.
Proof.
  unfold ids_fresh, audited, initial. cbn [bookings audit_log next_id].
  split; [split|]; [| by apply Forall_nil |];
    intros id b H; by rewrite lookup_empty in H.
Qed.




(** *** Timestamps *)

Lemma populated_Some_elim {A} (x : A) (P : Prop) :
  (is_Some (Some x) <-> P) -> P.
Proof. intros [H _]. apply H. by exists x. Qed.

Lemma populated_None_elim {A} (P : Prop) :
  (is_Some (@None A) <-> P) -> ~ P.
Proof. intros [_ H] HP. by destruct (H HP). Qed.

Lemma populated_Some_intro {A} (x : A) (P : Prop) :
  P -> (is_Some (Some x) <-> P).
Proof. intros HP. split; [done | by exists x]. Qed.

Lemma populated_None_intro {A} (P : Prop) :
  ~ P -> (is_Some (@None A) <-> P).
Proof. intros HP. split; [by intros [? ?] | done]. Qed.

Ltac use_populated :=
  repeat match goal with
         | H : is_Some (Some _) <-> _ |- _ => apply populated_Some_elim in H
         | H : is_Some None <-> _ |- _ => apply populated_None_elim in H
         end.

Ltac use_sorted :=
  repeat match goal with
         | H : StronglySorted _ (_ :: _) |- _ =>
             apply StronglySorted_inv in H as [? ?]
         | H : Forall _ (_ :: _) |- _ => apply Forall_cons_1 in H as [? ?]
         end.

Ltac show_sorted :=
  repeat first [ apply SSorted_nil | apply SSorted_cons
               | apply Forall_nil_2 | apply Forall_cons_2 ].

Lemma stamp_well_stamped (a : Action) (now clk : Z) (b : Booking) :
  well_stamped b ->
  Forall (fun t => t <= clk) (timeline b) ->
  clk <= now ->
  status b = from_state a ->
  well_stamped (stamp a now b)
  /\ Forall (fun t => t <= now) (timeline (stamp a now b)).
Proof.
  destruct b as [s cb c o1 o2 o3]. unfold well_stamped, timeline. cbn.
  intros (H1 & H2 & H3 & Hs) Hle Hclk ->.
  destruct a, o1 as [t1|], o2 as [t2|], o3 as [t3|]; cbn in *;
    use_populated; try lia; use_sorted;
    (split; [split; [|split; [|split]]|]);
    try first [ apply populated_Some_intro; lia
              | apply populated_None_intro; lia ];
    show_sorted; lia.
Qed.

Lemma timeline_later (clk clk' : Z) (b : Booking) :
  clk <= clk' ->
  Forall (fun t => t <= clk) (timeline b) ->
  Forall (fun t => t <= clk') (timeline b).
Proof.
  intros Hle H. eapply Forall_impl; [exact H|]. cbn. intros t Ht. lia.
Qed.

Lemma exec_keeps_stamped (clk : Z) (st : State) (op : Op) :
  stamped_until clk st ->
  clk <= op_now op ->
  stamped_until (op_now op) (exec st op).
Proof.
  intros Hst Hclk. destruct op as [now creator|rq]; cbn [exec op_now].
  - unfold create_booking, stamped_until. cbn [snd bookings].
    intros id b. destruct (decide (next_id st = id)) as [<-|Hne].
    + rewrite lookup_insert_eq. intros [= <-].
      unfold well_stamped, timeline. cbn.
      split; [split; [|split; [|split]]|];
        try (apply populated_None_intro; lia); show_sorted; lia.
    + rewrite lookup_insert_ne by done. intros Hb.
      destruct (Hst _ _ Hb) as [Hw Hle]. split; [done|].
      by apply (timeline_later clk).
  - unfold stamped_until in *.
    destruct (transition_cases rq st)
      as [(_ & E) | [(b0 & _ & _ & E) | [(b0 & _ & _ & _ & E)
         | [(b0 & _ & _ & _ & _ & E) | (b0 & Hb0 & Hr & Hs & Hok & E)]]]];
      rewrite E; cbn [snd bookings];
      try (intros id b Hb; destruct (Hst _ _ Hb) as [Hw Hle];
           split; [done | by apply (timeline_later clk)]).
    intros id b. destruct (decide (req_id rq = id)) as [<-|Hne].
    + rewrite lookup_insert_eq. intros [= <-].
      destruct (Hst _ _ Hb0) as [Hw Hle].
      by apply (stamp_well_stamped _ _ clk).
    + rewrite lookup_insert_ne by done. intros Hb.
      destruct (Hst _ _ Hb) as [Hw Hle]. split; [done|].
      by apply (timeline_later clk).
Qed.

Lemma run_keeps_stamped (ops : list Op) :
  forall (clk : Z) (st : State),
    stamped_until clk st ->
    StronglySorted Z.le (clk :: (op_now <$> ops)) ->
    exists clk', stamped_until clk' (run ops st).
Proof.
  induction ops as [|op ops IH]; intros clk st Hst Hsorted.
  - by exists clk.
  - cbn in Hsorted. apply StronglySorted_inv in Hsorted as [Hrest Hhead].
    apply Forall_cons_1 in Hhead as [Hop _].
    cbn [run fold_left]. apply (IH (op_now op)); [|done].
    by apply (exec_keeps_stamped clk).
Qed.

Lemma initial_stamped (clk : Z) : stamped_until clk initial.
Proof. intros id b H. cbn in H. by rewrite lookup_empty in H. Qed.

Lemma run_well_stamped (ops : list Op) (id : nat) (b : Booking) :
  StronglySorted Z.le (op_now <$> ops) ->
  bookings (run ops initial) !! id = Some b ->
  well_stamped b.
Proof.
  intros Hsorted Hb. destruct ops as [|op ops].
  - cbn in Hb. by rewrite lookup_empty in Hb.
  - cbn in Hsorted.
    destruct (run_keeps_stamped (op :: ops) (op_now op) initial
                (initial_stamped _)) as [clk' Hst].
    + cbn. apply SSorted_cons; [done|].
      apply Forall_cons_2; [lia|].
      by apply StronglySorted_inv in Hsorted as [_ ?].
    + by destruct (Hst _ _ Hb).
Qed.

Lemma run_snoc (ops : list Op) (op : Op) (st : State) :
  run (ops ++ [op]) st = exec (run ops st) op.
Proof. unfold run. by rewrite fold_left_app. Qed.

Lemma well_stamped_populated (b : Booking) : well_stamped b -> populated b.
Proof. intros (H1 & H2 & H3 & _). exact (conj H1 (conj H2 H3)). Qed.

Lemma stamp_populated (a : Action) (now : Z) (b : Booking) :
  populated b ->
  status b = from_state a ->
  populated (stamp a now b).
Proof.
  destruct b as [s cb c o1 o2 o3]. unfold populated. cbn.
  intros (H1 & H2 & H3) ->.
  destruct a, o1 as [t1|], o2 as [t2|], o3 as [t3|]; cbn in *;
    use_populated; try lia;
    (split; [|split]);
    first [ apply populated_Some_intro; lia
          | apply populated_None_intro; lia ].
Qed.

Lemma exec_keeps_populated (st : State) (op : Op) :
  (forall id b, bookings st !! id = Some b -> populated b) ->
  forall id b, bookings (exec st op) !! id = Some b -> populated b.
Proof.
  intros Hst id b. destruct op as [now creator|rq]; cbn [exec].
  - unfold create_booking. cbn [snd bookings].
    destruct (decide (next_id st = id)) as [<-|Hne].
    + rewrite lookup_insert_eq. intros [= <-]. unfold populated. cbn.
      repeat split; try (intros [? [=]]); lia.
    + rewrite lookup_insert_ne by done. apply Hst.
  - destruct (transition_cases rq st)
      as [(_ & E) | [(b0 & _ & _ & E) | [(b0 & _ & _ & _ & E)
         | [(b0 & _ & _ & _ & _ & E) | (b0 & Hb0 & Hr & Hs & Hok & E)]]]];
      rewrite E; cbn [snd bookings]; try apply Hst.
    destruct (decide (req_id rq = id)) as [<-|Hne].
    + rewrite lookup_insert_eq. intros [= <-].
      apply stamp_populated; [by apply (Hst _ _ Hb0) | done].
    + rewrite lookup_insert_ne by done. apply Hst.
Qed.

Lemma run_populated (ops : list Op) :
  forall st : State,
    (forall id b, bookings st !! id = Some b -> populated b) ->
    forall id b, bookings (run ops st) !! id = Some b -> populated b.
Proof.
  induction ops as [|op ops IH]; intros st Hst; [done|].
  cbn [run fold_left]. apply IH. by apply exec_keeps_populated.
Qed.

Lemma passed_through_snoc (ops : list Op) (op : Op) (id : nat) (s : Status) :
  passed_through (ops ++ [op]) id s
  <-> passed_through ops id s
      \/ status <$> bookings (run (ops ++ [op]) initial) !! id = Some s.
Proof.
  unfold passed_through. split.
  - intros [k Hk]. destruct (decide (k <= List.length ops)%nat) as [Hle|Hgt].
    + left. exists k. by rewrite take_app_le in Hk.
    + right. rewrite take_ge in Hk; [done|].
      rewrite List.length_app. cbn. lia.
  - intros [[k Hk] | H].
    + exists (min k (List.length ops)).
      rewrite take_app_le by lia.
      destruct (decide (k <= List.length ops)%nat) as [Hle|Hgt].
      * by rewrite Nat.min_l.
      * rewrite Nat.min_r by lia. rewrite take_ge in Hk by lia.
        by rewrite take_ge.
    + exists (S (List.length ops)). rewrite take_ge; [done|].
      rewrite List.length_app. cbn. lia.
Qed.

Lemma path_step (a : Action) (b : Booking) (s : Status) :
  status b = from_state a ->
  (on_path s = true /\ (rank s <= rank (status b))%nat) \/ to_state a = s
  <-> on_path s = true /\ (rank s <= rank (to_state a))%nat.
Proof.
  intros ->. destruct a, s; cbn; split;
    try (intros [[? ?] | ?]; (split; [done | lia]) || done);
    try (intros [? ?]; first [ discriminate | right; done
                             | left; split; [done | lia] | lia ]).
Qed.

Lemma history_path (ops : list Op) : path_so_far ops.
Proof.
  induction ops as [|op ops IH] using rev_ind.
  - intros id. cbn. rewrite lookup_empty. intros s [k Hk].
    rewrite take_nil in Hk. cbn in Hk. by rewrite lookup_empty in Hk.
  - intros id. specialize (IH id).
    destruct (run_keeps_audited ops initial (proj1 initial_audited)
                (proj2 initial_audited)) as [[Hids _] _].
    rewrite run_snoc. set (st := run ops initial) in *.
    assert (Hnow : forall s,
               passed_through (ops ++ [op]) id s
               <-> passed_through ops id s
                   \/ status <$> bookings (exec st op) !! id = Some s).
    { intros s. rewrite passed_through_snoc, run_snoc. done. }
    destruct op as [now creator|rq]; cbn [exec] in *.
    + unfold create_booking in *. cbn [snd bookings] in *.
      destruct (decide (next_id st = id)) as [<-|Hne].
      * rewrite lookup_insert_eq in *.
        destruct (bookings st !! next_id st) as [b0|] eqn:Hb0.
        { apply Hids in Hb0. lia. }
        intros s. rewrite Hnow. cbn. split.
        -- intros [H | [= <-]]; [by apply IH in H | done].
        -- intros [Hp Hr]. right. destruct s; try done; cbn in Hr; lia.
      * rewrite lookup_insert_ne in * by done.
        destruct (bookings st !! id) as [b|] eqn:Hb.
        -- intros s. rewrite Hnow, <- IH. cbn. split; [|by left].
           intros [H | [= <-]]; [done|]. apply IH. split; [|done].
           assert (Hp : passed_through ops id (status b)).
           { exists (List.length ops). rewrite take_ge by done.
             fold st. by rewrite Hb. }
           by apply IH in Hp as [? _].
        -- intros s. rewrite Hnow. cbn. intros [H | [=]]. by apply IH in H.
    + destruct (transition_cases rq st)
        as [(_ & E) | [(b0 & _ & _ & E) | [(b0 & _ & _ & _ & E)
           | [(b0 & _ & _ & _ & _ & E) | (b0 & Hb0 & Hr & Hs & Hok & E)]]]];
        rewrite E in *; cbn [snd bookings] in *.
      1-4: destruct (bookings st !! id) as [b|] eqn:Hb;
        [ intros s; rewrite Hnow, <- IH; cbn; split; [|by left];
          intros [H | [= <-]]; [done|]; exists (List.length ops);
          rewrite take_ge by done; fold st; by rewrite Hb
        | intros s; rewrite Hnow; cbn; intros [H | [=]]; by apply IH in H ].
      destruct (decide (req_id rq = id)) as [<-|Hne].
      * rewrite lookup_insert_eq in *. rewrite Hb0 in IH.
        intros s. rewrite Hnow, IH. cbn. rewrite status_stamp.
        rewrite <- (path_step _ b0 s Hs). split.
        -- intros [H | [= <-]]; [by left | by right].
        -- intros [H | <-]; [by left | by right].
      * rewrite lookup_insert_ne in * by done.
        destruct (bookings st !! id) as [b|] eqn:Hb.
        -- intros s. rewrite Hnow, <- IH. cbn. split; [|by left].
           intros [H | [= <-]]; [done|]. exists (List.length ops).
           rewrite take_ge by done. fold st. by rewrite Hb.
        -- intros s. rewrite Hnow. cbn. intros [H | [=]]. by apply IH in H.
Qed.

Lemma populated_iff_passed (ops : list Op) (id : nat) (b : Booking) :
  bookings (run ops initial) !! id = Some b ->
  (is_Some (submitted_at b) <-> passed_through ops id pending_verification)
  /\ (is_Some (account_verified_at b)
      <-> passed_through ops id account_verified)
  /\ (is_Some (admin_verified_at b)
      <-> passed_through ops id admin_verified).
Proof.
  intros Hb. pose proof (history_path ops id) as Hpath. rewrite Hb in Hpath.
  assert (Hpop : populated b).
  { apply (run_populated ops initial) with (id := id); [|done].
    intros id' b' H. cbn in H. by rewrite lookup_empty in H. }
  destruct Hpop as (H1 & H2 & H3).
  rewrite H1, H2, H3, !Hpath. cbn. intuition.
Qed.

(** C6 fails on the model when the clock goes back: the service stamps
    each transition with the reading [now] it is handed, and nothing
    compares that reading with the timestamps the booking already carries.
    A booking created at 10 and submitted with the reading 5 is stored
    with [submitted_at] 5 before [created_at] 10. *)
Lemma clock_going_back_breaks_order :
  let creator := mkActor 7 agent1 in
  let ops := [Create 10 creator;
              Transit (mkRequest 0 submit creator 5 true)] in
  bookings (run ops initial) !! 0%nat
  = Some (mkBooking pending_verification 7 10 (Some 5) None None)
  /\ ~ well_stamped (mkBooking pending_verification 7 10 (Some 5) None None)
  /\ ~ (forall (ops : list Op) (id : nat) (b : Booking),
          bookings (run ops initial) !! id = Some b ->
          forall s, submitted_at b = Some s -> created_at b <= s).
Proof.
  cbn zeta. split; [reflexivity|]. split.
  - intros (_ & _ & _ & Hs). unfold timeline in Hs. cbn in Hs.
    apply StronglySorted_inv in Hs as [_ Hs].
    apply Forall_cons_1 in Hs as [Hs _]. lia.
  - intros H.
    specialize (H [Create 10 (mkActor 7 agent1);
                   Transit (mkRequest 0 submit (mkActor 7 agent1) 5 true)]
                  0%nat
                  (mkBooking pending_verification 7 10 (Some 5) None None)
                  eq_refl 5 eq_refl).
    cbn in H. lia.
Qed.

(** C6, amended.  In every history of creations and transition requests,
    whatever the audit recorder answers, a stored booking carries
    [submitted_at], [account_verified_at] and [admin_verified_at] exactly
    when it has passed through [pending_verification], [account_verified]
    and [admin_verified] respectively.  When the clock readings of the
    history do not decrease, the timestamps a booking carries are
    non-decreasing in the order created, submitted, account verified,
    admin verified.  In particular, when [verify_admin] succeeds the
    returned booking has all four timestamps, [admin_verified_at] being
    the reading of that request, and when the clock readings have not
    decreased,
    [created_at <= submitted_at <= account_verified_at
    <= admin_verified_at].  On the detail page each of the three rows is
    rendered exactly when the fetched booking carries the timestamp. *)
Theorem timestamps_ordered_and_populated :
  (forall booking : option Pages.Booking,
      (Pages.showSubmittedAt booking = true
       <-> exists b t, booking = Some b
                       /\ Pages.submitted_at b = Some t /\ t <> "")
      /\ (Pages.showAccountVerifiedAt booking = true
          <-> exists b t, booking = Some b
                          /\ Pages.account_verified_at b = Some t
                          /\ t <> "")
      /\ (Pages.showAdminVerifiedAt booking = true
          <-> exists b t, booking = Some b
                          /\ Pages.admin_verified_at b = Some t
                          /\ t <> ""))
  /\ (forall (ops : list Op) (id : nat) (b : Booking),
        bookings (run ops initial) !! id = Some b ->
        (is_Some (submitted_at b)
         <-> passed_through ops id pending_verification)
        /\ (is_Some (account_verified_at b)
            <-> passed_through ops id account_verified)
        /\ (is_Some (admin_verified_at b)
            <-> passed_through ops id admin_verified))
  /\ (forall (ops : list Op) (id : nat) (b : Booking),
        StronglySorted Z.le (op_now <$> ops) ->
        bookings (run ops initial) !! id = Some b ->
        well_stamped b)
  /\ (forall (ops : list Op) (id : nat) (b : Booking),
        StronglySorted Z.le (op_now <$> ops) ->
        bookings (run ops initial) !! id = Some b ->
        (forall s, submitted_at b = Some s -> created_at b <= s)
        /\ (forall v, account_verified_at b = Some v ->
                      created_at b <= v
                      /\ forall s, submitted_at b = Some s -> s <= v)
        /\ (forall w, admin_verified_at b = Some w ->
                      created_at b <= w
                      /\ (forall s, submitted_at b = Some s -> s <= w)
                      /\ forall v, account_verified_at b = Some v -> v <= w))
  /\ (forall (ops : list Op) (rq : Request) (st' : State) (b' : Booking),
        req_action rq = verify_admin ->
        transition rq (run ops initial) = (inr b', st') ->
        exists s v w,
          submitted_at b' = Some s
          /\ account_verified_at b' = Some v
          /\ admin_verified_at b' = Some w
          /\ admin_verified_at b' = Some (req_now rq)
          /\ (StronglySorted Z.le (op_now <$> ops ++ [Transit rq]) ->
              created_at b' <= s /\ s <= v /\ v <= w)).
Proof.
  split.
  { intros booking. split; [|split]; apply PagesProofs.present_iff. }
  split; [exact populated_iff_passed|].
  split; [exact run_well_stamped|]. split.
  { intros ops id b Hsorted Hb.
    destruct (run_well_stamped _ _ _ Hsorted Hb) as (_ & _ & _ & Hs).
    unfold timeline in Hs.
    destruct (submitted_at b) as [s|], (account_verified_at b) as [v|],
      (admin_verified_at b) as [w|]; cbn in Hs; use_sorted;
      (split; [|split]); intros; repeat split; intros;
      simplify_eq; done. }
  intros ops rq st' b' Ha Htr.
  assert (Hb' : bookings (run (ops ++ [Transit rq]) initial) !! req_id rq
                = Some b').
  { rewrite run_snoc. cbn [exec]. rewrite Htr. cbn [snd].
    destruct (transition_success _ _ _ _ Htr)
      as (b & _ & _ & _ & _ & _ & ->).
    cbn. by rewrite lookup_insert_eq. }
  assert (Hpop : populated b').
  { apply (run_populated (ops ++ [Transit rq]) initial)
      with (id := req_id rq); [|done].
    intros id' b0 H. cbn in H. by rewrite lookup_empty in H. }
  destruct (transition_success _ _ _ _ Htr)
    as (b & _ & _ & _ & Hstamp & _ & _).
  rewrite Ha in Hstamp. subst b'. unfold populated in Hpop.
  cbn in Hpop. destruct Hpop as (H1 & H2 & _).
  destruct (submitted_at b) as [s|] eqn:Es,
    (account_verified_at b) as [v|] eqn:Ev;
    use_populated; try lia.
  exists s, v, (req_now rq). cbn. rewrite Es, Ev.
  split; [done|]. split; [done|]. split; [done|]. split; [done|].
  intros Hsorted.
  pose proof (run_well_stamped _ _ _ Hsorted Hb') as (_ & _ & _ & Hs).
  unfold timeline in Hs. cbn in Hs. rewrite Es, Ev in Hs. cbn in Hs.
  use_sorted. done.
Qed.

Lemma timestamps_ordered_and_populated_witness :
  let creator := mkActor 7 agent1 in
  let ops := [Create 10 creator;
              Transit (mkRequest 0 submit creator 20 true);
              Transit (mkRequest 0 verify_account (mkActor 5 account) 20
                         true)] in
  (is_Some (Some 20) <-> passed_through ops 0 pending_verification)
  /\ well_stamped (mkBooking account_verified 7 10 (Some 20) (Some 20) None)
  /\ 10 <= 20
  /\ exists s v w,
       submitted_at
         (mkBooking admin_verified 7 10 (Some 20) (Some 20) (Some 35))
       = Some s
       /\ account_verified_at
            (mkBooking admin_verified 7 10 (Some 20) (Some 20) (Some 35))
          = Some v
       /\ admin_verified_at
            (mkBooking admin_verified 7 10 (Some 20) (Some 20) (Some 35))
          = Some w
       /\ admin_verified_at
            (mkBooking admin_verified 7 10 (Some 20) (Some 20) (Some 35))
          = Some 35
       /\ created_at
            (mkBooking admin_verified 7 10 (Some 20) (Some 20) (Some 35)) <= s
       /\ s <= v /\ v <= w.
Proof.
  destruct timestamps_ordered_and_populated
    as (_ & Hpassed & Hall & Hpairs & Hadmin).
  cbn zeta.
  set (ops := [Create 10 (mkActor 7 agent1);
               Transit (mkRequest 0 submit (mkActor 7 agent1) 20 true);
               Transit (mkRequest 0 verify_account (mkActor 5 account) 20
                          true)]).
  split; [|split; [|split]].
  - apply (Hpassed ops 0%nat
             (mkBooking account_verified 7 10 (Some 20) (Some 20) None)).
    reflexivity.
  - apply (Hall ops 0%nat).
    + cbn. show_sorted; lia.
    + reflexivity.
  - destruct (Hpairs ops 0%nat
                (mkBooking account_verified 7 10 (Some 20) (Some 20) None))
      as (Hcreated & _).
    + cbn. show_sorted; lia.
    + reflexivity.
    + apply (Hcreated 20). reflexivity.
  - destruct (Hadmin ops
                (mkRequest 0 verify_admin (mkActor 8 admin) 35 true)
                (snd (transition
                        (mkRequest 0 verify_admin (mkActor 8 admin) 35 true)
                        (run ops initial)))
                (mkBooking admin_verified 7 10 (Some 20) (Some 20) (Some 35))
                eq_refl eq_refl)
      as (s & v & w & Hs & Hv & Hw & Hnow & Horder).
    exists s, v, w. split; [done|]. split; [done|]. split; [done|].
    split; [done|]. apply Horder. cbn. show_sorted; lia.
Defined.

(** *** Two requests racing for one booking *)

Lemma from_to_differ (a : Action) : from_state a <> to_state a.
Proof. by destruct a. Qed.

Lemma permitted_stamp (a a' : Action) (who : Actor) (now : Z) (b : Booking) :
  permitted a who (stamp a' now b) = permitted a who b.
Proof. unfold permitted. by rewrite created_by_stamp. Qed.

(** A request served on its own through its four steps answers and
    leaves the store exactly as [transition] does. *)
Lemma solo_transition (rq : Request) (st : State) :
  solo rq st = (Done (fst (transition rq st)), snd (transition rq st)).
Proof.
  unfold solo, transition. cbn [thread_step].
  destruct (validate rq st) as [e|b] eqn:Hv; [done|].
  apply validate_inr in Hv as (Hb & Hp & Hs).
  cbn [thread_step]. unfold commit, save_booking.
  rewrite !Hb, !decide_True by done. cbn [thread_step].
  destruct (req_audit_ok rq);
    cbn [thread_step fst snd bookings audit_log next_id]; done.
Qed.

Section Race.

Variables (id : nat) (a : Action) (b0 : Booking).
Hypothesis in_from_state : status b0 = from_state a.

(** While the booking is as it was, a request standing by keeps standing
    by with the store untouched, an answer it has given staying as it is;
    or it makes the update and holds the booking. *)
Lemma step_standing_by (who : Actor) (now : Z) (ok : bool) (t : Thread)
  (st : State) :
  permitted a who b0 = true ->
  bookings st !! id = Some b0 ->
  standing_by b0 (mkRequest id a who now ok) t ->
  (snd (thread_step (mkRequest id a who now ok) t st) = st
   /\ standing_by b0 (mkRequest id a who now ok)
        (fst (thread_step (mkRequest id a who now ok) t st))
   /\ (forall r, fst (thread_step (mkRequest id a who now ok) t st) = Done r
                 <-> t = Done r))
  \/ holding b0 (audit_log st) (mkRequest id a who now ok)
       (fst (thread_step (mkRequest id a who now ok) t st))
       (snd (thread_step (mkRequest id a who now ok) t st)).
Proof.
  set (rq := mkRequest id a who now ok).
  intros Hp Hb [-> | [-> | [-> | [-> Hok]]]]; cbn [thread_step].
  - left. assert (Hv : validate rq st = inr b0) by (by apply validate_inr).
    rewrite Hv. cbn. split; [done|]. split; [right; by left | done].
  - right. cbn [rq req_id req_action req_now]. unfold save_booking.
    rewrite Hb, decide_True by done. unfold holding.
    cbn [fst snd bookings audit_log req_id req_action req_now rq].
    rewrite lookup_insert_eq. split; [done|]. by left.
  - left. cbn. split; [done|]. split; [right; right; by left | done].
  - left. cbn. split; [done|]. split; [by repeat right | done].
Qed.

(** While another request holds the booking, a request standing by is
    rejected with [InvalidTransition] or keeps the answer it has given,
    and leaves the store untouched. *)
Lemma step_while_held (who : Actor) (now now' : Z) (ok : bool) (t : Thread)
  (st : State) :
  permitted a who b0 = true ->
  bookings st !! id = Some (stamp a now' b0) ->
  standing_by b0 (mkRequest id a who now ok) t ->
  snd (thread_step (mkRequest id a who now ok) t st) = st
  /\ standing_by b0 (mkRequest id a who now ok)
       (fst (thread_step (mkRequest id a who now ok) t st))
  /\ (forall r,
        t = Done r ->
        fst (thread_step (mkRequest id a who now ok) t st) = Done r)
  /\ (forall r,
        fst (thread_step (mkRequest id a who now ok) t st) = Done r ->
        t = Done r \/ r = inl InvalidTransition).
Proof.
  set (rq := mkRequest id a who now ok).
  intros Hp Hb [-> | [-> | [-> | [-> Hok]]]]; cbn [thread_step].
  - unfold validate, load_booking. cbn [rq req_id req_action req_actor].
    rewrite Hb, permitted_stamp, Hp. cbn [negb].
    rewrite decide_False
      by (rewrite status_stamp; intros E; by apply (from_to_differ a)).
    cbn. split; [done|]. split; [right; right; by left|].
    split; [done|]. intros r [= <-]. by right.
  - cbn [rq req_id req_action req_now]. unfold save_booking. rewrite Hb.
    rewrite decide_False
      by (rewrite status_stamp; intros E; by apply (from_to_differ a)).
    cbn. split; [done|]. split; [right; right; by left|].
    split; [done|]. intros r [= <-]. by right.
  - cbn. split; [done|]. split; [right; right; by left|].
    split; [done|]. intros r ?. by left.
  - cbn. split; [done|]. split; [by repeat right|].
    split; [done|]. intros r ?. by left.
Qed.

(** The request that holds the booking keeps holding it, or, its audit
    write having failed, writes the booking back as it was and answers
    [AuditFailure], the log being as it was. *)
Lemma step_holding (who : Actor) (now : Z) (ok : bool) (t : Thread)
  (st : State) (log0 : list AuditLogEntry) :
  holding b0 log0 (mkRequest id a who now ok) t st ->
  holding b0 log0 (mkRequest id a who now ok)
    (fst (thread_step (mkRequest id a who now ok) t st))
    (snd (thread_step (mkRequest id a who now ok) t st))
  \/ (fst (thread_step (mkRequest id a who now ok) t st)
      = Done (inl AuditFailure)
      /\ ok = false
      /\ bookings (snd (thread_step (mkRequest id a who now ok) t st)) !! id
         = Some b0
      /\ audit_log (snd (thread_step (mkRequest id a who now ok) t st))
         = log0).
Proof.
  set (rq := mkRequest id a who now ok).
  intros [Hb [[-> Hlog] | [(-> & Hok & Hlog) | [-> Hlog]]]];
    cbn [rq req_id req_action req_now req_actor req_audit_ok] in *;
    cbn [thread_step req_audit_ok req_id req_action req_now req_actor].
  - left. destruct ok; unfold holding;
      cbn [fst snd bookings audit_log req_id req_action req_now req_actor
           req_audit_ok rq].
    + split; [done|]. right. right. by rewrite Hlog.
    + split; [done|]. right. by left.
  - right. cbn [fst snd bookings audit_log]. rewrite lookup_insert_eq. done.
  - left. unfold holding.
    cbn [fst snd req_id req_action req_now req_actor req_audit_ok rq].
    split; [done|]. right. by right.
Qed.

Lemma race_step (who1 who2 : Actor) (now1 now2 : Z) (ok1 ok2 : bool)
  (log0 : list AuditLogEntry) (c : Config) (pick : bool) :
  let rq1 := mkRequest id a who1 now1 ok1 in
  let rq2 := mkRequest id a who2 now2 ok2 in
  permitted a who1 b0 = true ->
  permitted a who2 b0 = true ->
  race_invariant b0 log0 rq1 rq2 c ->
  race_invariant b0 log0 rq1 rq2 (sched_step rq1 rq2 c pick).
Proof.
  intros rq1 rq2 Hp1 Hp2 Hinv. subst rq1 rq2. destruct c as [t1 t2 st].
  unfold race_invariant in *. cbn [first second store] in *.
  destruct Hinv as [(Hb & Hlog & Hs1 & Hs2 & H12 & H21)
                   | [[Hh Hs] | [Hh Hs]]].
  - (* the booking is as it was *)
    destruct pick; cbn [sched_step first second store].
    + destruct (step_standing_by who1 now1 ok1 t1 st Hp1 Hb Hs1)
        as [(Hst & Hs1' & Hkeep) | Hh];
        destruct (thread_step _ t1 st) as [t st'];
        cbn [fst snd first second store] in *.
      * subst st'. left. split; [done|]. split; [done|]. split; [done|].
        split; [done|]. split.
        -- intros Ht. apply H12. by apply Hkeep.
        -- intros Ht. apply Hkeep. by apply H21.
      * right. left. rewrite <- Hlog. done.
    + destruct (step_standing_by who2 now2 ok2 t2 st Hp2 Hb Hs2)
        as [(Hst & Hs2' & Hkeep) | Hh];
        destruct (thread_step _ t2 st) as [t st'];
        cbn [fst snd first second store] in *.
      * subst st'. left. split; [done|]. split; [done|]. split; [done|].
        split; [done|]. split.
        -- intros Ht. apply Hkeep. by apply H12.
        -- intros Ht. apply H21. by apply Hkeep.
      * right. right. rewrite <- Hlog. done.
  - (* the first request holds the booking *)
    destruct pick; cbn [sched_step first second store].
    + destruct (step_holding who1 now1 ok1 t1 st log0 Hh)
        as [Hh' | (Ht & Hok & Hb & Hlog)];
        destruct (thread_step _ t1 st) as [t st'];
        cbn [fst snd first second store] in *.
      * right. by left.
      * left. subst t. split; [done|]. split; [done|].
        split; [by repeat right|]. split; [done|]. done.
    + destruct Hh as [Hb Hh].
      destruct (step_while_held who2 now2 now1 ok2 t2 st Hp2 Hb Hs)
        as (Hst & Hs' & _).
      destruct (thread_step _ t2 st) as [t st'];
        cbn [fst snd first second store] in *.
      subst st'. right. left. done.
  - (* the second request holds the booking *)
    destruct pick; cbn [sched_step first second store].
    + destruct Hh as [Hb Hh].
      destruct (step_while_held who1 now1 now2 ok1 t1 st Hp1 Hb Hs)
        as (Hst & Hs' & _).
      destruct (thread_step _ t1 st) as [t st'];
        cbn [fst snd first second store] in *.
      subst st'. right. right. done.
    + destruct (step_holding who2 now2 ok2 t2 st log0 Hh)
        as [Hh' | (Ht & Hok & Hb & Hlog)];
        destruct (thread_step _ t2 st) as [t st'];
        cbn [fst snd first second store] in *.
      * right. by right.
      * left. subst t. split; [done|]. split; [done|]. split; [done|].
        split; [by repeat right|]. done.
Qed.

Lemma race_run (who1 who2 : Actor) (now1 now2 : Z) (ok1 ok2 : bool)
  (log0 : list AuditLogEntry) (sched : list bool) :
  let rq1 := mkRequest id a who1 now1 ok1 in
  let rq2 := mkRequest id a who2 now2 ok2 in
  permitted a who1 b0 = true ->
  permitted a who2 b0 = true ->
  forall c : Config,
    race_invariant b0 log0 rq1 rq2 c ->
    race_invariant b0 log0 rq1 rq2 (run_schedule rq1 rq2 sched c).
Proof.
  intros rq1 rq2 Hp1 Hp2.
  induction sched as [|pick sched IH]; intros c Hc; [done|].
  cbn [run_schedule fold_left]. apply IH. by apply race_step.
Qed.

End Race.

Lemma thread_step_progress (rq : Request) (t : Thread) (st : State) :
  (steps_left (fst (thread_step rq t st)) <= pred (steps_left t))%nat.
Proof.
  destruct t as [|b|previous b'|previous|res]; cbn.
  - destruct (validate rq st); cbn; lia.
  - destruct (bookings st !! req_id rq); [|cbn; lia].
    destruct (save_booking _ _ _ _); cbn; lia.
  - destruct (req_audit_ok rq); cbn; lia.
  - lia.
  - lia.
Qed.

Lemma run_schedule_progress (rq1 rq2 : Request) (sched : list bool) :
  forall c : Config,
    (steps_left (first (run_schedule rq1 rq2 sched c))
     <= steps_left (first c) - turns true sched)%nat
    /\ (steps_left (second (run_schedule rq1 rq2 sched c))
        <= steps_left (second c) - turns false sched)%nat.
Proof.
  induction sched as [|pick sched IH]; intros c; [cbn; lia|].
  cbn [run_schedule fold_left].
  destruct (IH (sched_step rq1 rq2 c pick)) as [H1 H2].
  fold (run_schedule rq1 rq2 sched (sched_step rq1 rq2 c pick)) in H1, H2.
  fold (run_schedule rq1 rq2 sched (sched_step rq1 rq2 c pick)).
  pose proof (thread_step_progress rq1 (first c) (store c)) as P1.
  pose proof (thread_step_progress rq2 (second c) (store c)) as P2.
  unfold turns in *. destruct pick; cbn [sched_step] in *.
  - destruct (thread_step rq1 (first c) (store c)) as [t st'].
    cbn in *. lia.
  - destruct (thread_step rq2 (second c) (store c)) as [t st'].
    cbn in *. lia.
Qed.

Lemma steps_left_0 (t : Thread) :
  steps_left t = 0%nat -> exists r, t = Done r.
Proof. destruct t; try discriminate. by eexists. Qed.

Lemma standing_by_not_succeeded (b0 : Booking) (rq : Request) (t : Thread) :
  standing_by b0 rq t -> succeeded t = false.
Proof. by intros [-> | [-> | [-> | [-> _]]]]. Qed.

Lemma holding_answer (b0 : Booking) (log0 : list AuditLogEntry)
  (rq : Request) (t : Thread) (st : State) (r : Error + Booking) :
  holding b0 log0 rq t st ->
  t = Done r ->
  r = inr (stamp (req_action rq) (req_now rq) b0)
  /\ bookings st !! req_id rq
     = Some (stamp (req_action rq) (req_now rq) b0)
  /\ audit_log st
     = log0 ++ [mkEntry (req_now rq) (req_actor rq) (req_action rq)
                  (req_id rq)].
Proof.
  intros [Hb [[-> _] | [(-> & _) | [-> Hlog]]]] [=]. by subst r.
Qed.

Lemma standing_by_answer (b0 : Booking) (rq : Request) (t : Thread)
  (r : Error + Booking) :
  standing_by b0 rq t ->
  t = Done r ->
  r = inl InvalidTransition
  \/ (r = inl AuditFailure /\ req_audit_ok rq = false).
Proof.
  intros [-> | [-> | [-> | [-> Hok]]]] [=]; subst r; [by left | by right].
Qed.

(** C8 fails on the model when an audit write fails or a caller is not
    permitted.  Two submit requests by the creator on one draft booking,
    each taking its four steps: when both audit writes fail, both
    requests fail with [AuditFailure] and the booking stays in [draft];
    when only the first one's audit write fails and the second request is
    served while the first holds the booking, the outcome is
    [AuditFailure] and [InvalidTransition], with no success at all; when
    the first one's audit write fails and the second is served after it,
    the outcome is [AuditFailure] and a success.  And of two submit
    requests whose audit writes succeed, one by an [agent1] who is not
    the creator, that one fails with [Forbidden]. *)
Lemma audit_failure_breaks_one_success_one_rejection :
  let creator := mkActor 7 agent1 in
  let st := snd (create_booking 10 creator initial) in
  let both_fail :=
    run_schedule (mkRequest 0 submit creator 20 false)
      (mkRequest 0 submit creator 21 false)
      [true; true; true; true; false; false; false; false]
      (mkConfig Ready Ready st) in
  let rejected_then_rolled_back :=
    run_schedule (mkRequest 0 submit creator 20 false)
      (mkRequest 0 submit creator 21 true)
      [true; true; false; false; false; false; true; true]
      (mkConfig Ready Ready st) in
  let failure_then_success :=
    run_schedule (mkRequest 0 submit creator 20 false)
      (mkRequest 0 submit creator 21 true)
      [true; true; true; true; false; false; false; false]
      (mkConfig Ready Ready st) in
  let stranger :=
    run_schedule (mkRequest 0 submit creator 20 true)
      (mkRequest 0 submit (mkActor 9 agent1) 21 true)
      [true; false; true; false; true; false; true; false]
      (mkConfig Ready Ready st) in
  (first both_fail = Done (inl AuditFailure)
   /\ second both_fail = Done (inl AuditFailure)
   /\ store both_fail = st)
  /\ (first rejected_then_rolled_back = Done (inl AuditFailure)
      /\ second rejected_then_rolled_back = Done (inl InvalidTransition)
      /\ store rejected_then_rolled_back = st)
  /\ (first failure_then_success = Done (inl AuditFailure)
      /\ succeeded (second failure_then_success) = true)
  /\ (succeeded (first stranger) = true
      /\ second stranger = Done (inl Forbidden))
  /\ ~ (forall (rq1 rq2 : Request) (sched : list bool) (b : Booking),
          bookings st !! req_id rq1 = Some b ->
          status b = draft ->
          req_id rq2 = req_id rq1 ->
          req_action rq1 = submit ->
          req_action rq2 = submit ->
          (4 <= turns true sched)%nat ->
          (4 <= turns false sched)%nat ->
          let c := run_schedule rq1 rq2 sched (mkConfig Ready Ready st) in
          (succeeded (first c) && failed_with InvalidTransition (second c))
          || (failed_with InvalidTransition (first c)
              && succeeded (second c))
          = true).
Proof.
  cbn zeta. split; [by vm_compute|]. split; [by vm_compute|].
  split; [by vm_compute|]. split; [by vm_compute|].
  intros H.
  specialize (H (mkRequest 0 submit (mkActor 7 agent1) 20 false)
                (mkRequest 0 submit (mkActor 7 agent1) 21 false)
                [true; true; true; true; false; false; false; false]
                (mkBooking draft 7 10 None None None)
                eq_refl eq_refl eq_refl eq_refl eq_refl).
  assert (T1 : (4 <= turns true
                       [true; true; true; true; false; false; false; false])
               %nat) by (vm_compute; lia).
  assert (T2 : (4 <= turns false
                       [true; true; true; true; false; false; false; false])
               %nat) by (vm_compute; lia).
  specialize (H T1 T2). vm_compute in H. discriminate H.
Qed.

(** C8, amended.  Two requests for the same transition of one booking
    that is in the From state, by actors the table permits (for submit:
    two submit calls by the creator on the same draft booking), served
    concurrently, their loads, conditional updates, audit writes and
    rollbacks interleaved in any order, whatever the audit recorder
    answers to each.  At no point have both succeeded.  A request that
    has answered has succeeded with the booking it stamped, or has failed
    with [InvalidTransition], or has failed with [AuditFailure], the
    last only when its own audit write failed.  Once the schedule has let
    each request take its four steps, both have answered; when one of
    them has succeeded the booking is stored in the To state with exactly
    that request's entry added to the log, and when none has, the booking
    and the log are as they were.  When both audit writes succeed,
    exactly one request has succeeded and the other has failed with
    [InvalidTransition], regardless of the order. *)
Theorem concurrent_transition_at_most_once
  (st : State) (id : nat) (b : Booking) (a : Action) (who1 who2 : Actor)
  (now1 now2 : Z) (ok1 ok2 : bool) (sched : list bool) :
  bookings st !! id = Some b ->
  status b = from_state a ->
  permitted a who1 b = true ->
  permitted a who2 b = true ->
  let rq1 := mkRequest id a who1 now1 ok1 in
  let rq2 := mkRequest id a who2 now2 ok2 in
  let c := run_schedule rq1 rq2 sched (mkConfig Ready Ready st) in
  succeeded (first c) && succeeded (second c) = false
  /\ (forall r, first c = Done r ->
                r = inr (stamp a now1 b) \/ r = inl InvalidTransition
                \/ (r = inl AuditFailure /\ ok1 = false))
  /\ (forall r, second c = Done r ->
                r = inr (stamp a now2 b) \/ r = inl InvalidTransition
                \/ (r = inl AuditFailure /\ ok2 = false))
  /\ ((4 <= turns true sched)%nat ->
      (4 <= turns false sched)%nat ->
      (exists r1 r2, first c = Done r1 /\ second c = Done r2)
      /\ (succeeded (first c) = true ->
          bookings (store c) !! id = Some (stamp a now1 b)
          /\ audit_log (store c)
             = audit_log st ++ [mkEntry now1 who1 a id])
      /\ (succeeded (second c) = true ->
          bookings (store c) !! id = Some (stamp a now2 b)
          /\ audit_log (store c)
             = audit_log st ++ [mkEntry now2 who2 a id])
      /\ (succeeded (first c) || succeeded (second c) = false ->
          bookings (store c) !! id = Some b
          /\ audit_log (store c) = audit_log st)
      /\ (ok1 = true -> ok2 = true ->
          (succeeded (first c) && failed_with InvalidTransition (second c))
          || (failed_with InvalidTransition (first c)
              && succeeded (second c))
          = true
          /\ status <$> bookings (store c) !! id = Some (to_state a)
          /\ List.length (audit_log (store c))
             = S (List.length (audit_log st)))).
Proof.
  intros Hb Hs Hp1 Hp2 rq1 rq2 c.
  assert (Hinit : race_invariant b (audit_log st) rq1 rq2
                    (mkConfig Ready Ready st)).
  { left. cbn. repeat split; try done; by left. }
  pose proof (race_run id a b Hs who1 who2 now1 now2 ok1 ok2 (audit_log st)
                sched Hp1 Hp2 _ Hinit) as Hinv.
  fold rq1 rq2 c in Hinv.
  pose proof (run_schedule_progress rq1 rq2 sched (mkConfig Ready Ready st))
    as [P1 P2].
  fold c in P1, P2. cbn [first second steps_left] in P1, P2.
  assert (Hnever : succeeded (first c) && succeeded (second c) = false).
  { destruct Hinv as [(_ & _ & H1 & _) | [[_ H2] | [_ H1]]].
    - by rewrite (standing_by_not_succeeded _ _ _ H1).
    - by rewrite (standing_by_not_succeeded _ _ _ H2), andb_false_r.
    - by rewrite (standing_by_not_succeeded _ _ _ H1). }
  assert (Hfirst : forall r, first c = Done r ->
            r = inr (stamp a now1 b) \/ r = inl InvalidTransition
            \/ (r = inl AuditFailure /\ ok1 = false)).
  { intros r Hr. destruct Hinv as [(_ & _ & H1 & _) | [[Hh _] | [_ H1]]].
    - right. apply (standing_by_answer _ _ _ _ H1 Hr).
    - left. by destruct (holding_answer _ _ _ _ _ _ Hh Hr) as [-> _].
    - right. apply (standing_by_answer _ _ _ _ H1 Hr). }
  assert (Hsecond : forall r, second c = Done r ->
            r = inr (stamp a now2 b) \/ r = inl InvalidTransition
            \/ (r = inl AuditFailure /\ ok2 = false)).
  { intros r Hr. destruct Hinv as [(_ & _ & _ & H2 & _) | [[_ H2] | [Hh _]]].
    - right. apply (standing_by_answer _ _ _ _ H2 Hr).
    - right. apply (standing_by_answer _ _ _ _ H2 Hr).
    - left. by destruct (holding_answer _ _ _ _ _ _ Hh Hr) as [-> _]. }
  split; [done|]. split; [done|]. split; [done|].
  intros T1 T2.
  destruct (steps_left_0 (first c)) as [r1 Hr1]; [lia|].
  destruct (steps_left_0 (second c)) as [r2 Hr2]; [lia|].
  split; [by exists r1, r2|].
  destruct Hinv
    as [(Hbk & Hlog & H1 & H2 & H12 & H21) | [[Hh H2] | [Hh H1]]].
  - (* neither holds the booking *)
    pose proof (standing_by_not_succeeded _ _ _ H1) as N1.
    pose proof (standing_by_not_succeeded _ _ _ H2) as N2.
    rewrite N1, N2. split; [done|]. split; [done|]. split; [done|].
    intros Hok1 Hok2. exfalso.
    destruct (standing_by_answer _ _ _ _ H1 Hr1) as [-> | [_ Hf]];
      [|cbn in Hf; congruence].
    specialize (H12 Hr1). rewrite H12 in Hr2. injection Hr2 as <-.
    destruct (standing_by_answer _ _ _ _ H2 H12) as [[=] | [_ Hf]].
    cbn in Hf. congruence.
  - (* the first request has succeeded *)
    destruct (holding_answer _ _ _ _ _ _ Hh Hr1) as (-> & Hbk & Hlog).
    cbn [rq1 req_id req_action req_now req_actor] in Hbk, Hlog.
    pose proof (standing_by_not_succeeded _ _ _ H2) as N2.
    rewrite Hr1, N2. cbn [succeeded orb andb].
    split; [done|]. split; [done|]. split; [done|].
    intros Hok1 Hok2.
    destruct (standing_by_answer _ _ _ _ H2 Hr2) as [-> | [_ Hf]];
      [|cbn in Hf; congruence].
    rewrite Hr2, Hbk, Hlog, List.length_app. cbn.
    rewrite status_stamp. split; [done|]. split; [done | lia].
  - (* the second request has succeeded *)
    destruct (holding_answer _ _ _ _ _ _ Hh Hr2) as (-> & Hbk & Hlog).
    cbn [rq2 req_id req_action req_now req_actor] in Hbk, Hlog.
    pose proof (standing_by_not_succeeded _ _ _ H1) as N1.
    rewrite Hr2, N1. cbn [succeeded orb andb].
    split; [done|]. split; [done|]. split; [done|].
    intros Hok1 Hok2.
    destruct (standing_by_answer _ _ _ _ H1 Hr1) as [-> | [_ Hf]];
      [|cbn in Hf; congruence].
    rewrite Hr1, Hbk, Hlog, List.length_app. cbn.
    rewrite status_stamp. split; [done|]. split; [done | lia].
Qed.

Lemma concurrent_transition_at_most_once_witness :
  let creator := mkActor 7 agent1 in
  let st := snd (create_booking 10 creator initial) in
  let c := run_schedule (mkRequest 0 submit creator 20 true)
             (mkRequest 0 submit creator 21 true)
             [true; false; false; true; true; false; false; true]
             (mkConfig Ready Ready st) in
  succeeded (first c) && succeeded (second c) = false
  /\ (succeeded (first c) && failed_with InvalidTransition (second c))
     || (failed_with InvalidTransition (first c) && succeeded (second c))
     = true
  /\ status <$> bookings (store c) !! 0%nat = Some pending_verification
  /\ List.length (audit_log (store c)) = S (List.length (audit_log st)).
Proof.
  destruct (concurrent_transition_at_most_once
              (snd (create_booking 10 (mkActor 7 agent1) initial))
              0%nat (mkBooking draft 7 10 None None None) submit
              (mkActor 7 agent1) (mkActor 7 agent1) 20 21 true true
              [true; false; false; true; true; false; false; true])
    as (Hnever & _ & _ & Hdone);
    [reflexivity | reflexivity | reflexivity | reflexivity |].
  cbn zeta. split; [exact Hnever|].
  apply Hdone; [vm_compute; lia | vm_compute; lia | reflexivity
               | reflexivity].
Defined.

End WorkflowProofs.

(** * Further properties of the front-end code *)

Module TextProofs.
Import Text.

Ltac by_cases_on_char c :=
  destruct c as [[] [] [] [] [] [] [] []]; vm_compute; try reflexivity;
  try discriminate; try (intros; discriminate); auto.

Lemma upper_idem (c : ascii) : upper (upper c) = upper c.
Proof. by_cases_on_char c. Qed.

Lemma is_word_upper (c : ascii) : is_word (upper c) = is_word c.
Proof. by_cases_on_char c. Qed.

Lemma upper_underscore (c : ascii) :
  Ascii.eqb (upper c) "_" = Ascii.eqb c "_".
Proof. by_cases_on_char c. Qed.

Lemma length_map_chars (f : ascii -> ascii) (s : string) :
  String.length (map_chars f s) = String.length s.
Proof. induction s as [|c s IH]; cbn; [done | by rewrite IH]. Qed.

Lemma length_capitalizeWords (inside : bool) (s : string) :
  String.length (capitalizeWords inside s) = String.length s.
Proof.
  revert inside. induction s as [|c s IH]; intros inside; cbn; [done|].
  by rewrite IH.
Qed.

Lemma count_underscoresToSpaces (s : string) :
  count_char "_" (underscoresToSpaces s) = 0%nat.
Proof.
  induction s as [|c s IH]; cbn; [done|].
  fold (underscoresToSpaces s). rewrite IH.
  destruct (Ascii.eqb_spec c "_") as [->|Hc]; cbn; [done|].
  by destruct (Ascii.eqb_spec c "_").
Qed.

Lemma count_capitalizeWords (inside : bool) (s : string) :
  count_char "_" (capitalizeWords inside s) = count_char "_" s.
Proof.
  revert inside. induction s as [|c s IH]; intros inside; cbn; [done|].
  rewrite IH. destruct (is_word c && negb inside); [|done].
  by rewrite upper_underscore.
Qed.

Lemma capitalizeWords_idem (inside : bool) (s : string) :
  capitalizeWords inside (capitalizeWords inside s)
  = capitalizeWords inside s.
Proof.
  revert inside. induction s as [|c s IH]; intros inside; cbn; [done|].
  destruct (is_word c && negb inside) eqn:Hc.
  - rewrite is_word_upper, Hc, upper_idem, IH. done.
  - rewrite Hc, IH. done.
Qed.

Lemma underscoresToSpaces_none (s : string) :
  count_char "_" s = 0%nat -> underscoresToSpaces s = s.
Proof.
  induction s as [|c s IH]; cbn; [done|].
  fold (underscoresToSpaces s).
  destruct (Ascii.eqb c "_"); cbn; [discriminate|].
  intros H. by rewrite IH.
Qed.

Lemma firstUnderscoreToSpace_few (s : string) :
  (count_char "_" s <= 1)%nat ->
  firstUnderscoreToSpace s = underscoresToSpaces s.
Proof.
  induction s as [|c s IH]; cbn; [done|].
  fold (underscoresToSpaces s).
  destruct (Ascii.eqb c "_"); cbn; intros H.
  - rewrite underscoresToSpaces_none by lia. done.
  - by rewrite IH.
Qed.

End TextProofs.

Module DisplayProofs.
Import JS Text Display Finance.

Lemma unlabel_char (c : ascii) (inside : bool) :
  is_lower c || is_digit c || Ascii.eqb c "_" = true ->
  let c' := if Ascii.eqb c "_" then " "%char else c in
  let d := if is_word c' && negb inside then upper c' else c' in
  (if Ascii.eqb d " " then "_"%char else lower d) = c.
Proof. destruct inside; TextProofs.by_cases_on_char c. Qed.

Lemma unlabel_capitalize (s : string) :
  forall inside : bool,
    snake s = true ->
    unlabel (capitalizeWords inside (underscoresToSpaces s)) = s.
Proof.
  induction s as [|c s IH]; intros inside Hs; [done|].
  cbn in Hs. apply andb_prop in Hs as [Hc Hs].
  cbn. fold (underscoresToSpaces s).
  rewrite (unlabel_char c inside Hc). f_equal. by apply IH.
Qed.

Lemma unlabel_labelOf (s : string) : snake s = true -> unlabel (labelOf s) = s.
Proof. apply unlabel_capitalize. Qed.

Lemma labelOf_length (s : string) :
  String.length (labelOf s) = String.length s.
Proof.
  unfold labelOf, underscoresToSpaces.
  by rewrite TextProofs.length_capitalizeWords, TextProofs.length_map_chars.
Qed.

Lemma labelOf_no_underscore (s : string) :
  count_char "_" (labelOf s) = 0%nat.
Proof.
  unfold labelOf.
  by rewrite TextProofs.count_capitalizeWords,
    TextProofs.count_underscoresToSpaces.
Qed.

Lemma labelOf_idem (s : string) : labelOf (labelOf s) = labelOf s.
Proof.
  unfold labelOf at 1.
  rewrite (TextProofs.underscoresToSpaces_none _ (labelOf_no_underscore s)).
  unfold labelOf. apply TextProofs.capitalizeWords_idem.
Qed.

Lemma label_of_string (s : string) :
  s <> "" -> getStatusLabel (VString s) = Normal (labelOf s).
Proof.
  intros Hs. unfold getStatusLabel. cbn.
  by destruct (String.eqb_spec s "").
Qed.

Lemma labelOf_nonempty (s : string) : s <> "" -> labelOf s <> "".
Proof.
  intros Hs Hl. pose proof (labelOf_length s) as Hlen. rewrite Hl in Hlen.
  destruct s; [done | discriminate Hlen].
Qed.

Lemma getStatusLabel_cases (status : value) (label : string) :
  getStatusLabel status = Normal label ->
  (truthy status = false /\ label = "Unknown")
  \/ (exists s, status = VString s /\ s <> "" /\ label = labelOf s).
Proof.
  unfold getStatusLabel. destruct (truthy status) eqn:Ht; cbn.
  - destruct status as [| | b | n | s | l | p]; try discriminate.
    intros [= <-]. right. exists s. split; [done|]. split; [|done].
    cbn in Ht. intros ->. discriminate Ht.
  - intros [= <-]. by left.
Qed.

(** X1.  A label that [getStatusLabel] returns is never empty and holds
    no underscore; on a non-empty status string it has the length of the
    status. *)
Theorem status_label_shape (status : value) (label : string) :
  getStatusLabel status = Normal label ->
  label <> ""
  /\ count_char "_" label = 0%nat
  /\ (forall s, status = VString s -> s <> "" ->
                String.length label = String.length s).
Proof.
  intros H. destruct (getStatusLabel_cases _ _ H)
    as [[_ ->] | (s & -> & Hs & ->)].
  - split; [done|]. split; [reflexivity|]. intros s -> Hs.
    rewrite (label_of_string s Hs) in H. injection H as H.
    rewrite <- H. apply labelOf_length.
  - split; [by apply labelOf_nonempty|].
    split; [apply labelOf_no_underscore|].
    intros s' [= <-] _. apply labelOf_length.
Qed.

Lemma status_label_shape_witness :
  "Pending Verification" <> ""
  /\ count_char "_" "Pending Verification" = 0%nat
  /\ (forall s, VString "pending_verification" = VString s -> s <> "" ->
                String.length "Pending Verification" = String.length s).
Proof.
  apply (status_label_shape (VString "pending_verification")).
  reflexivity.
Defined.

(** X2.  Labelling is idempotent: the label of a label is that label
    (the label of a missing status, [Unknown], included). *)
Theorem status_label_idempotent (status : value) (label : string) :
  getStatusLabel status = Normal label ->
  getStatusLabel (VString label) = Normal label.
Proof.
  intros H. destruct (getStatusLabel_cases _ _ H)
    as [[_ ->] | (s & -> & Hs & ->)]; [reflexivity|].
  rewrite (label_of_string _ (labelOf_nonempty s Hs)).
  by rewrite labelOf_idem.
Qed.

Lemma status_label_idempotent_witness :
  getStatusLabel (VString "Account Verified") = Normal "Account Verified".
Proof.
  apply (status_label_idempotent (VString "account_verified")).
  reflexivity.
Defined.

(** X3.  Two different non-empty names made of lower-case letters, digits
    and underscores never get the same label.  The empty name does
    collide: it is labelled [Unknown], like the name [unknown]. *)
Theorem status_label_injective (s1 s2 : string) :
  snake s1 = true -> snake s2 = true ->
  s1 <> "" -> s2 <> "" ->
  getStatusLabel (VString s1) = getStatusLabel (VString s2) ->
  s1 = s2.
Proof.
  intros H1 H2 N1 N2. rewrite !label_of_string by done.
  intros [= H]. apply (f_equal unlabel) in H.
  by rewrite !unlabel_labelOf in H.
Qed.

Lemma status_label_injective_witness :
  "billed" = "billed"
  /\ getStatusLabel (VString "") = getStatusLabel (VString "unknown").
Proof.
  split; [|reflexivity].
  apply (status_label_injective "billed" "billed"); try reflexivity; done.
Defined.

Lemma find_statusColors_none (key : string) :
  ~ In key all_statuses ->
  List.find (fun kv => String.eqb (fst kv) key) statusColors = None.
Proof.
  intros Hkey.
  destruct (List.find _ statusColors) as [kv|] eqn:Hfind; [|done].
  apply find_some in Hfind as [Hin Heq]. apply String.eqb_eq in Heq.
  destruct Hkey. rewrite <- Heq. clear Heq.
  cbn in Hin. unfold all_statuses.
  repeat (destruct Hin as [<- | Hin]; [cbn; tauto|]). done.
Qed.

(** X4.  Every status of [BOOKING_STATUS] has a badge class of its own:
    [getStatusColor] gives it a class other than the gray fallback, and
    two different statuses never share a class. *)
Theorem status_colors_cover_statuses :
  (forall s, In s all_statuses ->
             exists c, getStatusColor (VString s) = Normal (Class c)
                       /\ c <> fallbackColor)
  /\ (forall s1 s2, In s1 all_statuses -> In s2 all_statuses ->
                    getStatusColor (VString s1) = getStatusColor (VString s2)
                    -> s1 = s2).
Proof.
  split.
  - intros s Hs. cbn in Hs.
    repeat (destruct Hs as [<- | Hs];
            [eexists; split; [reflexivity | discriminate]|]). done.
  - intros s1 s2 H1 H2. cbn in H1, H2.
    repeat (destruct H1 as [<- | H1]);
      repeat (destruct H2 as [<- | H2]);
      try done; vm_compute; intros; done.
Qed.

Lemma status_colors_cover_statuses_witness :
  (exists c, getStatusColor (VString "billed") = Normal (Class c)
             /\ c <> fallbackColor)
  /\ "paid" = "paid".
Proof.
  destruct status_colors_cover_statuses as [Hcover Hinj].
  split.
  - apply Hcover. cbn. tauto.
  - apply Hinj; [cbn; tauto | cbn; tauto | reflexivity].
Defined.

(** X5.  A status whose string form is neither one of the seven statuses
    nor the name of a member inherited from [Object.prototype] gets the
    gray fallback class; so do [undefined] and [null].  An inherited name
    such as [constructor] does not: the read yields the inherited member,
    which is truthy, and that member is returned instead of a class.  A
    status that has no string form, an object with a [toString] property
    of its own, makes the call throw. *)
Theorem status_color_fallback :
  (forall (status : value) (key : string),
      to_string status = Normal key ->
      ~ In key all_statuses ->
      ~ In key Object_prototype ->
      getStatusColor status = Normal (Class fallbackColor))
  /\ getStatusColor VUndefined = Normal (Class fallbackColor)
  /\ getStatusColor VNull = Normal (Class fallbackColor)
  /\ (forall key, In key Object_prototype ->
                  getStatusColor (VString key) = Normal (Member key))
  /\ (forall (status : value) (e : exn),
        to_string status = Throw e -> getStatusColor status = Throw e)
  /\ (forall props : list (string * value),
        has_prop "toString" props = true ->
        getStatusColor (VObject props) = Throw TypeError).
Proof.
  split; [|split; [reflexivity|split; [reflexivity|split; [|split]]]].
  - intros status key Hkey Hs Hp. unfold getStatusColor. rewrite Hkey.
    cbn [mbind completion_bind bind].
    rewrite (find_statusColors_none _ Hs).
    destruct (existsb _ Object_prototype) eqn:He; [|done].
    apply existsb_exists in He as (k & Hk & Heq).
    apply String.eqb_eq in Heq. subst k. done.
  - intros key Hk. cbn in Hk.
    repeat (destruct Hk as [<- | Hk]; [reflexivity|]). done.
  - intros status e He. unfold getStatusColor. by rewrite He.
  - intros props Hp. unfold getStatusColor. cbn [to_string]. by rewrite Hp.
Qed.

Lemma status_color_fallback_witness :
  getStatusColor (VString "cancelled") = Normal (Class fallbackColor)
  /\ getStatusColor (VString "toString") = Normal (Member "toString")
  /\ getStatusColor (VObject [("toString", VNumber (Num 5))])
     = Throw TypeError.
Proof.
  destruct status_color_fallback as (Hfall & _ & _ & Hmember & Hthrow & _).
  split; [|split].
  - apply (Hfall (VString "cancelled") "cancelled"); [reflexivity| |];
      cbn; intros H;
      repeat (destruct H as [H | H]; [discriminate H|]); done.
  - apply Hmember. cbn. tauto.
  - apply Hthrow. reflexivity.
Defined.

End DisplayProofs.

Module MoneyProofs.
Import JS Helpers Finance Display.

Ltac run_bind := cbn [mbind completion_bind bind].

Lemma add_shape (a b v : value) :
  add a b = Normal v -> number_or_string v = true.
Proof.
  unfold add.
  destruct (to_primitive a) as [pa|e]; run_bind; [|discriminate].
  destruct (to_primitive b) as [pb|e]; run_bind; [|discriminate].
  destruct (is_string pa || is_string pb).
  - destruct (to_string pa) as [sa|e]; run_bind; [|discriminate].
    destruct (to_string pb) as [sb|e]; run_bind; [|discriminate].
    by intros [= <-].
  - destruct (to_number pa) as [na|e]; run_bind; [|discriminate].
    destruct (to_number pb) as [nb|e]; run_bind; [|discriminate].
    by intros [= <-].
Qed.

Lemma sub_shape (a b v : value) :
  sub a b = Normal v -> exists n, v = VNumber n.
Proof.
  unfold sub.
  destruct (to_number a) as [na|e]; run_bind; [|discriminate].
  destruct (to_number b) as [nb|e]; run_bind; [|discriminate].
  intros [= <-]. by eexists.
Qed.

(** X6.  On the booking detail page the two money cells never show the
    [$0.00] that [formatCurrency] keeps for a missing amount: whenever the
    totals are computed, the total paid is a number or a string and the
    balance is a number, and both go through the number formatter.  For a
    booking that is [null] or [undefined] the total paid is 0 and the
    balance is [NaN]. *)
Theorem detail_money_cells (format : value -> string)
  (booking totalPaid balance : value) :
  detailTotals booking = Normal (totalPaid, balance) ->
  formatCurrency format totalPaid = format totalPaid
  /\ formatCurrency format balance = format balance
  /\ number_or_string totalPaid = true
  /\ (exists n, balance = VNumber n)
  /\ (nullish booking = true ->
      totalPaid = zero /\ balance = VNumber NaN).
Proof.
  unfold detailTotals.
  destruct (calculateTotalPaid (get_opt booking "installments"))
    as [tp|e] eqn:Htp; run_bind; [|discriminate].
  rewrite (FinanceProofs.balance_of_total _ _ _ Htp).
  destruct (sub (get_opt booking "sale_price") tp) as [bal|e] eqn:Hbal;
    run_bind; [|discriminate].
  intros [= <- <-].
  pose proof (FinanceProofs.total_paid_shape _ _ Htp) as Hshape.
  destruct (sub_shape _ _ _ Hbal) as [n ->].
  split; [by destruct tp|].
  split; [done|]. split; [done|]. split; [by eexists|].
  intros Hnull. destruct booking; try discriminate Hnull;
    cbn in Htp; injection Htp as <-; cbn in Hbal;
    injection Hbal as <-; done.
Qed.

Lemma detail_money_cells_witness :
  formatCurrency (fun _ => "formatted") zero = "formatted"
  /\ formatCurrency (fun _ => "formatted") (VNumber NaN) = "formatted"
  /\ number_or_string zero = true
  /\ (exists n, VNumber NaN = VNumber n)
  /\ zero = zero /\ VNumber NaN = VNumber NaN.
Proof.
  destruct (detail_money_cells (fun _ => "formatted") VNull zero
              (VNumber NaN) eq_refl)
    as (Hpaid & Hbalance & Hshape & Hnum & Hnull).
  split; [exact Hpaid|]. split; [exact Hbalance|]. split; [exact Hshape|].
  split; [exact Hnum|]. apply Hnull. reflexivity.
Defined.

Lemma add_string_l (s : string) (c v : value) :
  add (VString s) c = Normal v -> exists t, v = VString t.
Proof.
  unfold add. cbn [to_primitive]. run_bind.
  destruct (to_primitive c) as [pc|e]; run_bind; [|discriminate].
  cbn [is_string orb to_string]. run_bind.
  destruct (to_string pc) as [sc|e]; run_bind; [|discriminate].
  intros [= <-]. by eexists.
Qed.

Lemma string_sticks (x v : value) (s : string) :
  add_installment (VString s) x = Normal v ->
  exists t, v = VString t.
Proof.
  unfold add_installment.
  destruct (get x "amount") as [amount|e]; run_bind; [|discriminate].
  apply add_string_l.
Qed.

Lemma reduce_string_sticks (elems : list value) :
  forall (s : string) (v : value),
    reduce add_installment elems (VString s) = Normal v ->
    exists t, v = VString t.
Proof.
  induction elems as [|x rest IH]; intros s v; cbn [reduce].
  - intros [= <-]. by eexists.
  - destruct (add_installment (VString s) x) as [acc'|e] eqn:Hx; run_bind;
      [|discriminate].
    destruct (string_sticks _ _ s Hx) as [t ->]. apply IH.
Qed.

Lemma add_string_amount (acc : value) (s : string) :
  number_or_string acc = true -> s <> "" ->
  exists t, add acc (or_else (VString s) zero) = Normal (VString t).
Proof.
  intros Hacc Hs. unfold or_else. cbn [truthy].
  destruct (String.eqb_spec s "") as [->|_]; [done|]. cbn [negb].
  destruct acc as [| | b | n | a | l | p]; try discriminate Hacc;
    unfold add; cbn; by eexists.
Qed.

Lemma add_installment_shape (acc x v : value) :
  add_installment acc x = Normal v -> number_or_string v = true.
Proof.
  unfold add_installment.
  destruct (get x "amount") as [amount|e]; run_bind; [|discriminate].
  apply add_shape.
Qed.

(** X7.  One installment whose amount is a non-empty string turns the
    total paid into a string: from that element on [+] concatenates, so
    whenever [calculateTotalPaid] returns on such an array, what it
    returns is a string and not a number. *)
Theorem string_amount_makes_total_a_string
  (before after : list value) (props : list (string * value))
  (s : string) (total : value) :
  lookup_prop "amount" props = VString s ->
  s <> "" ->
  calculateTotalPaid (VArray (before ++ VObject props :: after))
  = Normal total ->
  exists t, total = VString t.
Proof.
  intros Hamount Hs. rewrite FinanceProofs.calculateTotalPaid_array.
  assert (Hgen : forall acc,
             number_or_string acc = true ->
             reduce add_installment (before ++ VObject props :: after) acc
             = Normal total -> exists t, total = VString t).
  { induction before as [|x before IH]; intros acc Hacc; cbn [app reduce].
    - rewrite (FinanceProofs.add_installment_addend acc (VObject props))
        by done.
      unfold addend. rewrite Hamount.
      destruct (add_string_amount acc s Hacc Hs) as [t ->]. run_bind.
      apply reduce_string_sticks.
    - destruct (add_installment acc x) as [acc'|e] eqn:Hx; run_bind;
        [|discriminate].
      apply IH. by apply (add_installment_shape acc x). }
  by apply Hgen.
Qed.

Lemma string_amount_makes_total_a_string_witness :
  exists t, VString "10050" = VString t.
Proof.
  apply (string_amount_makes_total_a_string
           [VObject [("amount", VNumber (Num 100))]] []
           [("amount", VString "50")] "50"); [reflexivity | done |].
  by vm_compute.
Defined.

(** The callback of [totalOutstanding]. *)
Lemma outstanding_step (acc n : number) (item : value) :
  row_balance item = Some n ->
  (balance ← get item "balance"; add (VNumber acc) balance)
  = Normal (VNumber (number_add acc n)).
Proof.
  unfold row_balance.
  destruct item as [| | b | m | s | l | props]; try discriminate.
  cbn [get]. run_bind.
  destruct (lookup_prop "balance" props) as [| | b | m | s | l | p];
    try discriminate.
  intros [= <-]. apply FinanceProofs.add_numbers.
Qed.

Lemma outstanding_sum (items : list value) :
  forall (ns : list number) (acc : number),
    mapM row_balance items = Some ns ->
    reduce (fun sum item => balance ← get item "balance"; add sum balance)
      items (VNumber acc)
    = Normal (VNumber (fold_left number_add ns acc)).
Proof.
  induction items as [|x rest IH]; intros ns acc Hns.
  - by injection Hns as <-.
  - cbn in Hns. destruct (row_balance x) as [n|] eqn:Hx; [|discriminate].
    cbn in Hns. destruct (mapM row_balance rest) as [ns'|] eqn:Hr;
      [|discriminate].
    injection Hns as <-. cbn [reduce].
    rewrite (outstanding_step acc n x Hx). run_bind.
    by rewrite (IH ns' _ eq_refl).
Qed.

Lemma fold_NaN_sticks (ns : list number) :
  fold_left number_add ns NaN = NaN.
Proof.
  induction ns as [|n ns IH]; [done|]. cbn [fold_left].
  unfold number_add at 2, NaN. by rewrite IEEE.add_nan_l.
Qed.

Lemma mapM_row_balance_units (items : list value) (zs : list Z) :
  mapM row_balance items = Some (Num <$> zs) ->
  safe_sums 0 zs = true ->
  fold_left number_add (Num <$> zs) PrimFloat.zero = Num (sum_Z zs).
Proof.
  intros _ Hsafe.
  change PrimFloat.zero with (Num 0).
  by rewrite (FinanceProofs.sum_units zs 0 eq_refl Hsafe).
Qed.

(** X8.  The outstanding total of the reports page is the sum of the
    balances of its rows, added in double arithmetic from the first row
    on, when each balance is a number; for balances that are integers
    which, like every running total, stay within [2 ^ 53] in magnitude,
    it is their exact sum.  It is 0 for an empty report, and the
    computation throws for a report that is not an array. *)
Theorem outstanding_total_is_sum :
  (forall (items : list value) (ns : list number),
      mapM row_balance items = Some ns ->
      totalOutstanding (VArray items) = Normal (VNumber (sum_numbers ns)))
  /\ (forall (items : list value) (zs : list Z),
        mapM row_balance items = Some (Num <$> zs) ->
        safe_sums 0 zs = true ->
        totalOutstanding (VArray items) = Normal (VNumber (Num (sum_Z zs)))
        /\ integer_value (Num (sum_Z zs)) = Some (sum_Z zs))
  /\ totalOutstanding (VArray []) = Normal zero
  /\ (forall report : value,
        isArray report = false -> totalOutstanding report = Throw TypeError).
Proof.
  split; [|split; [|split; [reflexivity|]]].
  - intros items ns Hns. unfold totalOutstanding, zero.
    by rewrite (outstanding_sum items ns _ Hns).
  - intros items zs Hzs Hsafe. split.
    + unfold totalOutstanding, zero.
      rewrite (outstanding_sum items _ _ Hzs).
      by rewrite (mapM_row_balance_units items zs Hzs Hsafe).
    + apply FinanceProofs.integer_value_Num.
      pose proof (FinanceProofs.safe_sums_total zs 0 eq_refl Hsafe) as H.
      by rewrite Z.add_0_l in H.
  - intros report Hr. by destruct report.
Qed.

Lemma outstanding_total_is_sum_witness :
  totalOutstanding
    (VArray [VObject [("pnr", VString "ABC123");
                      ("balance", VNumber (string_to_number "350.5"))];
             VObject [("balance", VNumber (string_to_number "0.25"))]])
  = Normal (VNumber (sum_numbers [string_to_number "350.5";
                                  string_to_number "0.25"]))
  /\ (totalOutstanding
        (VArray [VObject [("pnr", VString "ABC123");
                          ("balance", VNumber (Num 350))];
                 VObject [("balance", VNumber (Num 0))];
                 VObject [("balance", VNumber (Num (-50)))]])
      = Normal (VNumber (Num (sum_Z [350; 0; -50])))
      /\ integer_value (Num (sum_Z [350; 0; -50]))
         = Some (sum_Z [350; 0; -50]))
  /\ totalOutstanding VNull = Throw TypeError.
Proof.
  destruct outstanding_total_is_sum as (Hsum & Hexact & _ & Hthrow).
  split; [|split].
  - apply Hsum. reflexivity.
  - apply Hexact; reflexivity.
  - apply Hthrow. reflexivity.
Defined.

Lemma add_number_undefined (acc : number) :
  add (VNumber acc) VUndefined = Normal (VNumber NaN).
Proof.
  unfold add. cbn. unfold number_add, NaN. by rewrite IEEE.add_nan_r.
Qed.

(** X9.  Unlike [calculateTotalPaid], the outstanding total has no guard
    on the field it adds: one row without a [balance], among rows whose
    balances are numbers, makes the whole total [NaN].  (The cell of such
    a row reads [item.balance.toFixed], so the table cannot render it
    either.) *)
Theorem outstanding_total_missing_balance
  (before after : list value) (ns1 ns2 : list number)
  (props : list (string * value)) :
  mapM row_balance before = Some ns1 ->
  mapM row_balance after = Some ns2 ->
  lookup_prop "balance" props = VUndefined ->
  totalOutstanding (VArray (before ++ VObject props :: after))
  = Normal (VNumber NaN).
Proof.
  intros H1 H2 Hmissing. unfold totalOutstanding, zero.
  generalize PrimFloat.zero.
  revert ns1 H1. induction before as [|x before IH]; intros ns1 H1 acc.
  - cbn [app reduce get]. run_bind. rewrite Hmissing.
    rewrite add_number_undefined. run_bind.
    rewrite (outstanding_sum after ns2 _ H2).
    by rewrite (fold_NaN_sticks ns2).
  - cbn in H1. destruct (row_balance x) as [n|] eqn:Hx; [|discriminate].
    cbn in H1. destruct (mapM row_balance before) as [ns'|] eqn:Hr;
      [|discriminate].
    cbn [app reduce]. rewrite (outstanding_step acc n x Hx). run_bind.
    by apply (IH ns').
Qed.

Lemma outstanding_total_missing_balance_witness :
  totalOutstanding
    (VArray ([VObject [("balance", VNumber (Num 350))]]
             ++ VObject [("pnr", VString "XYZ789")]
             :: [VObject [("balance", VNumber (Num 20))]]))
  = Normal (VNumber NaN).
Proof.
  apply (outstanding_total_missing_balance
           [VObject [("balance", VNumber (Num 350))]]
           [VObject [("balance", VNumber (Num 20))]] [Num 350] [Num 20]);
    reflexivity.
Defined.

Lemma count_field_or_else (stats : value) (k : string) (n : number) :
  count_field stats k = Some n ->
  or_else (get_opt stats k) zero = VNumber n /\ is_nan n = false.
Proof.
  unfold count_field, or_else.
  destruct (get_opt stats k) as [| | b | m | s | l | p]; try discriminate.
  - by intros [= <-].
  - by intros [= <-].
  - intros [= <-]. rewrite FinanceProofs.truthy_number.
    destruct (is_nan m) eqn:Hn; cbn [orb negb]; [by split|].
    destruct (is_zero m); cbn [negb]; by split.
Qed.

(** X10.  Whatever the dashboard receives as [stats], the Verified card,
    when its computation returns, shows a number or a string, never
    [null] or [undefined].  When the two counts are numbers or absent it
    shows their sum in double arithmetic, an absent count or a count that
    is 0 or [NaN] counting as 0; that sum is [NaN] only when the two
    counts are infinite, and it is the exact sum for integer counts that
    with their sum stay within [2 ^ 53] in magnitude.  For absent [stats]
    it shows 0.  A count that is an object with a [toString] property of
    its own makes the computation throw. *)
Theorem verified_card_total (stats : value) :
  (forall v : value,
      verifiedCard stats = Normal v -> number_or_string v = true)
  /\ (forall a b : number,
        count_field stats "account_verified" = Some a ->
        count_field stats "admin_verified" = Some b ->
        verifiedCard stats = Normal (VNumber (number_add a b))
        /\ (is_nan (number_add a b) = true ->
            is_infinity a = true /\ is_infinity b = true))
  /\ (forall x y : Z,
        safe x = true -> safe y = true -> safe (x + y) = true ->
        count_field stats "account_verified" = Some (Num x) ->
        count_field stats "admin_verified" = Some (Num y) ->
        verifiedCard stats = Normal (VNumber (Num (x + y)))
        /\ integer_value (Num (x + y)) = Some (x + y))
  /\ (nullish stats = true -> verifiedCard stats = Normal zero)
  /\ (forall props : list (string * value),
        has_prop "toString" props = true ->
        get_opt stats "account_verified" = VObject props ->
        verifiedCard stats = Throw TypeError).
Proof.
  assert (Hsum : forall a b : number,
             count_field stats "account_verified" = Some a ->
             count_field stats "admin_verified" = Some b ->
             verifiedCard stats = Normal (VNumber (number_add a b))
             /\ (is_nan (number_add a b) = true ->
                 is_infinity a = true /\ is_infinity b = true)).
  { intros a b Ha Hb.
    destruct (count_field_or_else _ _ _ Ha) as [Ea Na].
    destruct (count_field_or_else _ _ _ Hb) as [Eb Nb].
    unfold verifiedCard. rewrite Ea, Eb, FinanceProofs.add_numbers.
    split; [done|]. intros Hnan.
    destruct (IEEE.add_nan a b Hnan) as [H | [H | H]]; [congruence.. | done]. }
  split; [|split; [exact Hsum|split; [|split]]].
  - intros v. apply add_shape.
  - intros x y Sx Sy Sxy Ha Hb.
    destruct (Hsum _ _ Ha Hb) as [-> _]. unfold number_add.
    rewrite IEEE.Num_add by (by apply FinanceProofs.safe_spec).
    split; [done|]. by apply FinanceProofs.integer_value_Num.
  - intros Hnull. by destruct stats.
  - intros props Hp Hget. unfold verifiedCard, or_else. rewrite Hget.
    cbn [truthy]. unfold add. cbn [to_primitive to_string]. by rewrite Hp.
Qed.

Lemma verified_card_total_witness :
  (verifiedCard (VObject [("account_verified", VNumber (Num 4))])
   = Normal (VNumber (Num (4 + 0)))
   /\ integer_value (Num (4 + 0)) = Some (4 + 0))
  /\ verifiedCard VNull = Normal zero
  /\ verifiedCard
       (VObject [("account_verified",
                  VObject [("toString", VNumber (Num 1))])])
     = Throw TypeError.
Proof.
  destruct (verified_card_total
              (VObject [("account_verified", VNumber (Num 4))]))
    as (_ & _ & Hexact & _).
  destruct (verified_card_total VNull) as (_ & _ & _ & Hnull & _).
  destruct (verified_card_total
              (VObject [("account_verified",
                         VObject [("toString", VNumber (Num 1))])]))
    as (_ & _ & _ & _ & Hthrow).
  split; [|split].
  - apply Hexact; reflexivity.
  - apply Hnull. reflexivity.
  - apply (Hthrow [("toString", VNumber (Num 1))]); reflexivity.
Defined.

End MoneyProofs.

Module LayoutProofs.
Import Pages Text Layout Links.

Lemma prefix_comparable (s : string) :
  forall a b : string,
    String.prefix a s = true -> String.prefix b s = true ->
    String.prefix a b = true \/ String.prefix b a = true.
Proof.
  induction s as [|c s IH]; intros [|x a] [|y b]; cbn; auto;
    try discriminate.
  destruct (Ascii.ascii_dec x c) as [->|]; [|discriminate].
  destruct (Ascii.ascii_dec y c) as [->|]; [|discriminate].
  destruct (Ascii.ascii_dec c c) as [_|]; [|done]. apply IH.
Qed.

Lemma prefix_refl (s : string) : String.prefix s s = true.
Proof.
  induction s as [|c s IH]; cbn; [done|].
  by destruct (Ascii.ascii_dec c c).
Qed.

Lemma prefix_app_l (a b s : string) :
  String.prefix (a +:+ b) s = true -> String.prefix a s = true.
Proof.
  revert s. induction a as [|x a IH]; intros [|c s]; simpl; try done.
  destruct (Ascii.ascii_dec x c); [apply IH | done].
Qed.

Lemma active_startsWith (pathname : string) (item : NavItem) :
  isActive pathname item = true ->
  startsWith pathname (href item) = true.
Proof.
  unfold isActive, startsWith. intros [H|H]%orb_prop.
  - apply String.eqb_eq in H as ->. apply prefix_refl.
  - by apply (prefix_app_l _ "/").
Qed.

(** No entry of the side bar leads to a path that extends the path of
    another entry. *)
Lemma navigation_hrefs_apart (i j : NavItem) :
  In i navigation -> In j navigation ->
  String.prefix (href i) (href j) = true
  \/ String.prefix (href j) (href i) = true ->
  i = j.
Proof.
  intros Hi Hj. cbn in Hi, Hj.
  repeat (destruct Hi as [<- | Hi]);
    repeat (destruct Hj as [<- | Hj]);
    try done; vm_compute; intros [H | H]; discriminate H.
Qed.

Lemma startsWith_unique (pathname : string) (i j : NavItem) :
  In i navigation -> In j navigation ->
  startsWith pathname (href i) = true ->
  startsWith pathname (href j) = true ->
  i = j.
Proof.
  intros Hi Hj Si Sj. apply (navigation_hrefs_apart i j Hi Hj).
  by apply (prefix_comparable pathname).
Qed.

(** X11.  Whatever the location, the side bar highlights at most one of
    its entries. *)
Theorem at_most_one_active_entry (pathname : string) (i j : NavItem) :
  In i navigation -> In j navigation ->
  isActive pathname i = true ->
  isActive pathname j = true ->
  i = j.
Proof.
  intros Hi Hj Ai Aj.
  apply (startsWith_unique pathname i j Hi Hj);
    by apply active_startsWith.
Qed.

Lemma at_most_one_active_entry_witness :
  mkNavItem "Bookings" "/bookings"
    [ROLES.AGENT1; ROLES.AGENT2; ROLES.ACCOUNT; ROLES.ADMIN]
  = mkNavItem "Bookings" "/bookings"
      [ROLES.AGENT1; ROLES.AGENT2; ROLES.ACCOUNT; ROLES.ADMIN].
Proof.
  apply (at_most_one_active_entry "/bookings/create");
    [cbn; tauto | cbn; tauto | reflexivity | reflexivity].
Defined.

Lemma navigation_names (item : NavItem) :
  In item navigation -> String.eqb (item_name item) "" = false.
Proof.
  intros Hi. cbn in Hi.
  repeat (destruct Hi as [<- | Hi]; [reflexivity|]). done.
Qed.

(** X12.  The header follows the side bar.  When the entries shown to the
    user are any selection of the navigation entries and one navigation
    entry is active, the header title is that entry's name if the entry
    is shown, and [Dashboard] if it is hidden. *)
Theorem header_title_follows_active_entry
  (shown : list NavItem) (pathname : string) (item : NavItem) :
  (forall x, In x shown -> In x navigation) ->
  In item navigation ->
  isActive pathname item = true ->
  (In item shown -> headerTitle shown pathname = item_name item)
  /\ (~ In item shown -> headerTitle shown pathname = "Dashboard").
Proof.
  intros Hsub Hitem Hactive.
  pose proof (active_startsWith _ _ Hactive) as Hstart.
  unfold headerTitle.
  destruct (List.find _ shown) as [j|] eqn:Hfind.
  - apply find_some in Hfind as [Hj Sj].
    assert (j = item) as ->
      by (apply (startsWith_unique pathname); auto).
    split; [|done]. intros _. by rewrite (navigation_names _ Hitem).
  - split; [|done]. intros Hin.
    pose proof (find_none _ _ Hfind _ Hin) as Hno. cbn in Hno. congruence.
Qed.

Lemma header_title_follows_active_entry_witness :
  headerTitle
    [mkNavItem "Dashboard" "/dashboard"
       [ROLES.AGENT1; ROLES.AGENT2; ROLES.ACCOUNT; ROLES.ADMIN];
     mkNavItem "Reports" "/reports" [ROLES.ACCOUNT; ROLES.ADMIN]]
    "/reports"
  = "Reports"
  /\ headerTitle
       [mkNavItem "Dashboard" "/dashboard"
          [ROLES.AGENT1; ROLES.AGENT2; ROLES.ACCOUNT; ROLES.ADMIN]]
       "/users/42"
     = "Dashboard".
Proof.
  split.
  - apply (header_title_follows_active_entry _ "/reports"
             (mkNavItem "Reports" "/reports" [ROLES.ACCOUNT; ROLES.ADMIN]));
      [cbn; tauto | cbn; tauto | reflexivity | cbn; tauto].
  - apply (header_title_follows_active_entry _ "/users/42"
             (mkNavItem "Users" "/users" [ROLES.ADMIN]));
      [cbn; tauto | cbn; tauto | reflexivity |].
    cbn. intros [H | []]. discriminate H.
Defined.

(** X13.  The role label of the layout and of the user and activity
    tables replaces only the first underscore, [getStatusLabel] all of
    them: on a non-empty name with at most one underscore
    [getStatusLabel] returns the role label, as it does on every role of
    [ROLES].  The two part on the empty name, whose role label is empty
    while [getStatusLabel] returns [Unknown], and on names with more
    underscores, the role label of [a_b_c] being [A B_c]. *)
Theorem role_label_agrees_with_status_label :
  (forall s : string,
      s <> "" ->
      (count_char "_" s <= 1)%nat ->
      Display.getStatusLabel (JS.VString s) = JS.Normal (roleLabel s))
  /\ (forall r, In r Policy.all_roles ->
                Display.getStatusLabel (JS.VString r)
                = JS.Normal (roleLabel r))
  /\ roleLabel "" = ""
  /\ Display.getStatusLabel (JS.VString "") = JS.Normal "Unknown"
  /\ roleLabel "a_b_c" = "A B_c"
  /\ Display.getStatusLabel (JS.VString "a_b_c") = JS.Normal "A B C".
Proof.
  split; [|split; [|repeat split; reflexivity]].
  - intros s Hne Hs. rewrite (DisplayProofs.label_of_string s Hne).
    unfold roleLabel, Display.labelOf.
    by rewrite TextProofs.firstUnderscoreToSpace_few.
  - intros r Hr. cbn in Hr.
    repeat (destruct Hr as [<- | Hr]; [reflexivity|]). done.
Qed.

Lemma role_label_agrees_with_status_label_witness :
  Display.getStatusLabel (JS.VString "super_admin")
  = JS.Normal (roleLabel "super_admin")
  /\ Display.getStatusLabel (JS.VString "agent2")
     = JS.Normal (roleLabel "agent2").
Proof.
  destruct role_label_agrees_with_status_label as (Hfew & Hroles & _).
  split; [apply Hfew; [done | vm_compute; lia] | apply Hroles; cbn; tauto].
Defined.

(** X14.  The side bar and the router agree on the four roles: an entry
    lists a role exactly when the route registered under the entry's
    path lists it, so that no role is shown a link its route refuses and
    none is denied a link its route admits. *)
Theorem navigation_matches_routes (item : NavItem) (r : string) :
  In item navigation -> In r Policy.all_roles ->
  includes (roles item) r = routeLists (href item) r.
Proof.
  intros Hi Hr. cbn in Hi, Hr.
  repeat (destruct Hi as [<- | Hi]);
    repeat (destruct Hr as [<- | Hr]); try done; reflexivity.
Qed.

Lemma navigation_matches_routes_witness :
  includes [ROLES.ADMIN] "account" = routeLists "/users" "account".
Proof.
  apply (navigation_matches_routes (mkNavItem "Users" "/users" [ROLES.ADMIN]));
    cbn; tauto.
Defined.

(** X15.  The links to the guarded pages agree with their routes, for any
    role string: the create button of the bookings list and the reports
    quick action of the dashboard are rendered exactly for the roles
    their routes list, and the create quick action of the dashboard only
    for a role its route lists.  Nothing is rendered without a user. *)
Theorem links_match_routes :
  (forall u : User,
      showCreateButton (Some u) = routeLists "/bookings/create" (role u)
      /\ showReportsQuickAction (Some u) = routeLists "/reports" (role u)
      /\ (showCreateQuickAction (Some u) = true ->
          routeLists "/bookings/create" (role u) = true))
  /\ showCreateButton None = false
  /\ showReportsQuickAction None = false
  /\ showCreateQuickAction None = false.
Proof.
  split; [|by repeat split].
  intros [n r]. unfold showCreateButton, showReportsQuickAction,
    showCreateQuickAction, routeLists, includes. cbn.
  rewrite !orb_false_r. split; [done|]. split; [done|].
  intros ->. done.
Qed.

Lemma links_match_routes_witness :
  routeLists "/bookings/create" "agent1" = true.
Proof.
  apply (proj1 links_match_routes (mkUser "Asha" "agent1")). reflexivity.
Defined.

(** X16.  The detail page never renders two action buttons at once, for
    any user and any booking; and it renders none for a booking whose
    status is not [draft], [pending_verification] or
    [account_verified]. *)
Theorem action_buttons_exclusive
  (user : option User) (booking : option Booking) :
  showSubmit user booking && showAccountVerify user booking = false
  /\ showSubmit user booking && showAdminVerify user booking = false
  /\ showAccountVerify user booking && showAdminVerify user booking = false
  /\ ((forall b, booking = Some b ->
                 status b <> "draft"
                 /\ status b <> "pending_verification"
                 /\ status b <> "account_verified") ->
      showSubmit user booking = false
      /\ showAccountVerify user booking = false
      /\ showAdminVerify user booking = false).
Proof.
  unfold showSubmit, showAccountVerify, showAdminVerify.
  destruct booking as [[p st c s a d]|]; cbn;
    [|by rewrite !andb_false_r].
  assert (Hnone : (forall b, Some (mkBooking p st c s a d) = Some b ->
                             status b <> "draft"
                             /\ status b <> "pending_verification"
                             /\ status b <> "account_verified") ->
                  st <> "draft" /\ st <> "pending_verification"
                  /\ st <> "account_verified").
  { intros Hall. apply (Hall _ eq_refl). }
  destruct (String.eqb_spec st "draft") as [->|N1]; cbn.
  { rewrite !andb_false_r. split; [done|]. split; [done|]. split; [done|].
    intros Hall. by destruct (Hnone Hall) as [? _]. }
  destruct (String.eqb_spec st "pending_verification") as [->|N2]; cbn.
  { rewrite !andb_false_r. split; [done|]. split; [done|]. split; [done|].
    intros Hall. by destruct (Hnone Hall) as (_ & ? & _). }
  destruct (String.eqb_spec st "account_verified") as [->|N3]; cbn.
  { rewrite !andb_false_r. split; [done|]. split; [done|]. split; [done|].
    intros Hall. by destruct (Hnone Hall) as (_ & _ & ?). }
  rewrite !andb_false_r. by repeat split.
Qed.

Lemma action_buttons_exclusive_witness :
  showSubmit (Some (mkUser "Asha" "admin"))
    (Some (mkBooking "ABC123" "billed" None None None None)) = false
  /\ showAccountVerify (Some (mkUser "Asha" "admin"))
       (Some (mkBooking "ABC123" "billed" None None None None)) = false
  /\ showAdminVerify (Some (mkUser "Asha" "admin"))
       (Some (mkBooking "ABC123" "billed" None None None None)) = false.
Proof.
  apply (action_buttons_exclusive (Some (mkUser "Asha" "admin"))
           (Some (mkBooking "ABC123" "billed" None None None None))).
  intros b [= <-]. cbn. repeat split; discriminate.
Defined.

End LayoutProofs.

Module FormProofs.
Import CreateBookingPage BookingForm.

Lemma setField_keeps (name : Field) (value : string) (fd : FormData.t) :
  FormData.travel_legs (setField name value fd) = FormData.travel_legs fd
  /\ FormData.installments (setField name value fd)
     = FormData.installments fd
  /\ (name <> payment_type ->
      FormData.payment_type (setField name value fd)
      = FormData.payment_type fd)
  /\ (name <> sector_type ->
      FormData.sector_type (setField name value fd)
      = FormData.sector_type fd).
Proof. destruct fd, name; cbn; repeat split; done. Qed.

Lemma withLegs_keeps (legs : list TravelLeg.t) (fd : FormData.t) :
  FormData.travel_legs (withLegs legs fd) = legs
  /\ FormData.installments (withLegs legs fd) = FormData.installments fd
  /\ FormData.payment_type (withLegs legs fd) = FormData.payment_type fd
  /\ FormData.sector_type (withLegs legs fd) = FormData.sector_type fd.
Proof. by destruct fd. Qed.

Section WithUpper.

Variable toUpperCase : string -> string.

(** What one event leaves alone and what it does to the legs. *)
Lemma dispatch_effect (ev : Event) (fd next : FormData.t) :
  dispatch toUpperCase ev fd = Some next ->
  FormData.payment_type next = FormData.payment_type fd
  /\ FormData.installments next = FormData.installments fd
  /\ List.length (FormData.travel_legs next)
     = (List.length (FormData.travel_legs fd)
        + (if is_AddLeg ev then 1 else 0))%nat
  /\ (FormData.sector_type next = FormData.sector_type fd
      \/ exists v, ev = SelectSector v /\ FormData.sector_type next = v)
  /\ (ev = AddLeg -> FormData.sector_type fd = SECTOR_TYPES.MULTIPLE).
Proof.
  destruct ev as [name value | value | value | index field value |];
    cbn [dispatch is_AddLeg].
  - destruct (boundInput name) eqn:Hb; [|discriminate]. intros [= <-].
    unfold handleInputChange.
    destruct (setField_keeps name value fd) as (-> & -> & Hp & Hs).
    rewrite Hp by (intros ->; discriminate Hb).
    rewrite Hs by (intros ->; discriminate Hb).
    split; [done|]. split; [done|]. split; [lia|]. split; [by left|done].
  - destruct (_ || _); [|discriminate]. intros [= <-].
    destruct (setField_keeps sector_type value fd) as (-> & -> & Hp & _).
    rewrite Hp by discriminate.
    split; [done|]. split; [done|]. split; [lia|]. split; [|done].
    right. exists value. split; [done|]. by destruct fd.
  - intros [= <-].
    destruct (setField_keeps supplier_id value fd) as (-> & -> & Hp & Hs).
    rewrite Hp, Hs by discriminate.
    split; [done|]. split; [done|]. split; [lia|]. split; [by left|done].
  - destruct (match field with return_date => _ | _ => true end);
      [|discriminate].
    unfold handleLegChange.
    destruct (FormData.travel_legs fd !! index) as [leg|]; [|discriminate].
    intros [= <-].
    match goal with
    | |- context [withLegs ?l fd] =>
        destruct (withLegs_keeps l fd) as (-> & -> & -> & ->)
    end.
    rewrite length_insert.
    split; [done|]. split; [done|]. split; [lia|]. split; [by left|done].
  - destruct (String.eqb_spec (FormData.sector_type fd)
                SECTOR_TYPES.MULTIPLE) as [Hm|]; [|discriminate].
    intros [= <-]. unfold addTravelLeg.
    destruct (withLegs_keeps (FormData.travel_legs fd ++ [blankLeg]) fd)
      as (-> & -> & -> & ->).
    rewrite List.length_app. cbn [List.length].
    split; [done|]. split; [done|]. split; [lia|]. split; [by left|done].
Qed.

Lemma session_effect (events : list Event) :
  forall fd final : FormData.t,
    session toUpperCase events fd = Some final ->
    FormData.payment_type final = FormData.payment_type fd
    /\ FormData.installments final = FormData.installments fd
    /\ List.length (FormData.travel_legs final)
       = (List.length (FormData.travel_legs fd)
          + List.length (List.filter is_AddLeg events))%nat.
Proof.
  induction events as [|ev rest IH]; intros fd final; cbn [session].
  - intros [= <-]. cbn. repeat split; auto.
  - destruct (dispatch toUpperCase ev fd) as [next|] eqn:Hd; [|discriminate].
    intros Hrest. destruct (IH _ _ Hrest) as (Hp & Hi & Hl).
    destruct (dispatch_effect _ _ _ Hd) as (Hp' & Hi' & Hl' & _).
    rewrite Hp, Hi, Hl, Hp', Hi', Hl'. split; [done|]. split; [done|].
    cbn [List.filter]. destruct (is_AddLeg ev); cbn; lia.
Qed.

Lemma session_single_sector (events : list Event) :
  forall fd final : FormData.t,
    session toUpperCase events fd = Some final ->
    FormData.sector_type fd <> SECTOR_TYPES.MULTIPLE ->
    ~ In (SelectSector SECTOR_TYPES.MULTIPLE) events ->
    FormData.sector_type final <> SECTOR_TYPES.MULTIPLE
    /\ List.filter is_AddLeg events = [].
Proof.
  induction events as [|ev rest IH]; intros fd final; cbn [session].
  - intros [= <-]. done.
  - destruct (dispatch toUpperCase ev fd) as [next|] eqn:Hd; [|discriminate].
    intros Hrest Hfd Hnever.
    destruct (dispatch_effect _ _ _ Hd) as (_ & _ & _ & Hsector & Hadd).
    assert (Hnext : FormData.sector_type next <> SECTOR_TYPES.MULTIPLE).
    { destruct Hsector as [-> | (v & -> & ->)]; [done|].
      intros ->. apply Hnever. by left. }
    destruct (IH _ _ Hrest Hnext) as [Hfinal Hnone].
    { intros Hin. apply Hnever. by right. }
    split; [done|]. cbn [List.filter].
    destruct ev; cbn; try done. by destruct Hfd; apply Hadd.
Qed.

End WithUpper.

(** X17.  However the create-booking form is filled in, it posts
    [installments: null]: no control of the page changes the payment
    type or the installment list, so in every state a session can reach
    the payment type is still [full_payment] and the list still empty. *)
Theorem form_never_posts_installments
  (toUpperCase : string -> string) (parseFloat : string -> JS.number)
  (events : list Event) (formData : FormData.t) :
  session toUpperCase events initialForm = Some formData ->
  FormData.payment_type formData = PAYMENT_TYPES.FULL_PAYMENT
  /\ FormData.installments formData = []
  /\ BookingData.installments (bookingData parseFloat formData) = None.
Proof.
  intros H. destruct (session_effect toUpperCase _ _ _ H) as (Hp & Hi & _).
  cbn in Hp, Hi. split; [done|]. split; [done|].
  cbn. by rewrite Hp.
Qed.

Lemma form_never_posts_installments_witness :
  BookingData.installments
    (bookingData (fun _ => JS.NaN)
       (FormData.mk "R. Mehta" "" "" "" "" "" "" "" SECTOR_TYPES.MULTIPLE
          PAYMENT_TYPES.FULL_PAYMENT
          [TravelLeg.mk "" "DEL" "" ""; blankLeg] "" []))
  = None.
Proof.
  apply (form_never_posts_installments (fun s => s) (fun _ => JS.NaN)
           [Input pax_name "R. Mehta";
            SelectSector SECTOR_TYPES.MULTIPLE;
            AddLeg;
            LegInput 0 from_location "DEL"]).
  reflexivity.
Defined.

(** X18.  The form always holds at least one travel leg: a session ends
    with one leg more than the number of times a leg was added, no event
    ever removing one; and as long as the sector type [multiple] was
    never selected it holds exactly the one leg it started with. *)
Theorem form_leg_count
  (toUpperCase : string -> string) (events : list Event)
  (formData : FormData.t) :
  session toUpperCase events initialForm = Some formData ->
  List.length (FormData.travel_legs formData)
  = S (List.length (List.filter is_AddLeg events))
  /\ (~ In (SelectSector SECTOR_TYPES.MULTIPLE) events ->
      List.length (FormData.travel_legs formData) = 1%nat).
Proof.
  intros H. destruct (session_effect toUpperCase _ _ _ H) as (_ & _ & Hl).
  cbn in Hl. split; [by rewrite Hl|]. intros Hnever.
  destruct (session_single_sector toUpperCase _ _ _ H) as [_ Hnone];
    [discriminate | done |].
  by rewrite Hl, Hnone.
Qed.

Lemma form_leg_count_witness :
  List.length [TravelLeg.mk "2024-03-01" "" "" "2024-03-09"]
  = S (List.length
         (List.filter is_AddLeg
            [SelectSector SECTOR_TYPES.ROUND_TRIP;
             LegInput 0 return_date "2024-03-09";
             LegInput 0 travel_date "2024-03-01"]))
  /\ List.length [TravelLeg.mk "2024-03-01" "" "" "2024-03-09"] = 1%nat.
Proof.
  destruct (form_leg_count (fun s => s)
              [SelectSector SECTOR_TYPES.ROUND_TRIP;
               LegInput 0 return_date "2024-03-09";
               LegInput 0 travel_date "2024-03-01"]
              (FormData.mk "" "" "" "" "" "" "" "" SECTOR_TYPES.ROUND_TRIP
                 PAYMENT_TYPES.FULL_PAYMENT
                 [TravelLeg.mk "2024-03-01" "" "" "2024-03-09"] "" []))
    as [Hcount Hone]; [reflexivity|].
  split; [exact Hcount|]. apply Hone. cbn.
  intros [H | [H | [H | []]]]; discriminate H.
Defined.

(** X19.  Adding a travel leg and leaving it blank does not change what
    the form posts: the payload after [addTravelLeg] is the payload
    before it. *)
Theorem blank_leg_not_posted
  (parseFloat : string -> JS.number) (formData : FormData.t) :
  bookingData parseFloat (addTravelLeg formData)
  = bookingData parseFloat formData.
Proof.
  destruct formData. unfold bookingData, addTravelLeg. cbn.
  rewrite List.filter_app. cbn. by rewrite app_nil_r.
Qed.

(** X20.  [handleLegChange] on a leg of the form writes the one field it
    is given: afterwards that field of that leg reads the new value,
    every other field of every leg reads what it read before, the number
    of legs is the same and nothing else in the form has changed.  On an
    index beyond the legs it throws. *)
Theorem leg_change_writes_one_field
  (index : nat) (field : LegField) (value : string) (formData : FormData.t) :
  ((index < List.length (FormData.travel_legs formData))%nat ->
   exists next,
     handleLegChange index field value formData = JS.Normal next
     /\ getLegField field <$> (FormData.travel_legs next !! index)
        = Some value
     /\ (forall (j : nat) (f : LegField),
           j <> index \/ f <> field ->
           getLegField f <$> (FormData.travel_legs next !! j)
           = getLegField f <$> (FormData.travel_legs formData !! j))
     /\ List.length (FormData.travel_legs next)
        = List.length (FormData.travel_legs formData)
     /\ withLegs (FormData.travel_legs formData) next = formData)
  /\ ((List.length (FormData.travel_legs formData) <= index)%nat ->
      handleLegChange index field value formData = JS.Throw JS.TypeError).
Proof.
  unfold handleLegChange. split.
  - intros Hlt.
    destruct (lookup_lt_is_Some_2 (FormData.travel_legs formData) index Hlt)
      as [leg Hleg].
    rewrite Hleg. eexists. split; [reflexivity|].
    destruct (withLegs_keeps
                (<[index := setLegField field value leg]>
                   (FormData.travel_legs formData)) formData)
      as (-> & _).
    split; [|split; [|split]].
    + rewrite list_lookup_insert_eq by done. cbn.
      by destruct leg, field.
    + intros j f [Hj | Hf].
      * by rewrite list_lookup_insert_ne.
      * destruct (decide (index = j)) as [<-|Hne].
        -- rewrite list_lookup_insert_eq by done. rewrite Hleg. cbn.
           f_equal. by destruct leg, field, f.
        -- by rewrite list_lookup_insert_ne.
    + by rewrite length_insert.
    + by destruct formData.
  - intros Hge. by rewrite (lookup_ge_None_2 _ _ Hge).
Qed.

Lemma leg_change_writes_one_field_witness :
  (exists next,
      handleLegChange 0 to_location "BOM" initialForm = JS.Normal next
      /\ getLegField to_location <$> (FormData.travel_legs next !! 0%nat)
         = Some "BOM"
      /\ (forall (j : nat) (f : LegField),
            j <> 0%nat \/ f <> to_location ->
            getLegField f <$> (FormData.travel_legs next !! j)
            = getLegField f <$> (FormData.travel_legs initialForm !! j))
      /\ List.length (FormData.travel_legs next)
         = List.length (FormData.travel_legs initialForm)
      /\ withLegs (FormData.travel_legs initialForm) next = initialForm)
  /\ handleLegChange 1 to_location "BOM" initialForm
     = JS.Throw JS.TypeError.
Proof.
  destruct (leg_change_writes_one_field 0 to_location "BOM" initialForm)
    as [Hin _].
  destruct (leg_change_writes_one_field 1 to_location "BOM" initialForm)
    as [_ Hout].
  split; [apply Hin; cbn; lia | apply Hout; cbn; lia].
Defined.

End FormProofs.
